(* ===== verification/_CoqProject ===== *)
-Q . S2P
Prelude.v
Config.v
Schedule.v
Codec.v
Store.v
Iterator.v
Chain.v
Singleton.v
RoundCounter.v
Epoch.v
Penalty.v
LowPerf.v
WalkLoops.v
DoubleSign.v
System.v
Lifecycle.v
