(* ===== verification/Prelude.v ===== *)
(** * Verification of the PlatON-Go slashing plugin

    The program is [src/x/plugin/slashing_plugin.go] (package [plugin]).
    The plugin is a consensus-critical state machine with four parts that
    communicate through the snapshot store and the staking ledger:
    - the round counters: [Confirmed] (lines 121-135) counts every
      confirmed block for its signer through [setBlockAmount] /
      [getBlockAmount] / [parseNodeId] (lines 137-178, 322-330), an RLP
      [uint16] under ["SlashCb" ++ NodeID] in the store's base layer;
    - the epoch rotation: at the first block of every round but the first,
      [Confirmed] calls [switchEpoch] (lines 180-215), which deletes the
      previous window ["SlashPb" ++ NodeID] and moves the current window
      into it;
    - the under-production policy: at every round's election block after
      the first round, [EndBlock] (lines 72-119) reads the previous window
      ([GetPreNodeAmount], lines 217-242), classifies every current
      validator ([isAbnormal], lines 315-320) and slashes it through the
      staking plugin by [calcSlashAmount] (lines 332-338);
    - the double-sign protocol: [Slash] (lines 244-272) decodes evidences
      with the injected decoder, rejects those already punished (a record
      under [mutiSignKey], lines 282-296, in the contract storage), slashes
      the candidate with removal and records the transaction hash;
      [CheckMutiSign] (lines 274-280) queries the record.

    Files, in dependency order:
    - [Prelude] (this file): bytes; the error type [Error] and [result],
      Go's [(T, error)]; the state-error monad [SE S A = S -> result A * S],
      in which an error keeps the state, because the Go code mutates the
      store and the ledger in place and effects before an error stay;
      the loops [fold_result] and [fold_se]; [se_preserves P m] (P holds
      after [m] whatever its outcome); key prefixes; [uint] wrap-around;
      the hint databases [slashing] and [slashing_rw].
    - [Config]: the package constants (lines 25-43) with their Go names,
      the [xcom] parameters as the record [Config], the conditions
      [isSwitchBlock] (line 124) and [isRankingBlock] (line 74).
    - [Schedule]: when the two hooks fire, over every configuration.
    - [Codec]: modules [RLP] (canonical RLP of [uint16]), [BigEndian]
      ([utils.Uint64ToBytes]) and [Keys] ([curKey], [preKey],
      [getNodeId], [mutiSignKey]).
    - [Store]: the snapshot database: base layer, per-block branch view,
      and a set of keys whose writes fail; [WalkBaseDB] walks a snapshot
      of the base layer in key order, and [WalkBaseDB_in] in any other
      order of the same entries; the walk is sorted, and the part of it
      after a key depends only on the base layer there
      ([walk_entries_frame]).
    - [Iterator]: goleveldb's iterator as the interface [DBIterator]
      ([Next], [Key], [Value]) with two instances, over a snapshot
      ([SnapIter]) and over the live base layer ([LiveIter]); the loop
      [for iter.Next() { ... }] with fuel ([iter_loop]), and the
      computations with fuel [SEo S A = S -> option (result A * S)].
    - [Chain]: headers and blocks, the [SlashingPlugin] struct (lines
      48-51) with [SetDecodeEvidenceFun] and [BeginBlock], and the
      interfaces of the collaborators as type classes: [SigRecover]
      ([crypto.SigToPub]) and [StakingLedger] ([stk]); every theorem holds
      for every instance; [test_ledger] is a logging instance for examples.
    - [Singleton]: [SlashInstance] (lines 45, 53-62) over a heap of plugin
      objects with the [once] flag and the shared pointer [slashPlugin],
      and [SetDecodeEvidenceFun] called through that pointer.
    - [RoundCounter]: [parseNodeId], [getBlockAmount], [setBlockAmount],
      the store invariant [counts_wf].
    - [Epoch]: [switchEpoch] as its two walks, [Confirmed], the abstract
      rotation [rotated].
    - [Penalty]: [calcSlashAmount].
    - [LowPerf]: [GetPreNodeAmount], the loop body's decision
      [slashDecision], [EndBlock]; the specification's tiers [spec_tier].
    - [WalkLoops]: [switchEpoch] and [GetPreNodeAmount] with their loops
      run on an iterator, with the counters [preCount] and [curCount] and
      the map [result] as the loops' local state.
    - [DoubleSign]: the transaction state (ledger and contract storage),
      [Slash], [CheckMutiSign], [getSlashResult], [putSlashResult].
    - [System]: the plugin as a state machine: a world (store, ledger,
      contract storage), one [step] per call of an entry point, and
      [reachable], the closure under any interleaving of the calls and of
      new transactions; a ledger wrapper [logged] observes the double-sign
      slashes.
    - [Lifecycle]: the plugin over a chain of confirmed blocks, and a
      concrete scenario evaluated by [vm_compute].

    What the theorems show:
    - refinement: [switchEpoch] implements [rotated] whatever the walk
      order ([switchEpoch_spec]); the policy's decision is the
      specification's tier for every validator with a count
      ([slashDecision_present]); after blocks [1..n] are confirmed the
      policy slashes by the real production of the previous round
      ([policy_previous_round]);
    - invariants: [counts_wf] is preserved by every store operation on
      every outcome, and holds in every reachable world; by rule
      induction over [reachable], the double-sign slashes performed equal
      the records written and records are never removed, so no evidence
      is slashed twice ([double_sign_accounting]); by induction over a
      chain, the two windows hold the production of the current and the
      previous round ([chain_windows]);
    - functional behaviour and error paths of every operation: the slash
      calls of [EndBlock], once-only double-sign slashing, the abort of a
      loop at its first error with the earlier effects kept, panics on a
      short header or a missing decoder;
    - the schedule: the policy runs exactly once per round after the first
      and the rotation exactly once, at the round's first block, never
      after the policy ([ranking_in_round], [round_hooks_order]);
    - equivalence: the rotation and the reading of the previous round give
      the same result whatever order the store's walks enumerate the
      entries in ([switchEpoch_walk_order], [GetPreNodeAmount_walk_order]),
      and the rotation the same result whether its walks read a snapshot
      or the live base layer ([switchEpoch_live_iterator]);
    - termination: the [for iter.Next()] loops end after one call of
      [Next()] per entry and one more, on either iterator, and then the
      rotation's loops implement [rotated] ([switchEpoch_loops_rotate])
      and the read of the previous round returns the decoded counts
      ([GetPreNodeAmount_loop_reads]);
    - the singleton: [SlashInstance] allocates once and hands out one
      shared object, so a decoder set through one handle is seen through
      all ([SlashInstance_shared_decoder]);
    - round trips: a count written by [setBlockAmount] is read back by
      [getBlockAmount] for the signer's next block
      ([setBlockAmount_roundtrip]); the injectivity of the record keys;
    - where the code and the specification part: an absent validator is
      fined but not removed ([slashDecision_absent]); the rotation is not
      atomic: on every store where a previous-round write fails, the
      validator's count is lost ([switchEpoch_partial]).

    Bounds and fuel: the loops over the validator and evidence lists, and
    the walks in [Epoch] and [LowPerf], are structural recursion over a
    list, so those definitions are total by construction.  The loops of
    [WalkLoops] call [Next()] on an iterator, whose progress is not
    structural; [iter_loop] takes fuel, a bound on the calls of [Next()],
    and returns [None] when it runs out.  The termination theorems take
    fuel above the number of entries under the walked prefix, which is
    enough: each call of [Next()] but the last visits one entry.
    Integers are [Z] with the wrap-around written
    out: counts are [uint16] ([wrap 16] in [setBlockAmount]), [IsElection]
    adds [uint64]s ([wrap 64]), [int32_of] and [uint64_of_int32] are the
    Go conversions, and the [big.Int] amounts are unbounded.  The schedule
    theorems take block numbers below [2^64 - ElectionDistance], where the
    sum does not wrap; the chain theorems take rounds of at least two
    blocks (with one, the rotation never fires: [isSwitchBlock_unit_round]).

    Not modelled: logging; the thread safety of [sync.Once] (a single
    caller is modelled); concurrency between branches, which the specification delegates to
    the store: per branch the hooks run one after the other, as the
    sequences of steps of [reachable] here.  The packages outside [src/]
    are modelled from the specification at their interface: [snapshotdb], [rlp], [utils],
    [discover.BytesID], [xcom] and [xutil], [consensus.Evidence]. *)

From Stdlib Require Import ZArith Lia String.
From Stdlib Require Strings.Byte.
From stdpp Require Export base list gmap sorting.

(** ** Bytes *)

(** Go's [[]byte] is a list of bytes. *)
Abbreviation byte := Byte.byte.
Abbreviation bytes := (list Byte.byte).

#[export] Instance byte_eq_dec : EqDecision byte := Byte.byte_eq_dec.
#[export] Instance byte_countable : Countable byte :=
  inj_countable Byte.to_N Byte.of_N Byte.of_to_N.

Declare Scope slash_scope.
Delimit Scope slash_scope with slash.
Open Scope slash_scope.

(** [bstr "..."] is the byte string of an ASCII literal, Go's [[]byte("...")]. *)
Definition bstr (s : string) : bytes := String.list_byte_of_string s.

(** Unsigned value of a byte, and the byte of a value in [0, 256). *)
Definition byte_val (b : byte) : Z := Z.of_N (Byte.to_N b).
Definition byte_of (z : Z) : byte :=
  match Byte.of_N (Z.to_N (z mod 256)) with Some b => b | None => Byte.x00 end.

Lemma byte_val_range (b : byte) : (0 <= byte_val b < 256)%Z.
Proof. unfold byte_val. pose proof (Byte.to_N_bounded b). lia. Qed.

Lemma byte_val_of (z : Z) : byte_val (byte_of z) = (z mod 256)%Z.
Proof.
  unfold byte_val, byte_of.
  pose proof (Z.mod_pos_bound z 256 ltac:(lia)).
  destruct (Byte.of_N (Z.to_N (z mod 256))) as [b|] eqn:E.
  - apply Byte.to_of_N in E. rewrite E. lia.
  - apply Byte.of_N_None_iff in E. lia.
Qed.

Lemma byte_of_val (b : byte) : byte_of (byte_val b) = b.
Proof.
  unfold byte_of. rewrite Z.mod_small by apply byte_val_range.
  unfold byte_val. rewrite N2Z.id, Byte.of_to_N. reflexivity.
Qed.

Lemma byte_val_inj (a b : byte) : byte_val a = byte_val b -> a = b.
Proof. intros H. by rewrite <- (byte_of_val a), <- (byte_of_val b), H. Qed.

(** ** Errors and the result monad *)

(** The errors the plugin returns or propagates.  [ErrNotFound] is
    [snapshotdb.ErrNotFound]; [ErrStore] an I/O failure of the store;
    [ErrRLP] a failure of [rlp.DecodeBytes]; [ErrBytesID] a failure of
    [discover.BytesID]; [ErrPanic] a Go runtime panic (out-of-range slice);
    [ErrBiz m] a [common.NewBizError m]; [ErrExt t] an error returned by an
    external collaborator (staking ledger, signature recovery, evidence
    decoder or validation), tagged by its origin. *)
Inductive Error :=
  | ErrNotFound
  | ErrStore
  | ErrRLP
  | ErrBytesID
  | ErrPanic
  | ErrBiz (msg : string)
  | ErrExt (tag : string).

#[export] Instance Error_eq_dec : EqDecision Error.
Proof. solve_decision. Defined.

(** A Go [(T, error)] pair where a non-nil error discards the value. *)
Inductive result (A : Type) :=
  | Ok (a : A)
  | Err (e : Error).
Arguments Ok {A} a.
Arguments Err {A} e.

#[export] Instance result_eq_dec `{EqDecision A} : EqDecision (result A).
Proof. solve_decision. Defined.

Definition rbind {A B} (m : result A) (k : A -> result B) : result B :=
  match m with Ok a => k a | Err e => Err e end.

Notation "x <-? m ;; k" := (rbind m (fun x => k))
  (at level 100, m at next level, k at level 200, right associativity) : slash_scope.

Definition is_ok {A} (r : result A) : bool :=
  match r with Ok _ => true | Err _ => false end.

Lemma rbind_Ok {A B} (m : result A) (k : A -> result B) (b : B) :
  rbind m k = Ok b <-> exists a, m = Ok a /\ k a = Ok b.
Proof.
  destruct m as [a|e]; simpl; split.
  - eauto.
  - intros (a' & [= <-] & Hk). exact Hk.
  - discriminate.
  - intros (a & Hm & _). discriminate.
Qed.

Lemma rbind_Err {A B} (m : result A) (k : A -> result B) (e : Error) :
  rbind m k = Err e <-> m = Err e \/ exists a, m = Ok a /\ k a = Err e.
Proof.
  destruct m as [a|e']; simpl; split.
  - eauto.
  - intros [Hm | (a' & [= <-] & Hk)]; [discriminate | exact Hk].
  - intros [= ->]. auto.
  - intros [Hm | (a & Hm & _)]; congruence.
Qed.

Lemma rbind_ok_l {A B} (a : A) (k : A -> result B) : rbind (Ok a) k = k a.
Proof. reflexivity. Qed.

(** A Go [for] loop over a slice whose body may return an error: the loop
    stops at the first error. *)
Fixpoint fold_result {A S} (f : A -> S -> result S) (l : list A) (s : S) : result S :=
  match l with
  | [] => Ok s
  | x :: l' => s' <-? f x s ;; fold_result f l' s'
  end.

Lemma fold_result_app {A S} (f : A -> S -> result S) (l1 l2 : list A) (s : S) :
  fold_result f (l1 ++ l2) s = (s' <-? fold_result f l1 s ;; fold_result f l2 s').
Proof. revert s; induction l1; intros s; simpl; [done|]. destruct (f a s); simpl; auto. Qed.

(** A loop whose body never fails computes the corresponding [fold_left]. *)
Lemma fold_result_total {A S} (f : A -> S -> result S) (g : S -> A -> S) (l : list A) (s : S) :
  (forall x s, x ∈ l -> f x s = Ok (g s x)) -> fold_result f l s = Ok (fold_left g l s).
Proof.
  revert s; induction l as [|x l IH]; intros s Hf; simpl; [done|].
  rewrite Hf by set_solver. simpl. apply IH. intros; apply Hf; set_solver.
Qed.

(** An invariant preserved by every successful step holds after the loop. *)
Lemma fold_result_inv {A S} (P : S -> Prop) (f : A -> S -> result S) (l : list A) (s s' : S) :
  (forall x s s', x ∈ l -> P s -> f x s = Ok s' -> P s') ->
  P s -> fold_result f l s = Ok s' -> P s'.
Proof.
  revert s; induction l as [|x l IH]; intros s Hf Hs H; simpl in H.
  - by injection H as <-.
  - apply rbind_Ok in H as (s1 & H1 & H2).
    eapply IH; [| |exact H2].
    + intros y t t' Hy. apply Hf. by apply list_elem_of_further.
    + eapply Hf; [apply list_elem_of_here|done|done].
Qed.

(** ** State and errors *)

(** Go code that mutates a shared object (the store, the ledger) and
    returns an [error]: the mutations made before the error stay. *)
Definition SE (S A : Type) : Type := S -> result A * S.

Definition se_ret {S A} (a : A) : SE S A := fun s => (Ok a, s).
Definition se_err {S A} (e : Error) : SE S A := fun s => (Err e, s).
Definition se_bind {S A B} (m : SE S A) (k : A -> SE S B) : SE S B :=
  fun s => match m s with
           | (Ok a, s') => k a s'
           | (Err e, s') => (Err e, s')
           end.
(** A pure computation that may fail, and a read of the state. *)
Definition se_lift {S A} (r : result A) : SE S A := fun s => (r, s).
Definition se_gets {S A} (f : S -> result A) : SE S A := fun s => (f s, s).

Notation "x <- m ;; k" := (se_bind m (fun x => k))
  (at level 100, m at next level, k at level 200, right associativity) : slash_scope.
Notation "m ;; k" := (se_bind m (fun _ : unit => k))
  (at level 100, k at level 200, right associativity) : slash_scope.

Lemma se_bind_Ok {S A B} (m : SE S A) (k : A -> SE S B) (s : S) (a : A) (s' : S) :
  m s = (Ok a, s') -> se_bind m k s = k a s'.
Proof. unfold se_bind. by intros ->. Qed.

Lemma se_bind_Err {S A B} (m : SE S A) (k : A -> SE S B) (s : S) (e : Error) (s' : S) :
  m s = (Err e, s') -> se_bind m k s = (Err e, s').
Proof. unfold se_bind. by intros ->. Qed.

Lemma se_bind_inv {S A B} (m : SE S A) (k : A -> SE S B) (s s'' : S) (b : B) :
  se_bind m k s = (Ok b, s'') -> exists a s', m s = (Ok a, s') /\ k a s' = (Ok b, s'').
Proof.
  unfold se_bind. destruct (m s) as [[a|e] s']; [eauto|discriminate].
Qed.

(** A Go [for] loop whose body mutates the state and may return. *)
Fixpoint fold_se {A S} (f : A -> SE S unit) (l : list A) : SE S unit :=
  match l with
  | [] => se_ret tt
  | x :: l' => f x ;; fold_se f l'
  end.

Lemma se_bind_ext {S A B} (m : SE S A) (k k' : A -> SE S B) (s : S) :
  (forall a s, k a s = k' a s) -> se_bind m k s = se_bind m k' s.
Proof. intros Hk. unfold se_bind. destruct (m s) as [[a|e] s']; auto. Qed.

(** A loop whose body acts only on the elements a partial function maps,
    and the loop over the images. *)
Lemma fold_se_omap {A B S} (f : A -> option B) (g : B -> SE S unit) (body : A -> SE S unit)
    (l : list A) (s : S) :
  (forall x s, body x s = match f x with Some b => g b s | None => (Ok tt, s) end) ->
  fold_se body l s = fold_se g (omap f l) s.
Proof.
  intros Hb. revert s; induction l as [|x l IH]; intros s; [done|]. simpl.
  destruct (f x) as [b|] eqn:Hf; simpl.
  - unfold se_bind at 1 2. rewrite Hb, Hf. destruct (g b s) as [[[]|e] s']; auto.
  - unfold se_bind at 1. rewrite Hb, Hf. apply IH.
Qed.

(** Inserting a list of entries with distinct keys. *)
Lemma lookup_fold_insert `{Countable K} {V} (l : list (K * V)) (m0 : gmap K V) (x : K) (v : V) :
  NoDup l.*1 ->
  fold_left (fun m kv => <[kv.1 := kv.2]> m) l m0 !! x = Some v <->
  (x, v) ∈ l \/ (x ∉ l.*1 /\ m0 !! x = Some v).
Proof.
  revert m0; induction l as [|[k w] l IH]; intros m0 Hnd; cbn [fold_left].
  - set_solver.
  - rewrite fmap_cons in Hnd. apply NoDup_cons in Hnd as [Hk Hnd].
    rewrite IH by done. rewrite fmap_cons, elem_of_cons, not_elem_of_cons.
    destruct (decide (k = x)) as [<-|E].
    + rewrite lookup_insert_eq. split.
      * intros [Hin|[_ [= <-]]]; [|by left; left].
        exfalso. apply Hk, list_elem_of_fmap. by exists (k, v).
      * intros [[[= <-]|Hin]|[[Hn _] _]]; [by right|..|done].
        exfalso. apply Hk, list_elem_of_fmap. by exists (k, v).
    + rewrite lookup_insert_ne by done. split.
      * intros [?|[? ?]]; [by left; right|right; split; [split|]; done].
      * intros [[[= -> ->]|?]|[[? ?] ?]]; [done|by left|right; done].
Qed.

(** Inserting entries with distinct keys does not depend on their order. *)
Lemma fold_insert_perm `{Countable K} {V} (l1 l2 : list (K * V)) (m0 : gmap K V) :
  NoDup l1.*1 -> l1 ≡ₚ l2 ->
  fold_left (fun m kv => <[kv.1 := kv.2]> m) l1 m0 =
  fold_left (fun m kv => <[kv.1 := kv.2]> m) l2 m0.
Proof.
  intros Hnd Hp. assert (Hnd2 : NoDup l2.*1) by (by rewrite <- Hp).
  apply map_eq. intros x. apply option_eq. intros v.
  rewrite !lookup_fold_insert by done. by rewrite Hp.
Qed.

(** A loop over a concatenation runs the two loops in sequence: the
    effects of the first stay when the second fails. *)
Lemma fold_se_app {A S} (f : A -> SE S unit) (l1 l2 : list A) (s : S) :
  fold_se f (l1 ++ l2) s = (fold_se f l1 ;; fold_se f l2) s.
Proof.
  revert s; induction l1 as [|x l1 IH]; intros s; simpl; [done|].
  unfold se_bind at 1 2 3. destruct (f x s) as [[[]|e] s']; [apply IH|done].
Qed.

(** A loop with a local variable [t] the body updates. *)
Fixpoint fold_se_acc {A St T} (f : A -> T -> SE St T) (l : list A) (t : T) : SE St T :=
  match l with
  | [] => se_ret t
  | x :: l' => t' <- f x t ;; fold_se_acc f l' t'
  end.

(** A local variable that only counts the iterations ([n++]) ends at
    [n + length l] when the loop completes. *)
Lemma fold_se_acc_count {A St} (f : A -> SE St unit) (l : list A) (n : nat) (s : St) :
  fold_se_acc (fun x n => f x ;; se_ret (S n)) l n s = (fold_se f l ;; se_ret (n + length l)) s.
Proof.
  revert n s; induction l as [|x l IH]; intros n s; cbn; unfold se_bind, se_ret in *; cbn.
  - by rewrite Nat.add_0_r.
  - destruct (f x s) as [[[]|e] s']; [|done]. rewrite IH, Nat.add_succ_r. done.
Qed.

(** A body that only computes is [fold_result]. *)
Lemma fold_se_acc_lift {A St T} (f : A -> T -> result T) (l : list A) (t : T) (s : St) :
  fold_se_acc (fun x t => se_lift (f x t)) l t s = (fold_result f l t, s).
Proof.
  revert t; induction l as [|x l IH]; intros t; simpl; [done|].
  unfold se_bind, se_lift. destruct (f x t); [apply IH|done].
Qed.

(** [P] holds after [m] whatever its outcome, error included. *)
Definition se_preserves {S A} (P : S -> Prop) (m : SE S A) : Prop :=
  forall s r s', P s -> m s = (r, s') -> P s'.

Lemma se_preserves_ret {S A} (P : S -> Prop) (a : A) : se_preserves P (se_ret a).
Proof. intros s r s' Hs [= _ <-]. done. Qed.

Lemma se_preserves_lift {S A} (P : S -> Prop) (r : result A) : se_preserves P (se_lift r).
Proof. intros s r' s' Hs [= _ <-]. done. Qed.

Lemma se_preserves_gets {S A} (P : S -> Prop) (f : S -> result A) : se_preserves P (se_gets f).
Proof. intros s r' s' Hs [= _ <-]. done. Qed.

Lemma se_preserves_bind {S A B} (P : S -> Prop) (m : SE S A) (k : A -> SE S B) :
  se_preserves P m -> (forall a, se_preserves P (k a)) -> se_preserves P (se_bind m k).
Proof.
  intros Hm Hk s r s' Hs. unfold se_bind.
  destruct (m s) as [[a|e] s1] eqn:E.
  - apply Hk. by apply (Hm s (Ok a) s1).
  - intros [= _ <-]. by apply (Hm s (Err e) s1).
Qed.

(** After a pure step the continuation may use the step's success. *)
Lemma se_preserves_bind_lift {S A B} (P : S -> Prop) (r : result A) (k : A -> SE S B) :
  (forall a, r = Ok a -> se_preserves P (k a)) -> se_preserves P (se_bind (se_lift r) k).
Proof.
  intros Hk s r' s' Hs. unfold se_bind, se_lift.
  destruct r as [a|e]; [by apply Hk|]. intros [= _ <-]. done.
Qed.

Lemma se_preserves_fold {A S} (P : S -> Prop) (f : A -> SE S unit) (l : list A) :
  (forall x, x ∈ l -> se_preserves P (f x)) -> se_preserves P (fold_se f l).
Proof.
  induction l as [|x l IH]; intros Hf; simpl; [apply se_preserves_ret|].
  apply se_preserves_bind; [apply Hf; set_solver|].
  intros _. apply IH. intros; apply Hf; set_solver.
Qed.

(** [m] guarantees [R] under [P]: from a state satisfying [P], every
    outcome of [m] satisfies [P] again and is related to the start by [R]
    (which records what the operation may change). *)
Definition se_guarantee {S A} (P : S -> Prop) (R : S -> S -> Prop) (m : SE S A) : Prop :=
  forall s r s', P s -> m s = (r, s') -> P s' /\ R s s'.

Section Guarantee.
Context {S : Type} (P : S -> Prop) (R : S -> S -> Prop) {HR : PreOrder R}.

Lemma se_guarantee_ret {A} (a : A) : se_guarantee P R (se_ret a).
Proof. intros s r s' Hs [= _ <-]. split; [done|reflexivity]. Qed.

Lemma se_guarantee_lift {A} (r0 : result A) : se_guarantee P R (se_lift r0).
Proof. intros s r s' Hs [= _ <-]. split; [done|reflexivity]. Qed.

Lemma se_guarantee_gets {A} (f : S -> result A) : se_guarantee P R (se_gets f).
Proof. intros s r s' Hs [= _ <-]. split; [done|reflexivity]. Qed.

Lemma se_guarantee_bind {A B} (m : SE S A) (k : A -> SE S B) :
  se_guarantee P R m -> (forall a, se_guarantee P R (k a)) -> se_guarantee P R (se_bind m k).
Proof.
  intros Hm Hk s r s' Hs. unfold se_bind.
  destruct (m s) as [[a|e] s1] eqn:E; destruct (Hm s _ s1 Hs E) as [H1 R1].
  - intros Hk'. destruct (Hk a s1 r s' H1 Hk') as [H2 R2]. split; [done|by etrans].
  - intros [= _ <-]. done.
Qed.

Lemma se_guarantee_fold {A} (f : A -> SE S unit) (l : list A) :
  (forall x, x ∈ l -> se_guarantee P R (f x)) -> se_guarantee P R (fold_se f l).
Proof.
  induction l as [|x l IH]; intros Hf; simpl; [apply se_guarantee_ret|].
  apply se_guarantee_bind; [apply Hf; set_solver|].
  intros _. apply IH. intros; apply Hf; set_solver.
Qed.

End Guarantee.

(** ** Byte-string prefixes *)

(** [has_prefix p k]: [k] starts with [p] (the range [util.BytesPrefix p]). *)
Fixpoint has_prefix (p k : bytes) : bool :=
  match p, k with
  | [], _ => true
  | x :: p', y :: k' => bool_decide (x = y) && has_prefix p' k'
  | _ :: _, [] => false
  end.

Lemma has_prefix_cons (x y : byte) (p k : bytes) :
  has_prefix (x :: p) (y :: k) = bool_decide (x = y) && has_prefix p k.
Proof. reflexivity. Qed.

Lemma has_prefix_app (p s : bytes) : has_prefix p (p ++ s) = true.
Proof. induction p; [done|]. simpl. rewrite bool_decide_true, IHp; auto. Qed.

Lemma has_prefix_spec (p k : bytes) :
  has_prefix p k = true <-> exists s, k = p ++ s.
Proof.
  split.
  - revert k; induction p as [|x p IH]; intros [|y k] H; simpl in *;
      try discriminate; eauto.
    apply andb_true_iff in H as [Hx Hk]. apply bool_decide_eq_true in Hx.
    destruct (IH k Hk) as [s ->]. subst. eauto.
  - intros [s ->]. apply has_prefix_app.
Qed.

(** Two prefixes of the same length that differ are never both prefixes. *)
Lemma has_prefix_disjoint (p q k : bytes) :
  length p = length q -> p <> q ->
  has_prefix p k = true -> has_prefix q k = false.
Proof.
  intros Hl Hne Hp. apply has_prefix_spec in Hp as [s ->].
  destruct (has_prefix q (p ++ s)) eqn:Hq; [|done].
  apply has_prefix_spec in Hq as [t Ht].
  exfalso. apply Hne. by apply app_inj_1 in Ht as [? _].
Qed.

Arguments has_prefix : simpl never.

(** Go's [key[len(prefix):]]. *)
Definition drop_prefix (p k : bytes) : bytes := drop (length p) k.

Lemma drop_prefix_app (p s : bytes) : drop_prefix p (p ++ s) = s.
Proof. unfold drop_prefix. by rewrite drop_app_length. Qed.

(** ** Lexicographic order on byte strings (leveldb's key order) *)

Fixpoint bytes_leb (a b : bytes) : bool :=
  match a, b with
  | [], _ => true
  | _ :: _, [] => false
  | x :: a', y :: b' =>
      if decide (Byte.to_N x = Byte.to_N y) then bytes_leb a' b'
      else (Byte.to_N x <? Byte.to_N y)%N
  end.

Definition key_le (e1 e2 : bytes * bytes) : Prop := bytes_leb e1.1 e2.1 = true.
#[export] Instance key_le_dec : RelDecision key_le.
Proof. intros ??. unfold key_le. apply _. Defined.

Lemma bytes_leb_refl (a : bytes) : bytes_leb a a = true.
Proof. induction a; cbn; [done|]. by rewrite decide_True. Qed.

Lemma bytes_leb_total (a b : bytes) : bytes_leb a b = true \/ bytes_leb b a = true.
Proof.
  revert b. induction a as [|x a IH]; intros [|y b]; cbn; auto.
  case_decide as Hxy; [rewrite decide_True by done; apply IH|].
  rewrite decide_False by congruence.
  destruct (N.ltb_spec (Byte.to_N x) (Byte.to_N y)); [auto|].
  right. apply N.ltb_lt. lia.
Qed.

Lemma bytes_leb_trans (a b c : bytes) :
  bytes_leb a b = true -> bytes_leb b c = true -> bytes_leb a c = true.
Proof.
  revert b c. induction a as [|x a IH]; intros [|y b] [|z c]; cbn; try done.
  repeat case_decide; rewrite ?N.ltb_lt; eauto; lia.
Qed.

Lemma bytes_leb_antisym (a b : bytes) :
  bytes_leb a b = true -> bytes_leb b a = true -> a = b.
Proof.
  revert b. induction a as [|x a IH]; intros [|y b]; cbn; try done.
  repeat case_decide; rewrite ?N.ltb_lt; try lia.
  intros. f_equal; [|by apply IH].
  apply (f_equal Byte.of_N) in H. rewrite !Byte.of_to_N in H. congruence.
Qed.

#[export] Instance key_le_trans : Transitive key_le.
Proof. intros ???. apply bytes_leb_trans. Qed.
#[export] Instance key_le_total : Total key_le.
Proof. intros ??. apply bytes_leb_total. Qed.

(** ** Sorted lists *)

Lemma StronglySorted_filter {A} (R : relation A) (P : A -> Prop) `{!forall x, Decision (P x)}
    (l : list A) :
  StronglySorted R l -> StronglySorted R (filter P l).
Proof.
  induction 1 as [|x l Hl IH Hx]; [constructor|].
  rewrite filter_cons. case_decide; [|done]. constructor; [done|].
  apply Forall_forall. intros y [_ Hy]%list_elem_of_filter. by apply (Forall_forall _ l) with y in Hx.
Qed.

Lemma list_filter_all {A} (P : A -> Prop) `{!forall x, Decision (P x)} (l : list A) :
  (forall x, x ∈ l -> P x) -> filter P l = l.
Proof.
  induction l as [|x l IH]; intros Hl; [done|].
  rewrite filter_cons_True by (apply Hl; set_solver). f_equal. apply IH. set_solver.
Qed.

(** ** Machine integers *)

Section MachineInt.
Local Open Scope Z_scope.

(** Go's [uint16] and [uint64] arithmetic wraps modulo [2^w]. *)
Definition wrap (w : Z) (z : Z) : Z := z mod 2 ^ w.
Definition u16_max : Z := 2 ^ 16.
Definition u64_max : Z := 2 ^ 64.

Lemma wrap_small (w z : Z) : 0 <= z < 2 ^ w -> wrap w z = z.
Proof. intros. unfold wrap. by apply Z.mod_small. Qed.

Lemma wrap_range (w z : Z) : 0 <= w -> 0 <= wrap w z < 2 ^ w.
Proof. intros. unfold wrap. apply Z.mod_pos_bound. lia. Qed.

End MachineInt.

(** ** Automation *)

Create HintDb slashing discriminated.
Create Rewrite HintDb slashing_rw.
#[export] Hint Resolve has_prefix_app drop_prefix_app wrap_range : slashing.
#[export] Hint Resolve se_preserves_ret se_preserves_lift se_preserves_gets
  se_preserves_bind_lift se_preserves_bind : slashing.
#[export] Hint Rewrite @rbind_ok_l has_prefix_app drop_prefix_app : slashing_rw.

(** Invert a hypothesis and substitute. *)
Ltac invc H := inversion H; clear H; subst.

(** Split every [rbind _ _ = Ok _] hypothesis into its two steps. *)
Ltac result_inv :=
  repeat match goal with
  | H : rbind _ _ = Ok _ |- _ =>
      apply rbind_Ok in H as (? & ? & ?)
  | H : Ok _ = Ok _ |- _ => injection H as H; subst
  | H : Ok _ = Err _ |- _ => discriminate H
  | H : Err _ = Ok _ |- _ => discriminate H
  end.
