(* ===== verification/Config.v ===== *)
(** * Configuration: the plugin's package-level constants and the
      round/epoch parameters it reads from [xcom] and [xutil].

    The constants of [slashing_plugin.go] lines 25-43 are definitions of
    this file with their Go names.  The parameters [xcom.ConsensusSize],
    [xcom.ConsValidatorNum] and [xcom.ElectionDistance] live outside the
    repository's sources; they are fields of the record [Config], and
    [xutil.IsElection] is modelled from the specification. *)

From S2P Require Import Prelude.
From Stdlib Require Import ZArith Lia String.
Local Open Scope Z_scope.

(** ** Constants of slashing_plugin.go *)

(** Key prefixes of the current and the previous round's block counts. *)
Definition curAbnormalPrefix : bytes := bstr "SlashCb".
Definition preAbnormalPrefix : bytes := bstr "SlashPb".
Arguments curAbnormalPrefix : simpl never.
Arguments preAbnormalPrefix : simpl never.

(** Thresholds on a round's block count ([uint16]) and the divisors
    ("slashing rates", [uint64]) applied to a candidate's stake. *)
Definition blockAmountLow : Z := 8.
Definition blockAmountHigh : Z := 5.
Definition blockAmountLowSlashing : Z := 10.
Definition blockAmountHighSlashing : Z := 20.
Definition duplicateSignNum : Z := 2.
Definition duplicateSignLowSlashing : Z := 10.
Definition duplicateSignHighSlashing : Z := 20.

Definition errMutiSignVerify : Error := ErrBiz "Multi-sign verification failed".
(** [common.NewBizError(errSlashExist.Error())]. *)
Definition errSlashExist : Error := ErrBiz "Punishment has been implemented".

(** ** Round parameters ([xcom]) *)

Record Config := mkConfig {
  ConsensusSize : Z;      (** blocks per consensus round *)
  ConsValidatorNum : Z;   (** validators per consensus round *)
  ElectionDistance : Z    (** distance of the election block to the round end *)
}.

(** The [uint64] parameters are in range and the divisors are non-zero
    (Go panics on a division or modulus by zero). *)
Definition cfg_wf (c : Config) : Prop :=
  0 < ConsensusSize c < u64_max /\ 0 < ConsValidatorNum c < u64_max /\
  0 <= ElectionDistance c < ConsensusSize c.

#[export] Instance cfg_wf_dec c : Decision (cfg_wf c).
Proof. unfold cfg_wf. apply _. Defined.

(** [xutil.IsElection]: the block lies [ElectionDistance] blocks before the
    end of a round (the sum is [uint64] and wraps). *)
Definition IsElection (c : Config) (blockNumber : Z) : bool :=
  wrap 64 (blockNumber + ElectionDistance c) mod ConsensusSize c =? 0.

(** The condition of [Confirmed] (line 124) for switching epochs: the first
    block of a round, block 1 excepted. *)
Definition isSwitchBlock (c : Config) (blockNumber : Z) : bool :=
  (blockNumber mod ConsensusSize c =? 1) && (1 <? blockNumber).

(** The condition of [EndBlock] (line 74) for ranking block amounts. *)
Definition isRankingBlock (c : Config) (blockNumber : Z) : bool :=
  IsElection c blockNumber && (ConsensusSize c <? blockNumber).

(** The main-net parameters the specification's scenario uses: rounds of
    250 blocks, 25 validators, election 20 blocks before the round end. *)
Definition mainnet : Config := mkConfig 250 25 20.

Lemma mainnet_wf : cfg_wf mainnet.
Proof. unfold cfg_wf, u64_max; simpl; lia. Qed.
