(* ===== verification/Schedule.v ===== *)
(** * Schedule: when the two round hooks fire.

    [Confirmed] rotates the windows at the first block of every round but
    the first ([isSwitchBlock], line 124); [EndBlock] runs the policy at
    the election block of every round after the first ([isRankingBlock],
    line 74).  Rounds are [(k-1)R+1 .. kR] for [R = ConsensusSize].  This
    file characterises both conditions over the block numbers a chain can
    reach (below [2^64 - ElectionDistance], so the [uint64] sum of
    [IsElection] does not wrap): the policy runs exactly once in each round
    [k >= 2], at block [kR - ElectionDistance], and never in round 1; the
    rotation happens exactly once in each round [k >= 2], at its first
    block, which precedes the
    election block unless [ElectionDistance = R - 1], where they coincide
    and the policy, run when the block executes, reads the windows before
    the block's confirmation rotates them.  With rounds of one block the
    rotation never happens. *)

From Stdlib Require Import ZArith Lia.
From S2P Require Import Prelude Config.
Local Open Scope Z_scope.

Section Schedule.
Variable c : Config.
Hypothesis Hwf : cfg_wf c.

Local Notation R := (ConsensusSize c).
Local Notation ED := (ElectionDistance c).

(** Below the wrap-around, [IsElection] is divisibility of [n + ED]. *)
Lemma IsElection_iff (n : Z) :
  0 <= n -> n + ED < u64_max -> IsElection c n = true <-> (n + ED) mod R = 0.
Proof.
  intros Hn Hb. destruct Hwf as (HR & _ & HED). unfold IsElection, u64_max in *.
  rewrite wrap_small by lia. apply Z.eqb_eq.
Qed.

(** The ranking blocks are the [kR - ED] with [k >= 2]. *)
Lemma isRankingBlock_iff (n : Z) :
  1 <= n -> n + ED < u64_max ->
  isRankingBlock c n = true <-> exists k, 2 <= k /\ n = k * R - ED.
Proof.
  intros Hn Hb. destruct Hwf as (HR & _ & HED).
  unfold isRankingBlock. rewrite andb_true_iff, IsElection_iff, Z.ltb_lt by lia.
  split.
  - intros [Hm Hlt]. apply Z.mod_divide in Hm as [k Hk]; [|lia].
    exists k. split; [nia | lia].
  - intros (k & Hk & ->). split; [|nia].
    replace (k * R - ED + ED) with (k * R) by lia. apply Z.mod_mul. lia.
Qed.

(** With rounds of at least two blocks, the switch blocks are the
    [(k-1)R + 1] with [k >= 2]. *)
Lemma isSwitchBlock_iff (n : Z) :
  2 <= R -> 1 <= n ->
  isSwitchBlock c n = true <-> exists k, 2 <= k /\ n = (k - 1) * R + 1.
Proof.
  intros HR2 Hn. unfold isSwitchBlock. rewrite andb_true_iff, Z.eqb_eq, Z.ltb_lt.
  split.
  - intros [Hm Hlt]. pose proof (Z.div_mod n R ltac:(lia)) as Hd.
    exists (n / R + 1). split; [|lia].
    assert (n / R <> 0); [|pose proof (Z.div_pos n R ltac:(lia) ltac:(lia)); lia].
    intros E. rewrite E in Hd. lia.
  - intros (k & Hk & ->). split; [|nia].
    replace ((k - 1) * R + 1) with (1 + (k - 1) * R) by lia.
    rewrite Z.mod_add, Z.mod_small; lia.
Qed.

(** A block of round [k] is a ranking block exactly when [k >= 2] and it
    is the round's election block. *)
Lemma ranking_block_of_round (k n : Z) :
  1 <= k -> (k - 1) * R < n <= k * R -> n + ED < u64_max ->
  isRankingBlock c n = true <-> 2 <= k /\ n = k * R - ED.
Proof.
  intros Hk Hn Hb. pose proof Hwf as (HR & _ & HED).
  rewrite isRankingBlock_iff by nia. split.
  - intros (k' & Hk' & ->).
    assert (k - 1 < k') by (apply (Z.mul_lt_mono_pos_r R); lia).
    assert (k' < k + 1) by (apply (Z.mul_lt_mono_pos_r R); lia).
    assert (k' = k) as -> by lia. lia.
  - intros [Hk2 ->]. eauto.
Qed.

(** A block of round [k] is a switch block exactly when [k >= 2] and it
    is the round's first block. *)
Lemma switch_block_of_round (k n : Z) :
  2 <= R -> 1 <= k -> (k - 1) * R < n <= k * R ->
  isSwitchBlock c n = true <-> 2 <= k /\ n = (k - 1) * R + 1.
Proof.
  intros HR2 Hk Hn. rewrite isSwitchBlock_iff by nia. split.
  - intros (k' & Hk' & ->).
    assert (k - 1 <= k' - 1) by (apply (Z.mul_le_mono_pos_r _ _ R); lia).
    assert (k' - 1 < k) by (apply (Z.mul_lt_mono_pos_r R); lia).
    assert (k' = k) as -> by lia. lia.
  - intros [Hk2 ->]. eauto.
Qed.

(** ** Theorems *)

(** C22: the policy runs exactly once in every round after
    the first and never in the first: a block [n] of round [k] is a
    ranking block exactly when [k >= 2] and [n = kR - ElectionDistance]. *)
Theorem ranking_in_round (k n : Z) :
  1 <= k -> (k - 1) * R < n <= k * R -> n + ED < u64_max ->
  isRankingBlock c n = true <-> 2 <= k /\ n = k * R - ED.
Proof. apply ranking_block_of_round. Qed.

(** C27: the two hooks within a round.  A block [n] of
    round [k] rotates the windows exactly when [k >= 2] and [n] is the
    round's first block [(k-1)R + 1]; and in every round the policy's
    block [m] does not come before the rotation's block, the two
    coinciding exactly when [ElectionDistance = R - 1]. *)
Theorem round_hooks_order (k n m : Z) :
  2 <= R -> 1 <= k -> (k - 1) * R < n <= k * R -> (k - 1) * R < m <= k * R -> k * R + ED < u64_max ->
  (isSwitchBlock c n = true <-> 2 <= k /\ n = (k - 1) * R + 1) /\
  (isSwitchBlock c n = true -> isRankingBlock c m = true -> n <= m /\ (n = m <-> ED = R - 1)).
Proof.
  intros HR2 Hk Hn Hm Hb. pose proof Hwf as (HR & _ & HED).
  rewrite switch_block_of_round by done. split; [done|].
  intros [Hk2 ->] Hr. apply (ranking_block_of_round k m) in Hr as [_ ->]; lia.
Qed.

End Schedule.

(** With one-block rounds, [n mod 1 = 0] and the rotation never fires. *)
Lemma isSwitchBlock_unit_round (c : Config) (n : Z) :
  ConsensusSize c = 1 -> isSwitchBlock c n = false.
Proof. intros H. unfold isSwitchBlock. rewrite H, Z.mod_1_r. reflexivity. Qed.

(** ** Witnesses *)

Lemma ranking_in_round_witness :
  isRankingBlock mainnet 480 = true <-> 2 <= 2 /\ 480 = 2 * 250 - 20.
Proof. apply (ranking_in_round mainnet mainnet_wf 2 480); unfold u64_max; cbn; lia. Defined.

Lemma round_hooks_order_witness :
  (isSwitchBlock mainnet 251 = true <-> 2 <= 2 /\ 251 = (2 - 1) * 250 + 1) /\
  (isSwitchBlock mainnet 251 = true -> isRankingBlock mainnet 480 = true ->
   251 <= 480 /\ (251 = 480 <-> 20 = 250 - 1)).
Proof. apply (round_hooks_order mainnet mainnet_wf 2 251 480); unfold u64_max; cbn; lia. Defined.
