(* ===== verification/Codec.v ===== *)
(** * Codec: the persisted encodings of the slashing plugin.

    - [rlp_encode_u16] / [rlp_decode_u16]: [rlp.EncodeToBytes] and
      [rlp.DecodeBytes] at type [uint16] (package [rlp], outside the
      repository's sources: modelled from the RLP canonical-integer rules);
    - [Uint64ToBytes]: [life/utils.Uint64ToBytes], big-endian (spec, §6);
    - [curKey], [preKey], [getNodeId], [mutiSignKey]: the key layouts of
      [slashing_plugin.go] lines 290-313, and [BytesID] for
      [discover.BytesID].

    The theorems are the round trips (decode after encode, and encode after
    a successful decode, i.e. canonicity), the disjointness of the two
    count prefixes, and the injectivity of the double-sign key. *)

From Stdlib Require Import ZArith Lia String.
From S2P Require Import Prelude Config.
Local Open Scope Z_scope.

(** ** RLP encoding of a [uint16] *)

Module RLP.

(** [encodeUint]: 0 is the empty string [0x80]; values below 128 are their
    own byte; larger values are [0x80 + size] followed by the big-endian
    bytes without leading zeros. *)
Definition rlp_encode_u16 (v : Z) : bytes :=
  if v =? 0 then [byte_of 128]
  else if v <? 128 then [byte_of v]
  else if v <? 256 then [byte_of 129; byte_of v]
  else [byte_of 130; byte_of (v / 256); byte_of v].

(** [Stream.uint(16)] followed by the end-of-input check of [DecodeBytes]:
    a single byte [0x00] is not canonical, a one-byte string below 128 is
    not canonical, a two-byte string with a leading zero is not canonical,
    longer strings overflow [uint16], and trailing bytes are an error. *)
Definition rlp_decode_u16 (bs : bytes) : result Z :=
  match bs with
  | [b] =>
      if byte_val b =? 0 then Err ErrRLP
      else if byte_val b <? 128 then Ok (byte_val b)
      else if byte_val b =? 128 then Ok 0
      else Err ErrRLP
  | [b; x] =>
      if (byte_val b =? 129) && (128 <=? byte_val x) then Ok (byte_val x)
      else Err ErrRLP
  | [b; h; l] =>
      if (byte_val b =? 130) && negb (byte_val h =? 0)
      then Ok (byte_val h * 256 + byte_val l)
      else Err ErrRLP
  | _ => Err ErrRLP
  end.

Lemma byte_val_of_small (z : Z) : 0 <= z < 256 -> byte_val (byte_of z) = z.
Proof. intros. rewrite byte_val_of. by apply Z.mod_small. Qed.

Lemma rlp_decode_encode (v : Z) :
  0 <= v < u16_max -> rlp_decode_u16 (rlp_encode_u16 v) = Ok v.
Proof.
  unfold u16_max. intros Hv. unfold rlp_encode_u16.
  destruct (Z.eqb_spec v 0) as [->|H0]; [reflexivity|].
  destruct (Z.ltb_spec v 128).
  { simpl. rewrite byte_val_of_small by lia.
    destruct (Z.eqb_spec v 0); [lia|]. destruct (Z.ltb_spec v 128); [done|lia]. }
  destruct (Z.ltb_spec v 256); simpl.
  - rewrite !byte_val_of_small by lia. simpl.
    destruct (Z.leb_spec 128 v); [done|lia].
  - rewrite !byte_val_of_small by (split; [apply Z.div_pos|apply Z.div_lt_upper_bound]; lia).
    rewrite byte_val_of. simpl.
    destruct (Z.eqb_spec (v / 256) 0) as [E|E].
    + pose proof (Z.div_str_pos v 256). lia.
    + simpl. f_equal. pose proof (Z.div_mod v 256). lia.
Qed.

Lemma rlp_encode_decode (bs : bytes) (v : Z) :
  rlp_decode_u16 bs = Ok v -> 0 <= v < u16_max /\ rlp_encode_u16 v = bs.
Proof.
  unfold u16_max, rlp_encode_u16.
  destruct bs as [|b [|x [|y [|z bs]]]]; simpl; intros H; try discriminate;
    pose proof (byte_val_range b).
  - destruct (Z.eqb_spec (byte_val b) 0); [discriminate|].
    destruct (Z.ltb_spec (byte_val b) 128); [injection H as <-|].
    + destruct (Z.eqb_spec (byte_val b) 0); [lia|].
      destruct (Z.ltb_spec (byte_val b) 128); [|lia].
      rewrite byte_of_val. split; [lia|done].
    + destruct (Z.eqb_spec (byte_val b) 128) as [E|]; [injection H as <-|discriminate].
      split; [lia|]. simpl. by rewrite <- E, byte_of_val.
  - pose proof (byte_val_range x).
    destruct (Z.eqb_spec (byte_val b) 129) as [E|]; [|discriminate].
    destruct (Z.leb_spec 128 (byte_val x)); [|discriminate]. simpl in H.
    injection H as <-. split; [lia|].
    destruct (Z.eqb_spec (byte_val x) 0); [lia|].
    destruct (Z.ltb_spec (byte_val x) 128); [lia|].
    destruct (Z.ltb_spec (byte_val x) 256); [|lia].
    by rewrite <- E, !byte_of_val.
  - pose proof (byte_val_range x). pose proof (byte_val_range y).
    destruct (Z.eqb_spec (byte_val b) 130) as [E|]; [|discriminate].
    destruct (Z.eqb_spec (byte_val x) 0); [discriminate|]. simpl in H.
    injection H as <-. split; [lia|].
    destruct (Z.eqb_spec (byte_val x * 256 + byte_val y) 0); [lia|].
    destruct (Z.ltb_spec (byte_val x * 256 + byte_val y) 128); [lia|].
    destruct (Z.ltb_spec (byte_val x * 256 + byte_val y) 256); [lia|].
    rewrite <- E, byte_of_val. f_equal. f_equal.
    + rewrite Z.div_add_l, Z.div_small, Z.add_0_r by lia. apply byte_of_val.
    + f_equal. rewrite <- (byte_of_val y) at 2. unfold byte_of.
      rewrite Z.add_comm, Z.mod_add, Z.mod_small by (lia || apply byte_val_range).
      reflexivity.
Qed.

(** A successful decode is canonical: the value is
    a [uint16] and encoding it gives back the decoded bytes. *)
Theorem rlp_uint16_canonical (bs : bytes) (v : Z) :
  rlp_decode_u16 bs = Ok v -> 0 <= v < u16_max /\ rlp_encode_u16 v = bs.
Proof. apply rlp_encode_decode. Qed.

Lemma rlp_uint16_canonical_witness :
  0 <= 129 < u16_max /\ rlp_encode_u16 129 = [byte_of 129; byte_of 129].
Proof. apply rlp_uint16_canonical. vm_compute. reflexivity. Defined.

End RLP.

(** ** Big-endian [uint64] ([utils.Uint64ToBytes]) *)

Module BigEndian.

Fixpoint be_split (k : nat) (n : Z) : bytes :=
  match k with
  | O => []
  | S k' => be_split k' (n / 256) ++ [byte_of n]
  end.

Definition be_combine (bs : bytes) : Z :=
  fold_left (fun acc b => acc * 256 + byte_val b) bs 0.

(** [binary.BigEndian.PutUint64] into a fresh 8-byte slice. *)
Definition Uint64ToBytes (n : Z) : bytes := be_split 8 n.

Lemma length_be_split k n : length (be_split k n) = k.
Proof.
  revert n; induction k; intros; simpl; [done|].
  rewrite length_app, IHk. simpl. lia.
Qed.

Lemma be_combine_snoc (bs : bytes) (b : byte) :
  be_combine (bs ++ [b]) = be_combine bs * 256 + byte_val b.
Proof. unfold be_combine. by rewrite fold_left_app. Qed.

Lemma be_combine_split k n :
  be_combine (be_split k n) = n mod 2 ^ (8 * Z.of_nat k).
Proof.
  revert n; induction k as [|k IH]; intros n; simpl.
  - rewrite Z.mod_1_r. reflexivity.
  - rewrite be_combine_snoc, IH, byte_val_of.
    replace (8 * Z.of_nat (S k)) with (8 * Z.of_nat k + 8) by lia.
    rewrite Z.pow_add_r by lia. change (2 ^ 8) with 256.
    rewrite (Z.mul_comm (2 ^ _) 256).
    rewrite Z.rem_mul_r by (try apply Z.pow_pos_nonneg; lia). ring.
Qed.


Lemma Uint64ToBytes_inj n m :
  0 <= n < u64_max -> 0 <= m < u64_max ->
  Uint64ToBytes n = Uint64ToBytes m -> n = m.
Proof.
  unfold Uint64ToBytes, u64_max. intros Hn Hm E.
  apply (f_equal be_combine) in E. rewrite !be_combine_split, !Z.mod_small in E; simpl; lia.
Qed.

(** The 8 big-endian bytes of a [uint64] decode
    back to it. *)
Theorem Uint64ToBytes_roundtrip (n : Z) :
  0 <= n < u64_max -> be_combine (Uint64ToBytes n) = n.
Proof.
  unfold Uint64ToBytes, u64_max. intros. rewrite be_combine_split.
  apply Z.mod_small. simpl. lia.
Qed.

Lemma Uint64ToBytes_roundtrip_witness : be_combine (Uint64ToBytes 1234567) = 1234567.
Proof. apply Uint64ToBytes_roundtrip. unfold u64_max. lia. Defined.

End BigEndian.

(** ** Keys *)

Module Keys.
Import BigEndian.

(** [discover.NodeID] is a 64-byte array; [common.Address] 20 bytes. *)
Definition nodeIdLen : nat := 64.
Definition addressLen : nat := 20.

(** [discover.BytesID]: a NodeID from exactly 64 bytes. *)
Definition BytesID (b : bytes) : result bytes :=
  if decide (length b = nodeIdLen) then Ok b else Err ErrBytesID.

Definition curKey (key : bytes) : bytes := curAbnormalPrefix ++ key.
Definition preKey (key : bytes) : bytes := preAbnormalPrefix ++ key.

(** [getNodeId]: the NodeID after the prefix; slicing a key shorter than the
    prefix panics in Go. *)
Definition getNodeId (prefix key : bytes) : result bytes :=
  if decide (length key < length prefix)%nat then Err ErrPanic
  else BytesID (drop_prefix prefix key).

(** Go's [int32(x)] (two's complement wrap) and [uint64(e)] for an [int32]
    [e] (sign extension, i.e. wrap modulo [2^64]). *)
Definition int32_of (z : Z) : Z := (z + 2 ^ 31) mod 2 ^ 32 - 2 ^ 31.
Definition uint64_of_int32 (e : Z) : Z := wrap 64 e.

(** The double-sign result key [addr ++ Uint64ToBytes(blockNumber) ++ "_" ++
    Uint64ToBytes(uint64(etype))]. *)
Definition mutiSignKey (addr : bytes) (blockNumber etype : Z) : bytes :=
  addr ++ Uint64ToBytes blockNumber ++ bstr "_"%string ++ Uint64ToBytes (uint64_of_int32 etype).

Lemma curKey_not_pre (id : bytes) : has_prefix preAbnormalPrefix (curKey id) = false.
Proof.
  apply (has_prefix_disjoint curAbnormalPrefix); [done|discriminate|apply has_prefix_app].
Qed.

Lemma preKey_not_cur (id : bytes) : has_prefix curAbnormalPrefix (preKey id) = false.
Proof.
  apply (has_prefix_disjoint preAbnormalPrefix); [done|discriminate|apply has_prefix_app].
Qed.

Lemma curKey_inj (a b : bytes) : curKey a = curKey b -> a = b.
Proof. apply app_inv_head. Qed.

Lemma preKey_inj (a b : bytes) : preKey a = preKey b -> a = b.
Proof. apply app_inv_head. Qed.

Lemma getNodeId_app (prefix id : bytes) :
  getNodeId prefix (prefix ++ id) = BytesID id.
Proof.
  unfold getNodeId. rewrite length_app, drop_prefix_app.
  case_decide; [lia|done].
Qed.

Lemma getNodeId_len (prefix key id : bytes) : getNodeId prefix key = Ok id -> length id = nodeIdLen.
Proof.
  unfold getNodeId, BytesID. case_decide; [discriminate|].
  case_decide; [|discriminate]. by intros [= <-].
Qed.

(** C38: on a key under [prefix], [getNodeId] succeeds exactly
    when the key is [prefix ++ id] with a 64-byte [id], and returns [id]:
    the NodeID a count key was written with is recovered. *)
Theorem getNodeId_Ok (prefix key id : bytes) :
  has_prefix prefix key = true ->
  getNodeId prefix key = Ok id <-> key = prefix ++ id /\ length id = nodeIdLen.
Proof.
  intros Hp. apply has_prefix_spec in Hp as [s ->].
  rewrite getNodeId_app. unfold BytesID.
  case_decide; split; intros H'; try discriminate.
  - injection H' as <-. done.
  - destruct H' as [E%app_inv_head ?]. by subst.
  - destruct H' as [E%app_inv_head ?]. subst. done.
Qed.

Lemma getNodeId_Ok_witness :
  getNodeId preAbnormalPrefix (preKey (repeat Byte.x02 64)) = Ok (repeat Byte.x02 64).
Proof.
  apply getNodeId_Ok; [apply has_prefix_app|]. split; reflexivity.
Defined.

Lemma int32_of_small (z : Z) : - 2 ^ 31 <= z < 2 ^ 31 -> int32_of z = z.
Proof. intros. unfold int32_of. rewrite Z.mod_small; lia. Qed.

(** Sign extension of an [int32] to [uint64]. *)
Lemma uint64_of_int32_sext (a : Z) :
  - 2 ^ 31 <= a < 2 ^ 31 -> uint64_of_int32 a = if a <? 0 then a + 2 ^ 64 else a.
Proof.
  intros. unfold uint64_of_int32, wrap. destruct (Z.ltb_spec a 0).
  - rewrite <- (Z.mod_add _ 1) by lia. apply Z.mod_small. lia.
  - apply Z.mod_small. lia.
Qed.

Lemma uint64_of_int32_inj (a b : Z) :
  - 2 ^ 31 <= a < 2 ^ 31 -> - 2 ^ 31 <= b < 2 ^ 31 ->
  uint64_of_int32 a = uint64_of_int32 b -> a = b.
Proof.
  intros Ha Hb. rewrite !uint64_of_int32_sext by done.
  destruct (Z.ltb_spec a 0), (Z.ltb_spec b 0); lia.
Qed.

Lemma uint64_of_int32_range (e : Z) : 0 <= uint64_of_int32 e < u64_max.
Proof. apply wrap_range. lia. Qed.

(** C39: distinct (address, block number, evidence type)
    triples have distinct double-sign keys, for 20-byte addresses, [uint64]
    block numbers and [int32] types (negative types included). *)
Theorem mutiSignKey_inj (a1 a2 : bytes) (n1 n2 e1 e2 : Z) :
  length a1 = addressLen -> length a2 = addressLen ->
  0 <= n1 < u64_max -> 0 <= n2 < u64_max ->
  - 2 ^ 31 <= e1 < 2 ^ 31 -> - 2 ^ 31 <= e2 < 2 ^ 31 ->
  mutiSignKey a1 n1 e1 = mutiSignKey a2 n2 e2 -> a1 = a2 /\ n1 = n2 /\ e1 = e2.
Proof.
  unfold mutiSignKey. intros La1 La2 Hn1 Hn2 He1 He2 E.
  apply app_inj_1 in E as [-> E]; [|congruence].
  apply app_inj_1 in E as [En E]; [|unfold Uint64ToBytes; by rewrite !length_be_split].
  apply app_inv_head in E.
  split; [done|split].
  - by apply Uint64ToBytes_inj.
  - apply uint64_of_int32_inj; [done|done|].
    apply Uint64ToBytes_inj; [apply uint64_of_int32_range..|done].
Qed.

Lemma mutiSignKey_inj_witness :
  mutiSignKey (repeat Byte.x01 20) 7 (-1) <> mutiSignKey (repeat Byte.x01 20) 7 1.
Proof.
  intros E.
  destruct (mutiSignKey_inj (repeat Byte.x01 20) (repeat Byte.x01 20) 7 7 (-1) 1)
    as (_ & _ & He); [reflexivity | reflexivity | unfold u64_max; lia .. | exact E | lia].
Defined.

End Keys.
