(* ===== verification/Store.v ===== *)
(** * Store: the snapshot database ([core/snapshotdb]) as the plugin uses it.

    The store is outside the repository's sources and is modelled from the
    specification (§5, §6).  It has two layers:
    - [baseDB], the committed base layer, written by [PutBaseDB] and
      [DelBaseDB] and scanned by [WalkBaseDB] (the round counters live here);
    - [branchDB], the writes of the unconfirmed blocks, per block hash (the
      flattened overlay of a branch tip over the base), read by [Get].
    [faulty] is the set of keys whose base writes fail with an I/O error:
    it models store failures, which the code propagates.

    [WalkBaseDB] iterates over a snapshot of the base layer taken when the
    walk starts (leveldb iterators read a snapshot), in ascending key order,
    restricted to the keys with the given prefix ([util.BytesPrefix]).
    The section "Walk order" generalises the walk to any enumeration of
    the same entries ([WalkBaseDB_in], [enum_ok]), so that the clients
    can show their results do not depend on the order.  The section "Key
    order" shows the walk sorted and that the part of it after a key
    depends only on the base layer at those keys ([walk_entries_frame]);
    [key_kept k] is the relation between stores that agree at [k], and
    [DelBaseDB] and [PutBaseDB] keep every other key. *)

From S2P Require Import Prelude.
From Stdlib Require Import ZArith Lia.

Record SnapDB := mkSnapDB {
  baseDB : gmap bytes bytes;
  branchDB : gmap bytes (gmap bytes (option bytes));
  faulty : gset bytes
}.

(** [snapshotdb.Get(hash, key)]: the branch's own write if it has one (a
    deletion reads as not found), the base layer otherwise. *)
Definition Get (blockHash key : bytes) (db : SnapDB) : result bytes :=
  match branchDB db !! blockHash ≫= (.!! key) with
  | Some (Some v) => Ok v
  | Some None => Err ErrNotFound
  | None =>
      match baseDB db !! key with
      | Some v => Ok v
      | None => Err ErrNotFound
      end
  end.

Definition set_base (m : gmap bytes bytes) (db : SnapDB) : SnapDB :=
  mkSnapDB m (branchDB db) (faulty db).

(** A write is immediate and visible to every branch; a failed write
    changes nothing. *)
Definition PutBaseDB (key value : bytes) : SE SnapDB unit := fun db =>
  if decide (key ∈ faulty db) then (Err ErrStore, db)
  else (Ok tt, set_base (<[key := value]> (baseDB db)) db).

Definition DelBaseDB (key : bytes) : SE SnapDB unit := fun db =>
  if decide (key ∈ faulty db) then (Err ErrStore, db)
  else (Ok tt, set_base (delete key (baseDB db)) db).

(** The entries the iterator of [WalkBaseDB(util.BytesPrefix(prefix), f)]
    yields. *)
Definition walk_entries (prefix : bytes) (db : SnapDB) : list (bytes * bytes) :=
  merge_sort key_le
    (filter (fun kv => has_prefix prefix kv.1 = true) (map_to_list (baseDB db))).

(** [WalkBaseDB]: the callback receives the snapshot's entries and the
    store, which it may update while it iterates. *)
Definition WalkBaseDB {A} (prefix : bytes)
    (f : list (bytes * bytes) -> SE SnapDB A) : SE SnapDB A := fun db =>
  f (walk_entries prefix db) db.

(** ** Lemmas *)

(** A branch that has not written [key] reads the base layer. *)
Lemma Get_base (h key : bytes) (db : SnapDB) :
  branchDB db !! h ≫= (.!! key) = None ->
  Get h key db = match baseDB db !! key with Some v => Ok v | None => Err ErrNotFound end.
Proof. unfold Get. by intros ->. Qed.

Lemma PutBaseDB_ok (key value : bytes) (db : SnapDB) :
  key ∉ faulty db -> PutBaseDB key value db = (Ok tt, set_base (<[key := value]> (baseDB db)) db).
Proof. unfold PutBaseDB. intros. by case_decide. Qed.

Lemma DelBaseDB_ok (key : bytes) (db : SnapDB) :
  key ∉ faulty db -> DelBaseDB key db = (Ok tt, set_base (delete key (baseDB db)) db).
Proof. unfold DelBaseDB. intros. by case_decide. Qed.

Lemma PutBaseDB_fail (key value : bytes) (db : SnapDB) :
  key ∈ faulty db -> PutBaseDB key value db = (Err ErrStore, db).
Proof. unfold PutBaseDB. intros. by case_decide. Qed.

Lemma PutBaseDB_Ok (key value : bytes) (db db' : SnapDB) (u : unit) :
  PutBaseDB key value db = (Ok u, db') ->
  (key ∉ faulty db) /\ db' = set_base (<[key := value]> (baseDB db)) db.
Proof. unfold PutBaseDB. case_decide; intros H'; [discriminate|]. by injection H' as _ <-. Qed.

Lemma set_base_base m db : baseDB (set_base m db) = m.
Proof. reflexivity. Qed.
Lemma set_base_branch m db : branchDB (set_base m db) = branchDB db.
Proof. reflexivity. Qed.
Lemma set_base_faulty m db : faulty (set_base m db) = faulty db.
Proof. reflexivity. Qed.
Lemma set_base_set_base m m' db : set_base m (set_base m' db) = set_base m db.
Proof. reflexivity. Qed.

#[export] Hint Rewrite set_base_base set_base_branch set_base_faulty set_base_set_base
  : slashing_rw.

(** The walk yields exactly the base entries under the prefix. *)
Lemma walk_entries_spec (prefix : bytes) (db : SnapDB) (k v : bytes) :
  (k, v) ∈ walk_entries prefix db <->
  has_prefix prefix k = true /\ baseDB db !! k = Some v.
Proof.
  unfold walk_entries. rewrite (merge_sort_Permutation _ _).
  rewrite list_elem_of_filter, elem_of_map_to_list. simpl. tauto.
Qed.

(** Its keys are distinct. *)
Lemma walk_entries_NoDup (prefix : bytes) (db : SnapDB) :
  NoDup (walk_entries prefix db).*1.
Proof.
  unfold walk_entries. rewrite (merge_sort_Permutation _ _).
  apply NoDup_fmap_fst.
  - intros k v1 v2 [_ H1]%list_elem_of_filter [_ H2]%list_elem_of_filter.
    apply elem_of_map_to_list in H1, H2. congruence.
  - apply NoDup_filter, NoDup_map_to_list.
Qed.

Lemma walk_entries_keys (prefix : bytes) (db : SnapDB) (k : bytes) :
  k ∈ (walk_entries prefix db).*1 <->
  has_prefix prefix k = true /\ is_Some (baseDB db !! k).
Proof.
  rewrite list_elem_of_fmap. split.
  - intros ([k' v] & -> & Hin). apply walk_entries_spec in Hin as [? ?]. eauto.
  - intros [Hp [v Hv]]. exists (k, v). split; [done|]. by apply walk_entries_spec.
Qed.

Lemma WalkBaseDB_preserves {A} (P : SnapDB -> Prop) (prefix : bytes)
    (f : list (bytes * bytes) -> SE SnapDB A) :
  (forall d, P d -> se_preserves P (f (walk_entries prefix d))) ->
  se_preserves P (WalkBaseDB prefix f).
Proof. intros Hf d r d' Hd. unfold WalkBaseDB. by apply Hf. Qed.

(** Two stores with the same layers and failing keys are equal. *)
Lemma SnapDB_ext (d1 d2 : SnapDB) :
  faulty d1 = faulty d2 -> branchDB d1 = branchDB d2 ->
  (forall k, baseDB d1 !! k = baseDB d2 !! k) -> d1 = d2.
Proof. destruct d1, d2; cbn. intros -> -> Hk. f_equal. by apply map_eq. Qed.

(** ** Walk order *)

(** The code must not depend on the order of a walk (specification,
    §4.1).  [walk_of prefix db l]: [l] enumerates the entries a walk
    yields, in some order.  [WalkBaseDB_in enum] is [WalkBaseDB] over a
    store whose iterator enumerates by [enum]; [enum_ok enum] says every
    such enumeration is one of the walk's entries. *)
Definition walk_of (prefix : bytes) (db : SnapDB) (l : list (bytes * bytes)) : Prop :=
  l ≡ₚ walk_entries prefix db.

Definition WalkBaseDB_in (enum : bytes -> SnapDB -> list (bytes * bytes)) {A} (prefix : bytes)
    (f : list (bytes * bytes) -> SE SnapDB A) : SE SnapDB A := fun db =>
  f (enum prefix db) db.

Definition enum_ok (enum : bytes -> SnapDB -> list (bytes * bytes)) : Prop :=
  forall prefix db, walk_of prefix db (enum prefix db).

Lemma walk_entries_enum_ok : enum_ok walk_entries.
Proof. intros p db. unfold walk_of. reflexivity. Qed.

Section WalkOf.
Context (prefix : bytes) (db : SnapDB) (l : list (bytes * bytes)) (Hl : walk_of prefix db l).

Lemma walk_of_spec (k v : bytes) :
  (k, v) ∈ l <-> has_prefix prefix k = true /\ baseDB db !! k = Some v.
Proof. rewrite Hl. apply walk_entries_spec. Qed.

Lemma walk_of_NoDup : NoDup l.*1.
Proof. rewrite Hl. apply walk_entries_NoDup. Qed.

Lemma walk_of_keys (k : bytes) :
  k ∈ l.*1 <-> has_prefix prefix k = true /\ is_Some (baseDB db !! k).
Proof. rewrite Hl. apply walk_entries_keys. Qed.

End WalkOf.

(** ** Key order *)

(** The walk yields the entries in ascending key order. *)
Lemma walk_entries_sorted (prefix : bytes) (db : SnapDB) :
  StronglySorted key_le (walk_entries prefix db).
Proof. apply StronglySorted_merge_sort; apply _. Qed.

(** The part of a walk whose keys satisfy [P] depends only on the base
    layer at those keys: an update that leaves them alone leaves that
    part of the walk as it was. *)
Lemma walk_entries_frame (P : bytes -> bool) (prefix : bytes) (d d' : SnapDB) :
  (forall k, P k = true -> has_prefix prefix k = true -> baseDB d' !! k = baseDB d !! k) ->
  filter (fun e => P e.1 = true) (walk_entries prefix d') =
  filter (fun e => P e.1 = true) (walk_entries prefix d).
Proof.
  intros Hk. apply (StronglySorted_unique_strong key_le).
  - intros [k1 v1] [k2 v2] H1 H2 Hle1 Hle2.
    pose proof (bytes_leb_antisym _ _ Hle1 Hle2) as Hk12; cbn in Hk12; subst k2.
    apply list_elem_of_filter in H1 as [HP H1], H2 as [_ H2].
    apply walk_entries_spec in H1 as [Hp H1], H2 as [_ H2]. cbn in *.
    rewrite Hk in H1 by done. congruence.
  - apply StronglySorted_filter, walk_entries_sorted.
  - apply StronglySorted_filter, walk_entries_sorted.
  - apply NoDup_Permutation; try (apply NoDup_filter, (NoDup_fmap_1 fst), walk_entries_NoDup).
    intros [k v]. rewrite !list_elem_of_filter, !walk_entries_spec. cbn.
    split; intros (HP & Hp & Hv); (split; [done|split; [done|]]).
    + by rewrite <-Hk.
    + by rewrite Hk.
Qed.

(** [key_kept k d d']: the base layer holds at [k] in [d'] what it held in
    [d]. *)
Definition key_kept (k : bytes) (d d' : SnapDB) : Prop := baseDB d' !! k = baseDB d !! k.

#[export] Instance key_kept_preorder (k : bytes) : PreOrder (key_kept k).
Proof. split; [intros d; done|intros d1 d2 d3 H12 H23; unfold key_kept in *; congruence]. Qed.

Lemma DelBaseDB_kept (key k : bytes) : k <> key -> se_guarantee (fun _ => True) (key_kept k) (DelBaseDB key).
Proof.
  intros Hne d r d' _. unfold DelBaseDB. case_decide; intros [= _ <-]; split; try done.
  unfold key_kept. cbn. by rewrite lookup_delete_ne.
Qed.

Lemma PutBaseDB_kept (key v k : bytes) : k <> key -> se_guarantee (fun _ => True) (key_kept k) (PutBaseDB key v).
Proof.
  intros Hne d r d' _. unfold PutBaseDB. case_decide; intros [= _ <-]; split; try done.
  unfold key_kept. cbn. by rewrite lookup_insert_ne.
Qed.

(** A walk depends only on the base layer under its prefix. *)
Lemma walk_entries_kept (prefix : bytes) (d d' : SnapDB) :
  (forall k, has_prefix prefix k = true -> baseDB d' !! k = baseDB d !! k) ->
  walk_entries prefix d' = walk_entries prefix d.
Proof.
  intros Hk. pose proof (walk_entries_frame (fun _ => true) prefix d d') as Hf.
  rewrite !list_filter_all in Hf; auto.
Qed.
