(* ===== verification/Iterator.v ===== *)
(** * Iterator: goleveldb's [iterator.Iterator] as [WalkBaseDB] hands it
      to its callback, and the loop [for iter.Next() { ... }] of
      [switchEpoch] (lines 184-189, 197-208) and [GetPreNodeAmount]
      (lines 221-235).

    The iterator is outside the repository's sources and is modelled from
    its interface ([DBIterator]): [Next()] moves to the next entry and
    reports whether there is one; [Key()] and [Value()] read the entry the
    iterator is on ([nil] when it is on none).  Two instances:
    - [SnapIter], the iterator of a snapshot taken when the walk starts:
      its entries are [walk_entries], whatever the callback writes;
    - [LiveIter], an iterator over the live base layer: [Next()] moves to
      the least key under the prefix after the current one in the store as
      it is at that call, so it sees the callback's own writes.
    The specification (§2, walk-base) says the visitor receives "each
    matching key/value in the base layer" and does not say which.

    [iter_loop fuel body it a d] runs the loop with the local variable [a]
    and at most [fuel] calls of [Next()]; [None] is running out of fuel,
    an outcome the Go loop does not have.  The lemmas: over a snapshot the
    loop calls [Next()] once per entry and once more, and computes the fold
    of its body ([iter_loop_snap]); over the live store it proceeds in
    lockstep with the snapshot when the body leaves the entries after the
    current key alone ([iter_loop_live]). *)

From S2P Require Import Prelude Store.

(** ** The iterator interface and its two instances *)

Class DBIterator (It : Type) := {
  it_next : It -> SnapDB -> bool * It;
  it_entry : It -> option (bytes * bytes)
}.

Definition Key {It} `{DBIterator It} (it : It) : bytes := from_option fst [] (it_entry it).
Definition Value {It} `{DBIterator It} (it : It) : bytes := from_option snd [] (it_entry it).

(** The iterator of a snapshot: the entries still to visit, and the
    current one. *)
Record SnapIter := mkSnapIter { snap_rest : list (bytes * bytes); snap_cur : option (bytes * bytes) }.

Definition snap_next (it : SnapIter) (_ : SnapDB) : bool * SnapIter :=
  match snap_rest it with
  | [] => (false, mkSnapIter [] None)
  | e :: r => (true, mkSnapIter r (Some e))
  end.

#[export] Instance snap_iter : DBIterator SnapIter := {| it_next := snap_next; it_entry := snap_cur |}.

Definition snap_open (prefix : bytes) (d : SnapDB) : SnapIter := mkSnapIter (walk_entries prefix d) None.

(** [after cur k]: the key [k] comes after the current entry (every key
    does when the iterator is on none). *)
Definition after (cur : option (bytes * bytes)) (k : bytes) : bool :=
  match cur with
  | None => true
  | Some e => negb (bytes_leb k e.1)
  end.

(** The iterator of the live base layer: its prefix and current entry. *)
Record LiveIter := mkLiveIter { live_prefix : bytes; live_cur : option (bytes * bytes) }.

Definition live_next (it : LiveIter) (d : SnapDB) : bool * LiveIter :=
  match filter (fun e => after (live_cur it) e.1 = true) (walk_entries (live_prefix it) d) with
  | [] => (false, mkLiveIter (live_prefix it) None)
  | e :: _ => (true, mkLiveIter (live_prefix it) (Some e))
  end.

#[export] Instance live_iter : DBIterator LiveIter := {| it_next := live_next; it_entry := live_cur |}.

Definition live_open (prefix : bytes) (_ : SnapDB) : LiveIter := mkLiveIter prefix None.

(** ** Computations with fuel *)

Definition SEo (S A : Type) : Type := S -> option (result A * S).

Definition seo_ret {S A} (a : A) : SEo S A := fun s => Some (Ok a, s).

Definition seo_bind {S A B} (m : SEo S A) (k : A -> SEo S B) : SEo S B := fun s =>
  match m s with
  | Some (Ok a, s') => k a s'
  | Some (Err e, s') => Some (Err e, s')
  | None => None
  end.

Notation "x <-o m ;; k" := (seo_bind m (fun x => k))
  (at level 100, m at next level, k at level 200, right associativity) : slash_scope.

(** [for iter.Next() { body }]: the body reads [iter.Key()] and
    [iter.Value()], updates the local variable [a] and the store, and a
    [return err] inside it ends the loop and the walk. *)
Fixpoint iter_loop {It} `{DBIterator It} {A} (fuel : nat) (body : bytes * bytes -> A -> SE SnapDB A)
    (it : It) (a : A) : SEo SnapDB A := fun d =>
  match fuel with
  | O => None
  | S n =>
      let '(b, it') := it_next it d in
      if b then
        match body (Key it', Value it') a d with
        | (Ok a', d') => iter_loop n body it' a' d'
        | (Err e, d') => Some (Err e, d')
        end
      else Some (Ok a, d)
  end.

(** [sp.db.WalkBaseDB(util.BytesPrefix(prefix), f)] with the iterator
    [open prefix d] opened on the store. *)
Definition WalkBaseDB_it {It} `{DBIterator It} {A} (open : bytes -> SnapDB -> It) (prefix : bytes)
    (f : It -> SEo SnapDB A) : SEo SnapDB A := fun d =>
  f (open prefix d) d.

(** The body leaves the base entries under [prefix] after the current
    one as they were, on every outcome. *)
Definition body_frame {A} (prefix : bytes) (body : bytes * bytes -> A -> SE SnapDB A) : Prop :=
  forall e a k, has_prefix prefix k = true -> after (Some e) k = true ->
    se_guarantee (fun _ => True) (key_kept k) (body e a).

(** ** Lemmas *)

Lemma after_ne (e : bytes * bytes) (k : bytes) : after (Some e) k = true -> k <> e.1.
Proof. cbn. intros H ->. by rewrite bytes_leb_refl in H. Qed.

(** In a sorted walk, the entries after an entry are after every entry
    before it. *)
Lemma after_sorted (c : option (bytes * bytes)) (x y : bytes * bytes) :
  after c x.1 = true -> key_le x y -> after c y.1 = true.
Proof.
  destruct c as [e|]; cbn; [|done]. unfold key_le.
  destruct (bytes_leb x.1 e.1) eqn:Hx; [done|]. intros _ Hxy.
  destruct (bytes_leb y.1 e.1) eqn:Hy; [|done].
  by rewrite (bytes_leb_trans _ _ _ Hxy Hy) in Hx.
Qed.

Lemma after_strict (x y : bytes * bytes) : key_le x y -> x.1 <> y.1 -> after (Some x) y.1 = true.
Proof.
  unfold key_le. cbn. intros Hxy Hne.
  destruct (bytes_leb y.1 x.1) eqn:Hy; [|done]. by destruct Hne; apply bytes_leb_antisym.
Qed.

(** What [Next()] leaves of a sorted walk: the entries after the one it
    moves to. *)
Lemma filter_after_next (l : list (bytes * bytes)) (c : option (bytes * bytes)) e r :
  StronglySorted key_le l -> NoDup l.*1 ->
  filter (fun x => after c x.1 = true) l = e :: r ->
  filter (fun x => after (Some e) x.1 = true) l = r.
Proof.
  induction l as [|x l IH]; intros Hs Hnd Hf; [discriminate|].
  apply StronglySorted_inv in Hs as [Hs Hx]. rewrite Forall_forall in Hx.
  cbn in Hnd. apply NoDup_cons in Hnd as [Hxl Hnd].
  rewrite filter_cons in Hf |- *. case_decide as Hc.
  - injection Hf as <- Hr.
    rewrite decide_False by (cbn; by rewrite bytes_leb_refl).
    rewrite list_filter_all in Hr |- *; [done| |].
    + intros y Hy. by apply (after_sorted c x y), Hx.
    + intros y Hy. apply after_strict; [by apply Hx|].
      intros E. apply Hxl. rewrite E. by apply list_elem_of_fmap_2.
  - assert (He : e ∈ l) by (apply (list_elem_of_filter (fun x => after c x.1 = true)); rewrite Hf; left).
    rewrite decide_False; [by apply IH|].
    cbn. by rewrite (Hx e He).
Qed.

Section Loop.
Context {A : Type} (body : bytes * bytes -> A -> SE SnapDB A).

(** Over a snapshot of [r], the loop ends after [length r + 1] calls of
    [Next()] and computes the fold of its body. *)
Lemma iter_loop_snap (fuel : nat) (r : list (bytes * bytes)) c (a : A) (d : SnapDB) :
  length r < fuel -> iter_loop fuel body (mkSnapIter r c) a d = Some (fold_se_acc body r a d).
Proof.
  revert fuel c a d; induction r as [|[k v] r IH]; intros [|fuel] c a d Hf; cbn in *; try lia; [done|].
  unfold se_bind. destruct (body (k, v) a d) as [[a'|err] d']; [apply IH; lia|done].
Qed.

Lemma WalkBaseDB_snap (fuel : nat) (prefix : bytes) (a : A) (d : SnapDB) :
  length (walk_entries prefix d) < fuel ->
  WalkBaseDB_it snap_open prefix (fun it => iter_loop fuel body it a) d =
  Some (fold_se_acc body (walk_entries prefix d) a d).
Proof. apply iter_loop_snap. Qed.

(** Over the live store, the loop visits what the snapshot still holds
    after the current key, so it runs in lockstep with the snapshot. *)
Lemma iter_loop_live (fuel : nat) (prefix : bytes) c c' (r : list (bytes * bytes)) (a : A) (d : SnapDB) :
  body_frame prefix body ->
  filter (fun x => after c x.1 = true) (walk_entries prefix d) = r ->
  iter_loop fuel body (mkLiveIter prefix c) a d = iter_loop fuel body (mkSnapIter r c') a d.
Proof.
  intros Hb. revert c c' r a d. induction fuel as [|fuel IH]; intros c c' r a d Hr; [done|].
  cbn. unfold live_next. cbn. rewrite Hr. destruct r as [|[k v] r]; [done|]. cbn.
  destruct (body (k, v) a d) as [[a'|err] d'] eqn:Hbd; [|done].
  apply IH. transitivity (filter (fun x => after (Some (k, v)) x.1 = true) (walk_entries prefix d)).
  - apply (walk_entries_frame (after (Some (k, v)))).
    intros k' Hk' Hp. by apply (Hb (k, v) a k' Hp Hk' d (Ok a') d' I).
  - apply (filter_after_next _ c); [apply walk_entries_sorted|apply walk_entries_NoDup|done].
Qed.

Lemma WalkBaseDB_live (fuel : nat) (prefix : bytes) (a : A) :
  body_frame prefix body ->
  forall d, WalkBaseDB_it live_open prefix (fun it => iter_loop fuel body it a) d =
  WalkBaseDB_it snap_open prefix (fun it => iter_loop fuel body it a) d.
Proof. intros Hb d. apply iter_loop_live; [done|]. by apply list_filter_all. Qed.

End Loop.

(** A body that does not write keeps every entry. *)
Lemma body_frame_lift {A} (prefix : bytes) (f : bytes * bytes -> A -> result A) :
  body_frame prefix (fun e a => se_lift (f e a)).
Proof. intros e a k _ _. apply (se_guarantee_lift _ (key_kept k)). Qed.
