(* ===== verification/Chain.v ===== *)
(** * Chain: the plugin's state and the interfaces of its collaborators.

    - [SlashingPlugin] is the Go struct (lines 48-51): the snapshot store
      and the injected evidence decoder; [SetDecodeEvidenceFun] and
      [BeginBlock] are its trivial methods (lines 64-70).
    - [Header] and [Block] carry what the plugin reads of [types.Header]
      and [types.Block].
    - [SigRecover] is [crypto.SigToPub] followed by [discover.PubkeyID]:
      an external function whose only law is that a NodeID has 64 bytes.
    - [StakingLedger] is the part of the staking plugin ([stk]) the
      slashing plugin calls, over an abstract ledger state [L].
    - [Evidence] is a decoded [consensus.Evidence]: its accessors and the
      outcome of its [Validate] method. *)

From Stdlib Require Import ZArith Lia String.
From S2P Require Import Prelude Store Codec.

(** ** Blocks *)

Record Header := mkHeader {
  Number : Z;          (** [header.Number.Uint64()] *)
  Extra : bytes;       (** [header.Extra]: vanity, then the 65-byte signature *)
  SealHash : bytes     (** [header.SealHash()] *)
}.

Record Block := mkBlock {
  bHeader : Header;
  bHash : bytes        (** [block.Hash()] *)
}.

Definition NumberU64 (b : Block) : Z := Number (bHeader b).

(** ** Signature recovery *)

Class SigRecover := {
  SigToPubID : bytes -> bytes -> result bytes;
  SigToPubID_len : forall h s id, SigToPubID h s = Ok id -> length id = Keys.nodeIdLen
}.

(** ** The staking ledger *)

(** [staking.Candidate]: the NodeID, the staking address, and the four
    components of the stake ([*big.Int], non-negative). *)
Record Candidate := mkCandidate {
  NodeId : bytes;
  StakingAddress : bytes;
  Released : Z;
  ReleasedHes : Z;
  RestrictingPlan : Z;
  RestrictingPlanHes : Z
}.

(** The reason tags of [stk.SlashCandidates]. *)
Inductive SlashType := LowRatio | DoubleSign.

#[export] Instance SlashType_eq_dec : EqDecision SlashType.
Proof. solve_decision. Defined.

Class StakingLedger (L : Type) := {
  (** [stk.GetCandidateONRound(blockHash, blockNumber, CurrentRound, QueryStartIrr)]:
      the validators of the current round. *)
  GetCandidateONRound : bytes -> Z -> L -> result (list Candidate);
  (** [stk.GetCandidateInfo(blockHash, addr)]. *)
  GetCandidateInfo : bytes -> bytes -> L -> result Candidate;
  (** [stk.SlashCandidates(state, blockHash, blockNumber, nodeId, amount,
      needDelete, slashType)]. *)
  SlashCandidates : bytes -> Z -> bytes -> Z -> bool -> SlashType -> SE L unit
}.

(** ** Evidence *)

Record Evidence := mkEvidence {
  ev_Address : bytes;
  ev_BlockNumber : Z;
  ev_Type : Z;
  ev_Hash : bytes;
  ev_Validate : result unit
}.

(** ** The plugin *)

Record SlashingPlugin := mkSlashingPlugin {
  db : SnapDB;
  (** [nil] until [SetDecodeEvidenceFun] is called *)
  decodeEvidence : option (string -> result (list Evidence))
}.

Definition SetDecodeEvidenceFun (sp : SlashingPlugin)
    (f : string -> result (list Evidence)) : SlashingPlugin :=
  mkSlashingPlugin (db sp) (Some f).

Definition set_db (d : SnapDB) (sp : SlashingPlugin) : SlashingPlugin :=
  mkSlashingPlugin d (decodeEvidence sp).

(** [BeginBlock] does nothing and succeeds. *)
Definition BeginBlock (sp : SlashingPlugin) (blockHash : bytes) (header : Header) : result bool :=
  Ok true.

Lemma db_set_db (d : SnapDB) (sp : SlashingPlugin) : db (set_db d sp) = d.
Proof. reflexivity. Qed.

Lemma decodeEvidence_set_db (d : SnapDB) (sp : SlashingPlugin) :
  decodeEvidence (set_db d sp) = decodeEvidence sp.
Proof. reflexivity. Qed.

#[export] Hint Rewrite db_set_db decodeEvidence_set_db : slashing_rw.

(** ** Test doubles *)

(** A signature recovery whose signer is the first 64 bytes of a 65-byte
    signature. *)
Definition test_SigToPubID (h s : bytes) : result bytes :=
  if decide (length s = 65%nat) then Ok (take 64 s) else Err (ErrExt "recover").

Lemma test_SigToPubID_len (h s id : bytes) :
  test_SigToPubID h s = Ok id -> length id = Keys.nodeIdLen.
Proof.
  unfold test_SigToPubID. case_decide; [|discriminate].
  intros [= <-]. rewrite length_take. unfold Keys.nodeIdLen. lia.
Qed.

Definition test_recover : SigRecover :=
  {| SigToPubID := test_SigToPubID; SigToPubID_len := test_SigToPubID_len |}.

(** A ledger that keeps the validator list and logs every slash; a slash
    with removal drops the validator, and a slash of a NodeID that is not
    in the list fails, as the staking plugin's does for an unknown
    candidate. *)
Record TestLedger := mkTestLedger {
  tl_validators : list Candidate;
  tl_calls : list (bytes * Z * bool * SlashType)
}.

Definition test_find (addr : bytes) (vs : list Candidate) : result Candidate :=
  match list_find (fun c => StakingAddress c = addr) vs with
  | Some (_, c) => Ok c
  | None => Err (ErrExt "candidate not found")
  end.

#[export] Instance test_ledger : StakingLedger TestLedger := {|
  GetCandidateONRound _ _ l := Ok (tl_validators l);
  GetCandidateInfo _ addr l := test_find addr (tl_validators l);
  SlashCandidates _ _ id amount del ty := fun l =>
    if decide (id ∈ NodeId <$> tl_validators l) then
      (Ok tt, mkTestLedger
                (if del then filter (fun c => NodeId c <> id) (tl_validators l) else tl_validators l)
                (tl_calls l ++ [(id, amount, del, ty)]))
    else (Err (ErrExt "candidate not found"), l)
|}.
