(* ===== verification/Singleton.v ===== *)
(** * Singleton: the plugin instance ([SlashInstance], lines 45 and 53-62)
      and the decoder setter called through its pointer
      ([SetDecodeEvidenceFun], lines 64-66).

    The package holds a [sync.Once] and a pointer [slashPlugin]; the first
    call of [SlashInstance] allocates a [SlashingPlugin] over the store
    [snapshotdb.Instance()] and every call returns the pointer.  The
    callers keep the pointer, so a decoder installed through one handle is
    seen through every other: the model has a heap of plugin objects
    indexed by locations, and a pointer is an [option loc] ([None] is
    [nil]).  The theorems: [SlashInstance] allocates once and returns the
    same object ever after ([SlashInstance_once]), and a decoder set
    through the returned pointer is the one a later [SlashInstance()]
    sees, on the same store ([SlashInstance_shared_decoder]). *)

From Stdlib Require Import ZArith Lia String.
From S2P Require Import Prelude Store Chain.

Definition loc := positive.

(** The package variables [once] and [slashPlugin], and the heap of the
    plugin objects. *)
Record Globals := mkGlobals {
  heap : gmap loc SlashingPlugin;
  once_done : bool;
  slashPlugin : option loc
}.

(** Dereferencing a pointer; [nil] and dangling pointers have no object. *)
Definition deref (p : option loc) (g : Globals) : option SlashingPlugin :=
  p ≫= fun l => heap g !! l.

(** [once.Do(f)] with [f] allocating the plugin over [inst], the store
    [snapshotdb.Instance()], then [return slashPlugin]. *)
Definition SlashInstance (inst : SnapDB) (g : Globals) : option loc * Globals :=
  let g' := if once_done g then g
            else let l := fresh (dom (heap g)) in
                 mkGlobals (<[l := mkSlashingPlugin inst None]> (heap g)) true (Some l) in
  (slashPlugin g', g').

(** [sp.SetDecodeEvidenceFun(f)] through the pointer [sp]: the write
    [sp.decodeEvidence = f] on a [nil] pointer panics. *)
Definition SetDecodeEvidenceFun_at (p : option loc) (f : string -> result (list Evidence))
    : SE Globals unit := fun g =>
  match p with
  | Some l =>
      match heap g !! l with
      | Some sp => (Ok tt, mkGlobals (<[l := SetDecodeEvidenceFun sp f]> (heap g)) (once_done g) (slashPlugin g))
      | None => (Err ErrPanic, g)
      end
  | None => (Err ErrPanic, g)
  end.

(** The package state before any call. *)
Definition globals_init : Globals := mkGlobals ∅ false None.

(** Once [once.Do] has run, [slashPlugin] points to an object; before, it
    is [nil]. *)
Definition globals_wf (g : Globals) : Prop :=
  if once_done g then exists l, slashPlugin g = Some l /\ is_Some (heap g !! l)
  else slashPlugin g = None.

(** ** Lemmas *)

Lemma globals_init_wf : globals_wf globals_init.
Proof. done. Qed.

Lemma SlashInstance_done (inst : SnapDB) (g : Globals) :
  once_done g = true -> SlashInstance inst g = (slashPlugin g, g).
Proof. intros Hd. unfold SlashInstance. by rewrite Hd. Qed.

Lemma SlashInstance_first (inst : SnapDB) (g : Globals) :
  once_done g = false ->
  let l := fresh (dom (heap g)) in
  SlashInstance inst g =
    (Some l, mkGlobals (<[l := mkSlashingPlugin inst None]> (heap g)) true (Some l)).
Proof. intros Hd. unfold SlashInstance. by rewrite Hd. Qed.

Lemma SlashInstance_wf (inst : SnapDB) (g : Globals) (p : option loc) (g' : Globals) :
  globals_wf g -> SlashInstance inst g = (p, g') ->
  globals_wf g' /\ once_done g' = true /\ p = slashPlugin g'.
Proof.
  intros Hwf. destruct (once_done g) eqn:Hd.
  - rewrite SlashInstance_done by done. intros [= <- <-]. done.
  - rewrite SlashInstance_first by done. intros [= <- <-]. split; [|done].
    unfold globals_wf. cbn. eexists. split; [done|]. rewrite lookup_insert_eq. eauto.
Qed.

Lemma SetDecodeEvidenceFun_at_wf (p : option loc) f (g : Globals) r (g' : Globals) :
  globals_wf g -> SetDecodeEvidenceFun_at p f g = (r, g') ->
  globals_wf g' /\ once_done g' = once_done g /\ slashPlugin g' = slashPlugin g.
Proof.
  unfold SetDecodeEvidenceFun_at, globals_wf. intros Hwf.
  destruct p as [l|]; [|by intros [= _ <-]].
  destruct (heap g !! l) as [sp|] eqn:Hl; [|by intros [= _ <-]]. intros [= _ <-]. cbn.
  split; [|done]. destruct (once_done g); [|done].
  destruct Hwf as (l' & Hp & Hs). exists l'. split; [done|].
  destruct (decide (l = l')) as [<-|Hne]; [by rewrite lookup_insert_eq|by rewrite lookup_insert_ne].
Qed.

(** ** Theorems *)

(** C20: [SlashInstance] returns a non-nil pointer; the
    first call allocates a plugin over the store it is given, with no
    decoder; every later call, whatever the store, returns the same pointer
    and changes nothing. *)
Theorem SlashInstance_once (inst inst' : SnapDB) (g g' : Globals) (p : option loc) :
  globals_wf g -> SlashInstance inst g = (p, g') ->
  is_Some p /\ SlashInstance inst' g' = (p, g') /\
  (once_done g = false -> deref p g' = Some (mkSlashingPlugin inst None)).
Proof.
  intros Hwf Hs. destruct (SlashInstance_wf inst g p g' Hwf Hs) as (Hwf' & Hd' & ->).
  split; [|split].
  - unfold globals_wf in Hwf'. rewrite Hd' in Hwf'. destruct Hwf' as (l & -> & _). eauto.
  - by rewrite SlashInstance_done.
  - intros Hd. rewrite SlashInstance_first in Hs by done. injection Hs as _ <-.
    unfold deref. cbn. by rewrite lookup_insert_eq.
Qed.

(** C21: the object is shared: a decoder
    installed through the pointer [SlashInstance] returned is the decoder
    of the object every later [SlashInstance()] returns, and the object
    keeps its store. *)
Theorem SlashInstance_shared_decoder (inst inst' : SnapDB) (f : string -> result (list Evidence))
    (g g1 : Globals) (p : option loc) :
  globals_wf g -> SlashInstance inst g = (p, g1) ->
  exists g2, SetDecodeEvidenceFun_at p f g1 = (Ok tt, g2) /\ SlashInstance inst' g2 = (p, g2) /\
    option_map decodeEvidence (deref p g2) = Some (Some f) /\
    option_map db (deref p g2) = option_map db (deref p g1).
Proof.
  intros Hwf Hs. destruct (SlashInstance_wf inst g p g1 Hwf Hs) as (Hwf1 & Hd1 & ->).
  unfold globals_wf in Hwf1. rewrite Hd1 in Hwf1. destruct Hwf1 as (l & Hp & sp & Hl).
  rewrite Hp. eexists. split.
  - unfold SetDecodeEvidenceFun_at. by rewrite Hl.
  - split; [rewrite SlashInstance_done by exact Hd1; cbn; by rewrite Hp|].
    unfold deref. cbn. rewrite lookup_insert_eq, Hl. done.
Qed.

(** ** Witnesses *)

Definition dec_none : string -> result (list Evidence) := fun _ => Ok [].
Definition store0 : SnapDB := mkSnapDB ∅ ∅ ∅.

(** The first call, from the initial package state. *)
Definition first_call : option loc * Globals := SlashInstance store0 globals_init.

Lemma SlashInstance_once_witness :
  is_Some (fst first_call) /\ SlashInstance store0 (snd first_call) = ((fst first_call), (snd first_call)) /\
  (once_done globals_init = false -> deref (fst first_call) (snd first_call) = Some (mkSlashingPlugin store0 None)).
Proof.
  apply (SlashInstance_once _ _ globals_init); [apply globals_init_wf | unfold first_call; apply surjective_pairing].
Defined.

Lemma SlashInstance_shared_decoder_witness :
  exists g2, SetDecodeEvidenceFun_at (fst first_call) dec_none (snd first_call) = (Ok tt, g2) /\
  SlashInstance store0 g2 = ((fst first_call), g2) /\
  option_map decodeEvidence (deref (fst first_call) g2) = Some (Some dec_none) /\
  option_map db (deref (fst first_call) g2) = option_map db (deref (fst first_call) (snd first_call)).
Proof.
  apply (SlashInstance_shared_decoder store0 _ _ globals_init); [apply globals_init_wf | unfold first_call; apply surjective_pairing].
Defined.
