(* ===== verification/RoundCounter.v ===== *)
(** * RoundCounter: the per-validator block counts of the current round
      ([getBlockAmount], [setBlockAmount], [parseNodeId], lines 137-178
      and 322-330).

    A count is an RLP-encoded [uint16] under the key [curKey nodeId] of the
    base layer; reading goes through the branch view of the block
    ([Get blockHash]), writing through [PutBaseDB].  The theorems: the
    store invariant [counts_wf] (every count key is a prefix and a 64-byte
    NodeID, every count value decodes) and its preservation; the functional
    behaviour of both operations on every branch, the error returns
    included (a short header panics, a refused write is returned and
    changes nothing); that [n] confirmations by one validator from an
    empty window leave the count [n mod 2^16]. *)

From Stdlib Require Import ZArith Lia String.
From S2P Require Import Prelude Config Codec Store Chain.
Import RLP Keys.
Local Open Scope Z_scope.

Section RoundCounter.
Context `{SigRecover}.

(** [parseNodeId]: recover the signer from the signature
    [header.Extra[32:97]].  Go panics when the slice runs past the
    capacity of [Extra]; a decoded header's [Extra] is allocated at its
    length, so a header with fewer than 97 bytes of extra data panics. *)
Definition parseNodeId (header : Header) : result bytes :=
  if decide (length (Extra header) < 97)%nat then Err ErrPanic
  else SigToPubID (SealHash header) (take 65 (drop 32 (Extra header))).

(** [sp.getBlockAmount], reading the store [d] ([sp.db]). *)
Definition getBlockAmount (d : SnapDB) (blockHash : bytes) (header : Header) : result Z :=
  nodeId <-? parseNodeId header ;;
  match Get blockHash (curKey nodeId) d with
  | Err ErrNotFound => Ok 0
  | Err e => Err e
  | Ok value => rlp_decode_u16 value
  end.

(** [sp.setBlockAmount], updating the store [sp.db]; [value++] on a
    [uint16] wraps around. *)
Definition setBlockAmount (blockHash : bytes) (header : Header) : SE SnapDB unit :=
  nodeId <- se_lift (parseNodeId header) ;;
  value <- se_gets (fun d => getBlockAmount d blockHash header) ;;
  PutBaseDB (curKey nodeId) (rlp_encode_u16 (wrap 16 (value + 1))).

(** ** The count store invariant *)

(** An entry under [prefix] has a 64-byte NodeID suffix and a decodable
    [uint16] value. *)
Definition count_entry_wf (prefix k v : bytes) : Prop :=
  has_prefix prefix k = true ->
  length k = (length prefix + nodeIdLen)%nat /\ is_ok (rlp_decode_u16 v) = true.

(** No branch overlay writes a current-round key: the plugin only writes
    counts through the base layer. *)
Definition branch_no_counts (d : SnapDB) : Prop :=
  map_Forall (fun _ m => map_Forall (fun k _ => has_prefix curAbnormalPrefix k = false) m)
    (branchDB d).

Definition counts_wf (d : SnapDB) : Prop :=
  map_Forall (fun k v => count_entry_wf curAbnormalPrefix k v /\
                         count_entry_wf preAbnormalPrefix k v) (baseDB d) /\
  branch_no_counts d.

#[export] Instance counts_wf_dec (d : SnapDB) : Decision (counts_wf d).
Proof. unfold counts_wf, branch_no_counts, count_entry_wf. apply _. Defined.

(** The count of [id] under [prefix] in the base layer (0 when absent). *)
Definition count_at (prefix : bytes) (d : SnapDB) (id : bytes) : Z :=
  match baseDB d !! (prefix ++ id) with
  | Some v => match rlp_decode_u16 v with Ok n => n | Err _ => 0 end
  | None => 0
  end.

(** ** Lemmas *)

Lemma count_entry_wf_inv (prefix k v : bytes) :
  count_entry_wf prefix k v -> has_prefix prefix k = true ->
  (exists id, k = prefix ++ id /\ length id = nodeIdLen) /\ is_ok (rlp_decode_u16 v) = true.
Proof.
  intros Hwf Hp. destruct (Hwf Hp) as [Hl Hv]. split; [|done].
  apply has_prefix_spec in Hp as [id ->]. exists id. split; [done|].
  rewrite length_app in Hl. lia.
Qed.

Lemma count_entry_wf_app (prefix id v : bytes) :
  length id = nodeIdLen -> is_ok (rlp_decode_u16 v) = true ->
  count_entry_wf prefix (prefix ++ id) v.
Proof. intros Hl Hv _. rewrite length_app, Hl. done. Qed.

Lemma curKey_has_prefix (id : bytes) : has_prefix curAbnormalPrefix (curKey id) = true.
Proof. apply has_prefix_app. Qed.

(** A current-round key is read from the base layer. *)
Lemma Get_curKey (h id : bytes) (d : SnapDB) :
  branch_no_counts d ->
  Get h (curKey id) d =
  match baseDB d !! curKey id with Some v => Ok v | None => Err ErrNotFound end.
Proof.
  intros Hb. apply Get_base.
  destruct (branchDB d !! h) as [m|] eqn:Hm; simpl; [|done].
  destruct (m !! curKey id) as [v|] eqn:Hk; [|done].
  pose proof (Hb h m Hm (curKey id) v Hk) as Hc. simpl in Hc.
  by rewrite curKey_has_prefix in Hc.
Qed.

Lemma count_at_range (prefix : bytes) (d : SnapDB) (id : bytes) :
  0 <= count_at prefix d id < u16_max.
Proof.
  unfold count_at, u16_max.
  destruct (baseDB d !! (prefix ++ id)) as [v|]; [|lia].
  destruct (rlp_decode_u16 v) eqn:E; [|lia].
  apply rlp_encode_decode in E. unfold u16_max in E. lia.
Qed.

(** A well-formed value decodes to the count. *)
Lemma decode_count_at (prefix : bytes) (d : SnapDB) (id v : bytes) :
  baseDB d !! (prefix ++ id) = Some v -> is_ok (rlp_decode_u16 v) = true ->
  rlp_decode_u16 v = Ok (count_at prefix d id).
Proof.
  unfold count_at. intros -> Hok. by destruct (rlp_decode_u16 v).
Qed.

Lemma count_at_insert_eq (prefix : bytes) (d : SnapDB) (id : bytes) (n : Z) :
  0 <= n < u16_max ->
  count_at prefix (set_base (<[prefix ++ id := rlp_encode_u16 n]> (baseDB d)) d) id = n.
Proof.
  intros Hn. unfold count_at. autorewrite with slashing_rw. rewrite lookup_insert_eq.
  by rewrite rlp_decode_encode.
Qed.

Lemma count_at_insert_ne (p q : bytes) (d : SnapDB) (id id' v : bytes) :
  p ++ id <> q ++ id' ->
  count_at q (set_base (<[p ++ id := v]> (baseDB d)) d) id' = count_at q d id'.
Proof. intros Hne. unfold count_at. autorewrite with slashing_rw. by rewrite lookup_insert_ne. Qed.

Lemma getBlockAmount_Ok (d : SnapDB) (h : bytes) (header : Header) (id : bytes) :
  parseNodeId header = Ok id -> counts_wf d ->
  getBlockAmount d h header = Ok (count_at curAbnormalPrefix d id).
Proof.
  intros Hid [Hm Hb]. unfold getBlockAmount. rewrite Hid. simpl.
  rewrite Get_curKey by done.
  destruct (baseDB d !! curKey id) as [v|] eqn:Hv.
  - apply decode_count_at; [done|].
    apply (proj1 (Hm _ _ Hv)), curKey_has_prefix.
  - unfold count_at. unfold curKey in Hv. by rewrite Hv.
Qed.

Lemma parseNodeId_len (header : Header) (id : bytes) :
  parseNodeId header = Ok id -> length id = nodeIdLen.
Proof.
  unfold parseNodeId. case_decide; [discriminate|]. apply SigToPubID_len.
Qed.

(** Writing a count keeps the invariant. *)
Lemma counts_wf_put_count (d : SnapDB) (id : bytes) (n : Z) :
  counts_wf d -> length id = nodeIdLen -> 0 <= n < u16_max ->
  counts_wf (set_base (<[curKey id := rlp_encode_u16 n]> (baseDB d)) d).
Proof.
  intros [Hm Hb] Hl Hn. split; [|exact Hb]. autorewrite with slashing_rw.
  apply map_Forall_insert_2; [|done].
  split.
  - apply count_entry_wf_app; [done|]. by rewrite rlp_decode_encode.
  - intros Hp. by rewrite curKey_not_pre in Hp.
Qed.

Lemma counts_wf_DelBaseDB (k : bytes) : se_preserves counts_wf (DelBaseDB k).
Proof.
  intros d r d' [Hm Hb]. unfold DelBaseDB. case_decide; intros [= _ <-]; [done|].
  split; [by apply map_Forall_delete|done].
Qed.

Lemma counts_wf_PutBaseDB (k v : bytes) :
  count_entry_wf curAbnormalPrefix k v -> count_entry_wf preAbnormalPrefix k v ->
  se_preserves counts_wf (PutBaseDB k v).
Proof.
  intros Hc Hp d r d' [Hm Hb]. unfold PutBaseDB. case_decide; intros [= _ <-]; [done|].
  split; [by apply map_Forall_insert_2|done].
Qed.

(** The store after confirming a block of [id]: its count incremented,
    modulo [2^16]. *)
Definition incr_count (d : SnapDB) (id : bytes) : SnapDB :=
  set_base (<[curKey id := rlp_encode_u16 (wrap 16 (count_at curAbnormalPrefix d id + 1))]>
              (baseDB d)) d.

Lemma setBlockAmount_Ok_inv (d d' : SnapDB) (h : bytes) (header : Header) (u : unit) :
  setBlockAmount h header d = (Ok u, d') -> counts_wf d ->
  exists id, parseNodeId header = Ok id /\ (curKey id ∉ faulty d) /\ d' = incr_count d id.
Proof.
  unfold setBlockAmount, se_lift, se_gets. intros Hs Hwf.
  apply se_bind_inv in Hs as (id & d1 & Hp & Hs). injection Hp as Hp <-.
  apply se_bind_inv in Hs as (n & d2 & Hn & Hs). injection Hn as Hn <-.
  rewrite (getBlockAmount_Ok _ _ _ id) in Hn by done. injection Hn as <-.
  apply PutBaseDB_Ok in Hs as [Hf ->]. eauto.
Qed.

Lemma incr_count_wf (d : SnapDB) (id : bytes) :
  counts_wf d -> length id = nodeIdLen -> counts_wf (incr_count d id).
Proof. intros. apply counts_wf_put_count; [done|done|apply wrap_range; lia]. Qed.

Lemma count_at_incr_eq (d : SnapDB) (id : bytes) :
  count_at curAbnormalPrefix (incr_count d id) id = wrap 16 (count_at curAbnormalPrefix d id + 1).
Proof. apply count_at_insert_eq, wrap_range. lia. Qed.

Lemma count_at_incr_ne (p : bytes) (d : SnapDB) (id id' : bytes) :
  p ++ id' <> curKey id -> count_at p (incr_count d id) id' = count_at p d id'.
Proof. intros. by apply count_at_insert_ne. Qed.

Lemma faulty_incr_count (d : SnapDB) (id : bytes) : faulty (incr_count d id) = faulty d.
Proof. reflexivity. Qed.

End RoundCounter.

Section Counting.
Context `{SigRecover}.

Lemma setBlockAmount_incr (d : SnapDB) (h : bytes) (header : Header) (id : bytes) :
  parseNodeId header = Ok id -> counts_wf d -> curKey id ∉ faulty d ->
  setBlockAmount h header d = (Ok tt, incr_count d id).
Proof.
  intros Hid Hwf Hf. unfold setBlockAmount, se_lift, se_gets.
  rewrite (se_bind_Ok _ _ _ id d) by (by rewrite Hid).
  rewrite (se_bind_Ok _ _ _ (count_at curAbnormalPrefix d id) d)
    by (by rewrite (getBlockAmount_Ok _ _ _ id)).
  by rewrite PutBaseDB_ok.
Qed.

Lemma setBlockAmount_wf (h : bytes) (header : Header) :
  se_preserves counts_wf (setBlockAmount h header).
Proof.
  unfold setBlockAmount. apply se_preserves_bind_lift. intros id Hid.
  apply se_preserves_bind; [apply se_preserves_gets|]. intros n.
  apply counts_wf_PutBaseDB; [|intros Hp; by rewrite curKey_not_pre in Hp].
  apply count_entry_wf_app; [eauto using parseNodeId_len|].
  rewrite rlp_decode_encode; [done|apply wrap_range; lia].
Qed.

(** Confirming a sequence of blocks, each given by its hash and header. *)
Definition confirm_counts (blocks : list (bytes * Header)) : SE SnapDB unit :=
  fold_se (fun bh => setBlockAmount bh.1 bh.2) blocks.

Lemma confirm_counts_wrap (d : SnapDB) (blocks : list (bytes * Header)) (id : bytes) :
  (forall bh, bh ∈ blocks -> parseNodeId bh.2 = Ok id) ->
  counts_wf d -> curKey id ∉ faulty d ->
  exists d', confirm_counts blocks d = (Ok tt, d') /\ counts_wf d' /\
    count_at curAbnormalPrefix d' id =
      wrap 16 (count_at curAbnormalPrefix d id + Z.of_nat (length blocks)).
Proof.
  unfold confirm_counts.
  revert d; induction blocks as [|[h hd] blocks IH]; intros d Hid Hwf Hf; simpl.
  - exists d. split; [done|]. split; [done|].
    rewrite Z.add_0_r, wrap_small; [done|apply count_at_range].
  - assert (Hh : parseNodeId hd = Ok id) by (apply (Hid (h, hd)); set_solver).
    rewrite (se_bind_Ok _ _ _ tt (incr_count d id)) by (by apply setBlockAmount_incr).
    destruct (IH (incr_count d id)) as (d' & Hr & Hw & Hc).
    + intros bh Hbh. apply Hid. set_solver.
    + apply incr_count_wf; [done|by eapply parseNodeId_len].
    + done.
    + exists d'. split; [done|]. split; [done|].
      rewrite Hc, count_at_incr_eq. unfold wrap.
      rewrite Z.add_mod_idemp_l by lia. f_equal. lia.
Qed.

End Counting.

(** ** Theorems *)

Section Theorems.
Context `{SigRecover}.

(** C9: confirming a block whose signer is [id] succeeds
    when the store is well formed and the count key is writable, and
    replaces [id]'s current-round count by its successor modulo [2^16],
    leaving every other key of the store unchanged. *)
Theorem setBlockAmount_spec (d : SnapDB) (h : bytes) (header : Header) (id : bytes) :
  parseNodeId header = Ok id -> counts_wf d -> curKey id ∉ faulty d ->
  setBlockAmount h header d = (Ok tt, incr_count d id).
Proof. apply setBlockAmount_incr. Qed.

(** C37: round trip of a count through the store: on a
    well-formed store, what [setBlockAmount] writes for a block signed by
    [id] is what [getBlockAmount] reads for [id]'s next block, on any
    branch: the count it read before, plus one, modulo [2^16]. *)
Theorem setBlockAmount_roundtrip (d d' : SnapDB) (h h' : bytes) (header header' : Header) (id : bytes) :
  parseNodeId header = Ok id -> parseNodeId header' = Ok id -> counts_wf d ->
  setBlockAmount h header d = (Ok tt, d') ->
  exists n, getBlockAmount d h header = Ok n /\ getBlockAmount d' h' header' = Ok (wrap 16 (n + 1)).
Proof.
  intros Hid Hid' Hwf Hs.
  destruct (setBlockAmount_Ok_inv d d' h header tt Hs Hwf) as (id0 & Hid0 & _ & ->).
  rewrite Hid in Hid0. injection Hid0 as <-.
  exists (count_at curAbnormalPrefix d id). split; [by apply getBlockAmount_Ok|].
  rewrite (getBlockAmount_Ok _ _ _ id); [by rewrite count_at_incr_eq|done|].
  apply incr_count_wf; [done|]. by apply (parseNodeId_len header).
Qed.

(** C29: [setBlockAmount] preserves the count
    store invariant, whether it succeeds or fails. *)
Theorem setBlockAmount_preserves_wf (h : bytes) (header : Header) :
  se_preserves counts_wf (setBlockAmount h header).
Proof. apply setBlockAmount_wf. Qed.

(** C28: confirming [n] blocks signed by [id] (with no
    rotation in between) succeeds and adds [n] to [id]'s count, modulo
    [2^16]. *)
Theorem confirm_counts_n (d : SnapDB) (blocks : list (bytes * Header)) (id : bytes) :
  (forall bh, bh ∈ blocks -> parseNodeId bh.2 = Ok id) ->
  counts_wf d -> curKey id ∉ faulty d ->
  exists d', confirm_counts blocks d = (Ok tt, d') /\ counts_wf d' /\
    count_at curAbnormalPrefix d' id =
      wrap 16 (count_at curAbnormalPrefix d id + Z.of_nat (length blocks)).
Proof. apply confirm_counts_wrap. Qed.

(** From an empty window, fewer than [2^16]
    confirmations by [id] leave exactly their number as [id]'s count. *)
Corollary confirm_counts_exact (d : SnapDB) (blocks : list (bytes * Header)) (id : bytes) :
  (forall bh, bh ∈ blocks -> parseNodeId bh.2 = Ok id) ->
  counts_wf d -> curKey id ∉ faulty d ->
  baseDB d !! curKey id = None -> (Z.of_nat (length blocks) < u16_max) ->
  exists d', confirm_counts blocks d = (Ok tt, d') /\
    count_at curAbnormalPrefix d' id = Z.of_nat (length blocks).
Proof.
  intros Hid Hwf Hf Hnone Hlen.
  destruct (confirm_counts_wrap d blocks id) as (d' & Hr & _ & Hc); [done..|].
  exists d'. split; [done|]. rewrite Hc.
  unfold count_at at 1. unfold curKey in Hnone. rewrite Hnone.
  apply wrap_small. unfold u16_max in Hlen. lia.
Qed.

(** On a well-formed store the branch view
    of a current-round count is the base layer's: [getBlockAmount] returns
    the signer's count, and 0 (not an error) when it has none. *)
Theorem getBlockAmount_reads_count (d : SnapDB) (h : bytes) (header : Header) (id : bytes) :
  parseNodeId header = Ok id -> counts_wf d ->
  getBlockAmount d h header = Ok (count_at curAbnormalPrefix d id) /\
  (baseDB d !! curKey id = None -> getBlockAmount d h header = Ok 0).
Proof.
  intros Hid Hwf. rewrite (getBlockAmount_Ok d h header id Hid Hwf). split; [done|].
  intros Hn. unfold count_at. unfold curKey in Hn. by rewrite Hn.
Qed.

(** C31: [setBlockAmount] fails without touching the
    store when the header's extra data is shorter than 97 bytes (the slice
    [Extra[32:97]] panics), when the signature does not recover, and when
    the store refuses the write. *)
Theorem setBlockAmount_errors (d : SnapDB) (h : bytes) (header : Header) (id : bytes) (e : Error) :
  ((length (Extra header) < 97)%nat -> setBlockAmount h header d = (Err ErrPanic, d)) /\
  (parseNodeId header = Err e -> setBlockAmount h header d = (Err e, d)) /\
  (parseNodeId header = Ok id -> counts_wf d -> curKey id ∈ faulty d ->
   setBlockAmount h header d = (Err ErrStore, d)).
Proof.
  assert (Hp : forall e', parseNodeId header = Err e' -> setBlockAmount h header d = (Err e', d)).
  { intros e' He. unfold setBlockAmount. apply se_bind_Err. unfold se_lift. by rewrite He. }
  split; [|split; [exact (Hp e)|]].
  - intros Hl. apply Hp. unfold parseNodeId. by rewrite decide_True.
  - intros Hid Hwf Hf. unfold setBlockAmount, se_lift, se_gets.
    rewrite (se_bind_Ok _ _ _ id d) by (by rewrite Hid).
    rewrite (se_bind_Ok _ _ _ (count_at curAbnormalPrefix d id) d)
      by (by rewrite (getBlockAmount_Ok _ _ _ id)).
    unfold PutBaseDB. by rewrite decide_True.
Qed.

End Theorems.

(** ** Witnesses *)

(** A block of height 5 signed by [repeat x07 64] (under [test_recover]),
    and the empty store. *)
Definition hdr7 : Header := mkHeader 5 (repeat Byte.x00 32 ++ repeat Byte.x07 65) [].
Definition id7 : bytes := repeat Byte.x07 64.
Definition empty_db : SnapDB := mkSnapDB ∅ ∅ ∅.

Lemma setBlockAmount_spec_witness :
  @setBlockAmount test_recover [] hdr7 empty_db = (Ok tt, incr_count empty_db id7).
Proof.
  apply (@setBlockAmount_spec test_recover); [reflexivity | | set_solver].
  apply (bool_decide_unpack _). vm_compute. reflexivity.
Defined.

Lemma confirm_counts_n_witness :
  exists d', @confirm_counts test_recover [([], hdr7); ([], hdr7)] empty_db = (Ok tt, d') /\
    counts_wf d' /\ count_at curAbnormalPrefix d' id7 = wrap 16 (0 + 2).
Proof.
  apply (@confirm_counts_n test_recover).
  - intros bh Hin. repeat (apply elem_of_cons in Hin as [-> | Hin]; [reflexivity|]).
    by apply elem_of_nil in Hin.
  - apply (bool_decide_unpack _). vm_compute. reflexivity.
  - set_solver.
Defined.

Lemma confirm_counts_exact_witness :
  exists d', @confirm_counts test_recover [([], hdr7); ([], hdr7); ([], hdr7)] empty_db = (Ok tt, d') /\
    count_at curAbnormalPrefix d' id7 = 3.
Proof.
  apply (@confirm_counts_exact test_recover).
  - intros bh Hin. repeat (apply elem_of_cons in Hin as [-> | Hin]; [reflexivity|]).
    by apply elem_of_nil in Hin.
  - apply (bool_decide_unpack _). vm_compute. reflexivity.
  - set_solver.
  - reflexivity.
  - unfold u16_max. simpl. lia.
Defined.

Lemma getBlockAmount_reads_count_witness :
  @getBlockAmount test_recover empty_db [] hdr7 = Ok (count_at curAbnormalPrefix empty_db id7) /\
  (baseDB empty_db !! curKey id7 = None -> @getBlockAmount test_recover empty_db [] hdr7 = Ok 0).
Proof.
  apply (@getBlockAmount_reads_count test_recover); [reflexivity|].
  apply (bool_decide_unpack _). vm_compute. reflexivity.
Defined.

Lemma setBlockAmount_roundtrip_witness :
  exists n, @getBlockAmount test_recover empty_db [] hdr7 = Ok n /\
    @getBlockAmount test_recover (incr_count empty_db id7) [Byte.x01] hdr7 = Ok (wrap 16 (n + 1)).
Proof.
  apply (@setBlockAmount_roundtrip test_recover empty_db _ [] [Byte.x01] hdr7 hdr7 id7);
    [reflexivity | reflexivity | apply (bool_decide_unpack _); vm_compute; reflexivity |].
  apply setBlockAmount_incr; [reflexivity | | set_solver].
  apply (bool_decide_unpack _). vm_compute. reflexivity.
Defined.

(** A header without a signature, and a store whose count key for [id7]
    cannot be written. *)
Definition hdr_short : Header := mkHeader 5 (repeat Byte.x00 32) [].
Definition faulty_db : SnapDB := mkSnapDB ∅ ∅ {[curKey id7]}.

Lemma setBlockAmount_errors_witness :
  @setBlockAmount test_recover [] hdr_short faulty_db = (Err ErrPanic, faulty_db) /\
  @setBlockAmount test_recover [] hdr7 faulty_db = (Err ErrStore, faulty_db).
Proof.
  split.
  - apply (proj1 (@setBlockAmount_errors test_recover faulty_db [] hdr_short id7 ErrPanic)).
    unfold hdr_short. cbn [Extra]. rewrite repeat_length. lia.
  - apply (proj2 (proj2 (@setBlockAmount_errors test_recover faulty_db [] hdr7 id7 ErrPanic)));
      [reflexivity | apply (bool_decide_unpack _); vm_compute; reflexivity | set_solver].
Defined.
