(* ===== verification/Epoch.v ===== *)
(** * Epoch: the rotation of the round windows ([switchEpoch], lines
      180-215) and the confirmation hook that drives it ([Confirmed],
      lines 121-135).

    [switchEpoch] walks the previous-round keys and deletes each, then
    walks the current-round keys and, for each, deletes it and writes its
    value under the previous-round prefix with the same NodeID suffix.
    Its abstract specification is [rotated]: the current window becomes
    the previous one and the current window is empty; every other key is
    untouched.  [switchEpoch_spec] proves that the code implements it
    whenever no count key is faulty, whatever order the walk takes; the
    theorem [switchEpoch_partial] shows that a failing write leaves
    a half-rotated base layer, which the store does not roll back, and
    [Confirmed_switch_error] that [Confirmed] then returns the error
    without counting the block. *)

From Stdlib Require Import ZArith Lia String.
From S2P Require Import Prelude Config Codec Store Chain RoundCounter.
Import RLP Keys.
Local Open Scope Z_scope.

(** ** Operations *)

(** The body of the first walk: [DelBaseDB(iter.Key())]. *)
Definition del_entry (kv : bytes * bytes) : SE SnapDB unit :=
  DelBaseDB kv.1.

(** The previous-round key of a current-round key:
    [preKey(key[len(curAbnormalPrefix):])]. *)
Definition pre_of (key : bytes) : bytes := preKey (drop_prefix curAbnormalPrefix key).

(** The body of the second walk: delete the key, then put its value under
    the previous-round prefix. *)
Definition move_entry (kv : bytes * bytes) : SE SnapDB unit :=
  DelBaseDB kv.1 ;;
  PutBaseDB (pre_of kv.1) kv.2.

(** [sp.switchEpoch(blockHash)] on the store [sp.db] (the hash is only
    logged). *)
Definition switchEpoch (blockHash : bytes) : SE SnapDB unit :=
  WalkBaseDB preAbnormalPrefix (fold_se del_entry) ;;
  WalkBaseDB curAbnormalPrefix (fold_se move_entry).

(** [switchEpoch] over a store whose walks enumerate by [enum]. *)
Definition switchEpoch_in (enum : bytes -> SnapDB -> list (bytes * bytes)) (blockHash : bytes)
    : SE SnapDB unit :=
  WalkBaseDB_in enum preAbnormalPrefix (fold_se del_entry) ;;
  WalkBaseDB_in enum curAbnormalPrefix (fold_se move_entry).

Section Confirmed.
Context `{SigRecover}.

(** [Confirmed]: at the first block of a round (block 1 excepted) switch the
    windows, then count the block for its signer. *)
Definition Confirmed (cfg : Config) (block : Block) : SE SnapDB unit :=
  (if isSwitchBlock cfg (NumberU64 block) then switchEpoch (bHash block) else se_ret tt) ;;
  setBlockAmount (bHash block) (bHeader block).

End Confirmed.

(** ** Specification *)

(** The base layer after a rotation, key by key. *)
Definition rotated (m : gmap bytes bytes) (k : bytes) : option bytes :=
  if has_prefix curAbnormalPrefix k then None
  else if has_prefix preAbnormalPrefix k then m !! (curAbnormalPrefix ++ drop_prefix preAbnormalPrefix k)
  else m !! k.

(** The count keys can be written. *)
Definition counts_writable (d : SnapDB) : Prop :=
  set_Forall (fun k => has_prefix curAbnormalPrefix k = false /\
                       has_prefix preAbnormalPrefix k = false) (faulty d).

#[export] Instance counts_writable_dec (d : SnapDB) : Decision (counts_writable d).
Proof. unfold counts_writable. apply _. Defined.

(** ** Lemmas *)

Lemma pre_of_app (s : bytes) : pre_of (curAbnormalPrefix ++ s) = preAbnormalPrefix ++ s.
Proof. unfold pre_of, preKey. by rewrite drop_prefix_app. Qed.

Lemma pre_of_pre (k : bytes) : has_prefix preAbnormalPrefix (pre_of k) = true.
Proof. apply has_prefix_app. Qed.

Lemma pre_of_not_cur (k : bytes) : has_prefix curAbnormalPrefix (pre_of k) = false.
Proof. apply preKey_not_cur. Qed.

Lemma cur_not_pre (k : bytes) :
  has_prefix curAbnormalPrefix k = true -> has_prefix preAbnormalPrefix k = false.
Proof. apply has_prefix_disjoint; [done|discriminate]. Qed.

Lemma pre_of_inj (k1 k2 : bytes) :
  has_prefix curAbnormalPrefix k1 = true -> has_prefix curAbnormalPrefix k2 = true ->
  pre_of k1 = pre_of k2 -> k1 = k2.
Proof.
  intros [s1 ->]%has_prefix_spec [s2 ->]%has_prefix_spec.
  rewrite !pre_of_app. by intros ->%app_inv_head.
Qed.

#[local] Hint Resolve pre_of_pre pre_of_not_cur cur_not_pre : slashing.

(** The previous-round entries the second walk writes, as a map. *)
Fixpoint moved (l : list (bytes * bytes)) : gmap bytes bytes :=
  match l with
  | [] => ∅
  | kv :: l' => <[pre_of kv.1 := kv.2]> (moved l')
  end.

Lemma moved_None (l : list (bytes * bytes)) (k : bytes) :
  (forall kv, kv ∈ l -> pre_of kv.1 <> k) -> moved l !! k = None.
Proof.
  induction l as [|kv l IH]; intros Hl; simpl; [done|].
  rewrite lookup_insert_ne by (apply Hl; set_solver). apply IH. intros; apply Hl; set_solver.
Qed.

Lemma moved_not_pre (l : list (bytes * bytes)) (k : bytes) :
  has_prefix preAbnormalPrefix k = false -> moved l !! k = None.
Proof. intros Hk. apply moved_None. intros kv _ <-. by rewrite pre_of_pre in Hk. Qed.

Lemma moved_pre_of (l : list (bytes * bytes)) (k v : bytes) :
  (forall kv, kv ∈ l -> has_prefix curAbnormalPrefix kv.1 = true) -> NoDup l.*1 ->
  has_prefix curAbnormalPrefix k = true ->
  moved l !! pre_of k = Some v <-> (k, v) ∈ l.
Proof.
  induction l as [|[k' v'] l IH]; intros Hl Hnd Hk; simpl.
  - rewrite lookup_empty. split; [discriminate|set_solver].
  - apply NoDup_cons in Hnd as [Hk' Hnd].
    assert (Hc : has_prefix curAbnormalPrefix k' = true) by (apply (Hl (k', v')); set_solver).
    rewrite lookup_insert, elem_of_cons. case_decide as E.
    + apply pre_of_inj in E as <-; [|done|done]. split.
      * intros [= Hv]. subst. auto.
      * intros [[= Hv]|Hin]; [by subst|]. exfalso. apply Hk'.
        apply list_elem_of_fmap. exists (k', v). auto.
    + rewrite IH by (done || (intros; apply Hl; set_solver)).
      split; [auto|]. intros [[= -> ->]|]; [done|auto].
Qed.

Lemma fold_del_spec (l : list (bytes * bytes)) (d : SnapDB) :
  (forall kv, kv ∈ l -> kv.1 ∉ faulty d) ->
  exists d', fold_se del_entry l d = (Ok tt, d') /\ faulty d' = faulty d /\
    branchDB d' = branchDB d /\
    forall k, baseDB d' !! k = if decide (k ∈ l.*1) then None else baseDB d !! k.
Proof.
  revert d; induction l as [|kv l IH]; intros d Hf; simpl.
  - exists d. repeat split. all: intros k; by rewrite decide_False by set_solver.
  - rewrite (se_bind_Ok _ _ _ tt (set_base (delete kv.1 (baseDB d)) d))
      by (apply DelBaseDB_ok, Hf; set_solver).
    destruct (IH (set_base (delete kv.1 (baseDB d)) d)) as (d' & Hr & Hf' & Hb' & Hk).
    { intros kv' Hkv'. apply Hf. set_solver. }
    exists d'. rewrite Hr, Hf', Hb'. autorewrite with slashing_rw.
    repeat split. intros k. rewrite Hk. autorewrite with slashing_rw.
    rewrite lookup_delete. repeat case_decide; first [done | set_solver].
Qed.

Lemma fold_move_spec (l : list (bytes * bytes)) (d : SnapDB) :
  (forall kv, kv ∈ l -> has_prefix curAbnormalPrefix kv.1 = true /\
                        (kv.1 ∉ faulty d) /\ (pre_of kv.1 ∉ faulty d)) ->
  NoDup l.*1 ->
  exists d', fold_se move_entry l d = (Ok tt, d') /\ faulty d' = faulty d /\
    branchDB d' = branchDB d /\
    forall k, baseDB d' !! k =
      match moved l !! k with
      | Some v => Some v
      | None => if decide (k ∈ l.*1) then None else baseDB d !! k
      end.
Proof.
  revert d; induction l as [|[k0 v0] l IH]; intros d Hl Hnd; simpl.
  - exists d. repeat split. all: intros k; by rewrite lookup_empty, decide_False by set_solver.
  - apply NoDup_cons in Hnd as [Hk0 Hnd].
    destruct (Hl (k0, v0)) as (Hc0 & Hf0 & Hp0); [set_solver|]. simpl in *.
    rewrite (se_bind_Ok _ _ _ tt (set_base (<[pre_of k0 := v0]> (delete k0 (baseDB d))) d)).
    2:{ unfold move_entry. simpl. rewrite (se_bind_Ok _ _ _ tt (set_base (delete k0 (baseDB d)) d))
          by (by apply DelBaseDB_ok). by rewrite PutBaseDB_ok. }
    destruct (IH (set_base (<[pre_of k0 := v0]> (delete k0 (baseDB d))) d))
      as (d' & Hr & Hf' & Hb' & Hk); [intros kv Hkv; apply Hl; set_solver|done|].
    exists d'. rewrite Hr, Hf', Hb'. autorewrite with slashing_rw.
    repeat split. intros k. rewrite Hk. autorewrite with slashing_rw.
    rewrite !lookup_insert. destruct (decide (pre_of k0 = k)) as [<-|E].
    + rewrite moved_None.
      2:{ intros [k' v'] Hin E. apply pre_of_inj in E; [|by apply (Hl (k', v')); set_solver|done].
          apply Hk0. apply list_elem_of_fmap. exists (k', v'). simpl; auto. }
      rewrite decide_False; [done|].
      intros ([k' v'] & Ek & Hin)%list_elem_of_fmap. simpl in Ek. subst k'.
      destruct (Hl (pre_of k0, v')) as [Hc _]; [set_solver|]. simpl in Hc. by rewrite pre_of_not_cur in Hc.
    + destruct (moved l !! k); [done|].
      rewrite lookup_delete. repeat case_decide; first [done | set_solver].
Qed.

(** The store after the first walk: the previous window is empty. *)
Lemma switch_phase1 (d : SnapDB) (l : list (bytes * bytes)) :
  walk_of preAbnormalPrefix d l -> counts_writable d ->
  exists d1, fold_se del_entry l d = (Ok tt, d1) /\
    faulty d1 = faulty d /\ branchDB d1 = branchDB d /\
    forall k, baseDB d1 !! k =
      if has_prefix preAbnormalPrefix k then None else baseDB d !! k.
Proof.
  intros Hl Hw. destruct (fold_del_spec l d)
    as (d1 & Hr & Hf & Hb & Hk).
  { intros [k v] Hin Hf. apply (walk_of_spec _ _ _ Hl) in Hin as [Hp _].
    apply Hw in Hf as [_ Hf]. simpl in Hf. congruence. }
  exists d1. repeat split; [done..|]. intros k. rewrite Hk.
  case_decide as Hin.
  - apply (walk_of_keys _ _ _ Hl) in Hin as [-> _]. done.
  - destruct (has_prefix preAbnormalPrefix k) eqn:Hp; [|done].
    destruct (baseDB d !! k) eqn:Hv; [|done].
    exfalso. apply Hin, (walk_of_keys _ _ _ Hl). eauto.
Qed.

(** The second walk over a store whose previous window is empty. *)
Lemma switch_phase2 (d1 : SnapDB) (l : list (bytes * bytes)) :
  walk_of curAbnormalPrefix d1 l -> counts_writable d1 ->
  (forall k, has_prefix preAbnormalPrefix k = true -> baseDB d1 !! k = None) ->
  exists d2, fold_se move_entry l d1 = (Ok tt, d2) /\
    faulty d2 = faulty d1 /\ branchDB d2 = branchDB d1 /\
    forall k, baseDB d2 !! k = rotated (baseDB d1) k.
Proof.
  intros Hl Hw Hpre.
  destruct (fold_move_spec l d1) as (d2 & Hr & Hf & Hb & Hk).
  { intros [k v] Hin. apply (walk_of_spec _ _ _ Hl) in Hin as [Hc _]. simpl.
    split; [done|]. split; intros Hf%Hw; simpl in Hf.
    - destruct Hf as [Hf _]. congruence.
    - destruct Hf as [_ Hf]. by rewrite pre_of_pre in Hf. }
  { apply (walk_of_NoDup _ _ _ Hl). }
  exists d2. repeat split; [done..|]. intros k. rewrite Hk. unfold rotated.
  destruct (has_prefix curAbnormalPrefix k) eqn:Hc.
  - rewrite moved_not_pre by auto with slashing.
    case_decide as Hin; [done|].
    destruct (baseDB d1 !! k) eqn:Hv; [|done].
    exfalso. apply Hin, (walk_of_keys _ _ _ Hl). eauto.
  - destruct (has_prefix preAbnormalPrefix k) eqn:Hp.
    + rewrite decide_False by (intros []%(walk_of_keys _ _ _ Hl); congruence).
      rewrite Hpre by done.
      apply has_prefix_spec in Hp as [s ->]. rewrite drop_prefix_app.
      rewrite <- pre_of_app.
      destruct (moved _ !! _) as [v|] eqn:Hm.
      * apply moved_pre_of in Hm; [|intros [] []%(walk_of_spec _ _ _ Hl); done
                                   |apply (walk_of_NoDup _ _ _ Hl)|apply has_prefix_app].
        by apply (walk_of_spec _ _ _ Hl) in Hm as [_ ->].
      * destruct (baseDB d1 !! (curAbnormalPrefix ++ s)) as [v|] eqn:Hv; [|done].
        assert (Hin : (curAbnormalPrefix ++ s, v) ∈ l)
          by (apply (walk_of_spec _ _ _ Hl); auto using has_prefix_app).
        apply moved_pre_of in Hin; [congruence|intros [] []%(walk_of_spec _ _ _ Hl); done
                                   |apply (walk_of_NoDup _ _ _ Hl)|apply has_prefix_app].
    + rewrite moved_not_pre by done.
      rewrite decide_False by (intros []%(walk_of_keys _ _ _ Hl); congruence). done.
Qed.

Lemma rotated_phase1 (m m1 : gmap bytes bytes) (k : bytes) :
  (forall k, m1 !! k = if has_prefix preAbnormalPrefix k then None else m !! k) ->
  rotated m1 k = rotated m k.
Proof.
  intros Hm. unfold rotated. rewrite !Hm.
  destruct (has_prefix curAbnormalPrefix k) eqn:Hc; [done|].
  destruct (has_prefix preAbnormalPrefix k) eqn:Hp; [|done].
  by rewrite cur_not_pre by apply has_prefix_app.
Qed.

Lemma move_entry_preserves_wf (k v : bytes) :
  count_entry_wf curAbnormalPrefix k v -> has_prefix curAbnormalPrefix k = true ->
  se_preserves counts_wf (move_entry (k, v)).
Proof.
  intros Hwf Hc. unfold move_entry. simpl.
  apply se_preserves_bind; [apply counts_wf_DelBaseDB|intros _].
  destruct (count_entry_wf_inv _ _ _ Hwf Hc) as ((id & -> & Hl) & Hv).
  apply counts_wf_PutBaseDB.
  - intros Hp. by rewrite pre_of_not_cur in Hp.
  - rewrite pre_of_app. by apply count_entry_wf_app.
Qed.

Lemma switchEpoch_in_rotated (enum : bytes -> SnapDB -> list (bytes * bytes)) (d : SnapDB) (h : bytes) :
  enum_ok enum -> counts_writable d ->
  exists d', switchEpoch_in enum h d = (Ok tt, d') /\ faulty d' = faulty d /\
    branchDB d' = branchDB d /\ forall k, baseDB d' !! k = rotated (baseDB d) k.
Proof.
  intros He Hw. destruct (switch_phase1 d _ (He _ d) Hw) as (d1 & H1 & F1 & B1 & K1).
  destruct (switch_phase2 d1 _ (He _ d1)) as (d2 & H2 & F2 & B2 & K2).
  { intros k. rewrite F1. apply Hw. }
  { intros k Hp. by rewrite K1, Hp. }
  exists d2. unfold switchEpoch_in, WalkBaseDB_in.
  rewrite (se_bind_Ok _ _ _ tt d1) by exact H1. split; [exact H2|].
  split; [congruence|]. split; [congruence|].
  intros k. rewrite K2. by apply rotated_phase1.
Qed.

Lemma switchEpoch_rotated (d : SnapDB) (h : bytes) :
  counts_writable d ->
  exists d', switchEpoch h d = (Ok tt, d') /\ faulty d' = faulty d /\
    branchDB d' = branchDB d /\ forall k, baseDB d' !! k = rotated (baseDB d) k.
Proof. apply (switchEpoch_in_rotated walk_entries), walk_entries_enum_ok. Qed.

Lemma switchEpoch_wf (h : bytes) : se_preserves counts_wf (switchEpoch h).
Proof.
  unfold switchEpoch. apply se_preserves_bind; [|intros _];
    apply WalkBaseDB_preserves; intros d Hd; apply se_preserves_fold.
  - intros kv _. apply counts_wf_DelBaseDB.
  - intros [k v] [Hc Hv]%walk_entries_spec. apply move_entry_preserves_wf; [|done].
    by apply (proj1 (proj1 Hd _ _ Hv)).
Qed.



Lemma counts_writable_curKey (d : SnapDB) (id : bytes) :
  counts_writable d -> curKey id ∉ faulty d.
Proof. intros Hw Hf. apply Hw in Hf as [Hf _]. by rewrite curKey_has_prefix in Hf. Qed.

Lemma count_at_rotated_pre (m : gmap bytes bytes) (d : SnapDB) (id : bytes) :
  (forall k, baseDB d !! k = rotated m k) ->
  count_at preAbnormalPrefix d id = count_at curAbnormalPrefix (set_base m d) id.
Proof.
  intros Hk. unfold count_at. rewrite Hk. unfold rotated.
  pose proof (preKey_not_cur id) as Hn. unfold preKey in Hn.
  by rewrite Hn, has_prefix_app, drop_prefix_app.
Qed.

Section ConfirmedTheorems.
Context `{SigRecover}.

Lemma Confirmed_ok (cfg : Config) (d : SnapDB) (block : Block) (id : bytes) :
  parseNodeId (bHeader block) = Ok id -> counts_wf d -> counts_writable d ->
  exists d1,
    (if isSwitchBlock cfg (NumberU64 block)
     then faulty d1 = faulty d /\ branchDB d1 = branchDB d /\
          forall k, baseDB d1 !! k = rotated (baseDB d) k
     else d1 = d) /\
    counts_wf d1 /\ Confirmed cfg block d = (Ok tt, incr_count d1 id).
Proof.
  intros Hid Hwf Hw. unfold Confirmed.
  destruct (isSwitchBlock cfg (NumberU64 block)).
  - destruct (switchEpoch_rotated d (bHash block) Hw) as (d1 & Hs & F & B & K).
    assert (Hwf1 : counts_wf d1) by (eapply switchEpoch_wf; eauto).
    exists d1. split; [done|]. split; [done|].
    rewrite (se_bind_Ok _ _ _ tt d1 Hs). apply setBlockAmount_incr; [done..|].
    rewrite F. by apply counts_writable_curKey.
  - exists d. split; [done|]. split; [done|].
    apply setBlockAmount_incr; [done..|by apply counts_writable_curKey].
Qed.

End ConfirmedTheorems.

(** The second walk stops at the first entry whose previous-round key
    cannot be written: the entries before it are moved, its own
    current-round key is already deleted, and its previous-round key is
    as it was. *)
Lemma fold_move_stops (l1 l2 : list (bytes * bytes)) (k v : bytes) (d : SnapDB) :
  (forall kv, kv ∈ l1 -> has_prefix curAbnormalPrefix kv.1 = true /\
                         (kv.1 ∉ faulty d) /\ (pre_of kv.1 ∉ faulty d)) ->
  NoDup l1.*1 -> k ∉ l1.*1 -> has_prefix curAbnormalPrefix k = true ->
  k ∉ faulty d -> pre_of k ∈ faulty d ->
  exists d', fold_se move_entry (l1 ++ (k, v) :: l2) d = (Err ErrStore, d') /\
    baseDB d' !! k = None /\ baseDB d' !! pre_of k = baseDB d !! pre_of k.
Proof.
  intros Hl1 Hnd Hk Hc Hkf Hpf.
  destruct (fold_move_spec l1 d Hl1 Hnd) as (d2 & H2 & F2 & B2 & K2).
  exists (set_base (delete k (baseDB d2)) d2).
  rewrite fold_se_app, (se_bind_Ok _ _ _ tt d2) by exact H2. cbn [fold_se].
  rewrite (se_bind_Err _ _ _ ErrStore (set_base (delete k (baseDB d2)) d2)).
  2:{ unfold move_entry. cbn.
      rewrite (se_bind_Ok _ _ _ tt (set_base (delete k (baseDB d2)) d2))
        by (apply DelBaseDB_ok; by rewrite F2).
      apply PutBaseDB_fail. cbn. by rewrite F2. }
  split; [done|]. autorewrite with slashing_rw. split; [by rewrite lookup_delete_eq|].
  rewrite lookup_delete_ne by (intros E; rewrite E, pre_of_not_cur in Hc; discriminate).
  rewrite K2, moved_None.
  - rewrite decide_False; [done|]. intros ([k' v'] & Ek & Hin)%list_elem_of_fmap.
    cbn in Ek; subst k'. destruct (Hl1 _ Hin) as [Hc' _]. cbn in Hc'.
    by rewrite pre_of_not_cur in Hc'.
  - intros [k' v'] Hin E. apply pre_of_inj in E; [|by apply (Hl1 _ Hin)|done].
    cbn in E; subst k'. apply Hk, list_elem_of_fmap. by exists (k, v').
Qed.

(** ** Theorems *)

(** C1: when the count keys are writable, [switchEpoch]
    succeeds and implements the rotation [rotated]: afterwards no
    current-round key is left, every previous-round key [SlashPb ++ id]
    holds what [SlashCb ++ id] held before (the previous window's old
    entries are gone), and every other key and the branch layer are
    unchanged. *)
Theorem switchEpoch_spec (d : SnapDB) (h : bytes) :
  counts_writable d ->
  exists d', switchEpoch h d = (Ok tt, d') /\ faulty d' = faulty d /\
    branchDB d' = branchDB d /\ forall k, baseDB d' !! k = rotated (baseDB d) k.
Proof. apply switchEpoch_rotated. Qed.

(** C30: [switchEpoch] preserves the count store
    invariant, whether it succeeds or fails part-way. *)
Theorem switchEpoch_preserves_wf (h : bytes) : se_preserves counts_wf (switchEpoch h).
Proof. apply switchEpoch_wf. Qed.

(** C26: the rotation is not atomic.  Take any store
    where a validator has a current-round count and no previous-round
    count, and the only key the store refuses to write is that
    validator's previous-round key: [switchEpoch] returns the store
    error, and the validator's count is in neither window, because its
    current-round key was deleted before the failing write and the store
    keeps the deletion. *)
Theorem switchEpoch_partial (d : SnapDB) (h k v : bytes) :
  has_prefix curAbnormalPrefix k = true -> baseDB d !! k = Some v ->
  baseDB d !! pre_of k = None -> faulty d = {[pre_of k]} ->
  exists d', switchEpoch h d = (Err ErrStore, d') /\
    baseDB d' !! k = None /\ baseDB d' !! pre_of k = None.
Proof.
  intros Hc Hv Hp Hf.
  assert (Hw : forall k', k' ∈ faulty d -> k' = pre_of k) by (rewrite Hf; set_solver).
  destruct (fold_del_spec (walk_entries preAbnormalPrefix d) d) as (d1 & H1 & F1 & B1 & K1).
  { intros [k' v'] [_ Hin]%walk_entries_spec Hk'%Hw. cbn in Hk'. subst k'. congruence. }
  assert (Hin : (k, v) ∈ walk_entries curAbnormalPrefix d1).
  { apply walk_entries_spec. split; [done|]. rewrite K1, decide_False; [done|].
    intros [Hpre _]%walk_entries_keys. by rewrite cur_not_pre in Hpre. }
  apply list_elem_of_split in Hin as (l1 & l2 & Hl).
  pose proof (walk_entries_NoDup curAbnormalPrefix d1) as Hnd.
  rewrite Hl, fmap_app in Hnd. cbn in Hnd. apply NoDup_app in Hnd as (Hnd1 & Hdis & _).
  destruct (fold_move_stops l1 l2 k v d1) as (d' & Hm & Hk' & Hpk); try done.
  - intros [k' v'] Hin'.
    assert (Hc' : has_prefix curAbnormalPrefix k' = true).
    { apply (walk_entries_spec curAbnormalPrefix d1 k' v'). rewrite Hl. set_solver. }
    cbn. rewrite F1. split; [done|]. split; intros E%Hw.
    + subst k'. by rewrite pre_of_not_cur in Hc'.
    + apply pre_of_inj in E; [|done|done]. subst k'.
      apply (Hdis k); [apply list_elem_of_fmap; by exists (k, v')|left].
  - intros Hk1. by apply (Hdis k Hk1); left.
  - rewrite F1. intros E%Hw. rewrite E, pre_of_not_cur in Hc. discriminate.
  - rewrite F1, Hf. set_solver.
  - exists d'. unfold switchEpoch, WalkBaseDB. rewrite (se_bind_Ok _ _ _ tt d1) by exact H1.
    rewrite Hl. split; [exact Hm|]. split; [done|]. rewrite Hpk, K1. by case_decide.
Qed.

(** C15: when the count keys are writable, the
    rotation does not depend on the order in which the store's walks
    enumerate the windows: any enumeration of the same entries gives the
    same store as the store's own key order.  (With a failing write the
    half-rotated store depends on the order.) *)
Theorem switchEpoch_walk_order (enum : bytes -> SnapDB -> list (bytes * bytes)) (d : SnapDB) (h : bytes) :
  enum_ok enum -> counts_writable d -> switchEpoch_in enum h d = switchEpoch h d.
Proof.
  intros He Hw.
  destruct (switchEpoch_in_rotated enum d h He Hw) as (d1 & -> & F1 & B1 & K1).
  destruct (switchEpoch_rotated d h Hw) as (d2 & -> & F2 & B2 & K2).
  f_equal. apply SnapDB_ext; [congruence|congruence|]. intros k. by rewrite K1, K2.
Qed.

Section ConfirmedClaims.
Context `{SigRecover}.

(** C10: confirming a block signed by [id] on a well-formed,
    writable store succeeds; at the first block of a round (block 1
    excepted) the windows are rotated first, then [id]'s current-round
    count is incremented. *)
Theorem Confirmed_spec (cfg : Config) (d : SnapDB) (block : Block) (id : bytes) :
  parseNodeId (bHeader block) = Ok id -> counts_wf d -> counts_writable d ->
  exists d1,
    (if isSwitchBlock cfg (NumberU64 block)
     then faulty d1 = faulty d /\ branchDB d1 = branchDB d /\
          forall k, baseDB d1 !! k = rotated (baseDB d) k
     else d1 = d) /\
    counts_wf d1 /\ Confirmed cfg block d = (Ok tt, incr_count d1 id).
Proof. apply Confirmed_ok. Qed.

(** C11: at a round's first block, the signer's
    current count restarts at 1 and every validator's previous-round count
    is its current-round count before the block. *)
Corollary Confirmed_switch_counts (cfg : Config) (d : SnapDB) (block : Block) (id : bytes) :
  isSwitchBlock cfg (NumberU64 block) = true ->
  parseNodeId (bHeader block) = Ok id -> counts_wf d -> counts_writable d ->
  exists d', Confirmed cfg block d = (Ok tt, d') /\
    count_at curAbnormalPrefix d' id = 1 /\
    forall x, count_at preAbnormalPrefix d' x = count_at curAbnormalPrefix d x.
Proof.
  intros Hsw Hid Hwf Hw.
  destruct (Confirmed_ok cfg d block id Hid Hwf Hw) as (d1 & Hd1 & _ & HC).
  rewrite Hsw in Hd1. destruct Hd1 as (_ & _ & K).
  exists (incr_count d1 id). split; [done|]. split.
  - rewrite count_at_incr_eq. unfold count_at. rewrite K. unfold rotated.
    by rewrite has_prefix_app.
  - intros x. rewrite count_at_incr_ne by (intros E; by apply app_inj_1 in E as [? _]).
    rewrite (count_at_rotated_pre (baseDB d) d1 x K). reflexivity.
Qed.

(** C33: at a round's first block, a failing
    rotation is returned by [Confirmed] and the block is not counted: the
    store is left as the failed rotation left it. *)
Theorem Confirmed_switch_error (cfg : Config) (d d' : SnapDB) (block : Block) (e : Error) :
  isSwitchBlock cfg (NumberU64 block) = true -> switchEpoch (bHash block) d = (Err e, d') ->
  Confirmed cfg block d = (Err e, d').
Proof. intros Hsw Hs. unfold Confirmed. rewrite Hsw. by apply se_bind_Err. Qed.

End ConfirmedClaims.

(** ** Witnesses *)

(** A store with a current count for [id7], a previous count for another
    validator, and an unrelated key. *)
Definition db_w : SnapDB :=
  mkSnapDB {[curKey id7 := rlp_encode_u16 3; preKey (repeat Byte.x08 64) := rlp_encode_u16 2;
             bstr "other" := [Byte.x01]]} ∅ ∅.

(** Block 251, the first block of the second 250-block round, signed by
    [id7]. *)
Definition blk251 : Block := mkBlock (mkHeader 251 (Extra hdr7) []) [Byte.x01].

Lemma switchEpoch_spec_witness :
  exists d', switchEpoch [] db_w = (Ok tt, d') /\ faulty d' = faulty db_w /\
    branchDB d' = branchDB db_w /\ forall k, baseDB d' !! k = rotated (baseDB db_w) k.
Proof. apply switchEpoch_spec. apply (bool_decide_unpack _). vm_compute. reflexivity. Defined.

Lemma Confirmed_spec_witness :
  exists d1,
    (if isSwitchBlock mainnet (NumberU64 blk251)
     then faulty d1 = faulty db_w /\ branchDB d1 = branchDB db_w /\
          forall k, baseDB d1 !! k = rotated (baseDB db_w) k
     else d1 = db_w) /\
    counts_wf d1 /\ @Confirmed test_recover mainnet blk251 db_w = (Ok tt, incr_count d1 id7).
Proof.
  apply (@Confirmed_spec test_recover); [reflexivity | ..];
    apply (bool_decide_unpack _); vm_compute; reflexivity.
Defined.

Lemma Confirmed_switch_counts_witness :
  exists d', @Confirmed test_recover mainnet blk251 db_w = (Ok tt, d') /\
    count_at curAbnormalPrefix d' id7 = 1 /\
    forall x, count_at preAbnormalPrefix d' x = count_at curAbnormalPrefix db_w x.
Proof.
  apply (@Confirmed_switch_counts test_recover); [reflexivity | reflexivity | ..];
    apply (bool_decide_unpack _); vm_compute; reflexivity.
Defined.

(** The store of [switchEpoch_partial]: the previous-round key of [id7]
    cannot be written. *)
Definition db_stuck : SnapDB := mkSnapDB {[curKey id7 := rlp_encode_u16 3]} ∅ {[preKey id7]}.

Lemma switchEpoch_partial_witness :
  exists d', switchEpoch [] db_stuck = (Err ErrStore, d') /\
    baseDB d' !! curKey id7 = None /\ baseDB d' !! pre_of (curKey id7) = None.
Proof. apply (switchEpoch_partial db_stuck [] (curKey id7) (rlp_encode_u16 3)); vm_compute; reflexivity. Defined.

Lemma Confirmed_switch_error_witness :
  @Confirmed test_recover mainnet blk251 db_stuck = (Err ErrStore, mkSnapDB ∅ ∅ {[preKey id7]}).
Proof. apply (@Confirmed_switch_error test_recover); vm_compute; reflexivity. Defined.

(** The walks in descending key order. *)
Definition walk_desc (prefix : bytes) (db : SnapDB) : list (bytes * bytes) :=
  reverse (walk_entries prefix db).

Lemma switchEpoch_walk_order_witness : switchEpoch_in walk_desc [] db_w = switchEpoch [] db_w.
Proof.
  apply switchEpoch_walk_order; [intros p db; apply reverse_Permutation|].
  apply (bool_decide_unpack _). vm_compute. reflexivity.
Defined.
