(* ===== verification/Penalty.v ===== *)
(** * Penalty: [calcSlashAmount] (lines 332-338).

    The amount is the sum of the four stake components divided by the
    rate with [big.Int.Div] (Euclidean division, which is floor division
    on the non-negative sums of a candidate's stake).  The theorems: the
    floor characterisation, the bounds, the monotonicity in the rate, and
    the concrete values of the specification (§8). *)

From Stdlib Require Import ZArith Lia.
From S2P Require Import Prelude Config Chain.
Local Open Scope Z_scope.

Definition stakeSum (c : Candidate) : Z :=
  Released c + ReleasedHes c + RestrictingPlan c + RestrictingPlanHes c.

Definition calcSlashAmount (c : Candidate) (rate : Z) : Z := stakeSum c / rate.

(** The stake components of a candidate are non-negative. *)
Definition stake_nonneg (c : Candidate) : Prop :=
  0 <= Released c /\ 0 <= ReleasedHes c /\ 0 <= RestrictingPlan c /\ 0 <= RestrictingPlanHes c.

(** A candidate with the given stake sum in its first component. *)
Definition candidate_with (id : bytes) (sum : Z) : Candidate :=
  mkCandidate id [] sum 0 0 0.

Section Theorems.

(** The amount is the floor of the stake sum
    divided by the rate: the remainder below one rate unit is not
    slashed. *)
Theorem calcSlashAmount_floor (c : Candidate) (rate : Z) :
  0 < rate ->
  calcSlashAmount c rate * rate <= stakeSum c < (calcSlashAmount c rate + 1) * rate.
Proof.
  intros Hr. unfold calcSlashAmount.
  pose proof (Z.mul_div_le (stakeSum c) rate Hr).
  pose proof (Z.mod_pos_bound (stakeSum c) rate Hr).
  pose proof (Z.div_mod (stakeSum c) rate ltac:(lia)). lia.
Qed.

(** For a candidate with a non-negative stake, the
    amount is non-negative and at most the stake. *)
Theorem calcSlashAmount_bounds (c : Candidate) (rate : Z) :
  stake_nonneg c -> 0 < rate -> 0 <= calcSlashAmount c rate <= stakeSum c.
Proof.
  unfold stake_nonneg, calcSlashAmount, stakeSum. intros Hc Hr. split.
  - apply Z.div_pos; lia.
  - apply Z.div_le_upper_bound; nia.
Qed.

(** A larger rate slashes less. *)
Lemma calcSlashAmount_antimono (c : Candidate) (r1 r2 : Z) :
  stake_nonneg c -> 0 < r1 <= r2 -> calcSlashAmount c r2 <= calcSlashAmount c r1.
Proof.
  unfold stake_nonneg, calcSlashAmount, stakeSum. intros Hc Hr.
  apply Z.div_le_compat_l; lia.
Qed.

(** The values of the specification's penalty
    arithmetic. *)
Example calcSlashAmount_examples :
  calcSlashAmount (candidate_with [] 1000) 20 = 50 /\
  calcSlashAmount (candidate_with [] 999) 20 = 49 /\
  calcSlashAmount (candidate_with [] 0) blockAmountLowSlashing = 0.
Proof. repeat split; reflexivity. Qed.

End Theorems.

(** ** Witnesses *)

Lemma calcSlashAmount_floor_witness :
  calcSlashAmount (candidate_with [] 999) 20 * 20 <= stakeSum (candidate_with [] 999) <
  (calcSlashAmount (candidate_with [] 999) 20 + 1) * 20.
Proof. apply calcSlashAmount_floor. lia. Defined.

Lemma calcSlashAmount_bounds_witness :
  0 <= calcSlashAmount (mkCandidate [] [] 100 20 30 7) blockAmountHighSlashing <=
  stakeSum (mkCandidate [] [] 100 20 30 7).
Proof.
  apply calcSlashAmount_bounds; [unfold stake_nonneg; simpl; lia | reflexivity].
Defined.
