(* ===== verification/LowPerf.v ===== *)
(** * LowPerf: the under-production policy ([EndBlock], lines 72-119;
      [GetPreNodeAmount], lines 217-242; [isAbnormal], lines 315-320).

    At the election block of every round after the first, [EndBlock] reads
    every previous-round count, asks the ledger for the current validators,
    and for each validator decides a penalty:
    - no count: rate [blockAmountHighSlashing], validator kept;
    - a count below [ConsensusSize / ConsValidatorNum] (abnormal) and in
      [(blockAmountHigh, blockAmountLow]]: rate [blockAmountLowSlashing],
      validator kept;
    - an abnormal count at most [blockAmountHigh]: rate
      [blockAmountHighSlashing], validator removed;
    - otherwise no penalty.
    The decision of the loop body is [slashDecision]; [low_slashes] is the
    list of ledger calls the loop makes, and [EndBlock_calls] proves that
    [EndBlock] performs exactly these calls, in the validators' order;
    [EndBlock_abort] and [EndBlock_read_errors] cover its error returns.
    The abstract policy of the specification (§4.3) is [spec_tier]:
    [slashDecision_present] proves the code implements it for every
    validator with a count, [slashDecision_absent] that it departs from it
    for a validator without one, and [slashDecision_tiebreaks] gives the
    specification's tie-breaks for every configuration. *)

From Stdlib Require Import ZArith Lia String.
From S2P Require Import Prelude Config Codec Store Chain RoundCounter Penalty.
Import RLP Keys.
Local Open Scope Z_scope.

(** ** Reading the previous round *)

(** The body of the walk: decode the count, recover the NodeID from the
    key, record it. *)
Definition pre_amount_entry (kv : bytes * bytes) (res : gmap bytes Z) : result (gmap bytes Z) :=
  amount <-? rlp_decode_u16 kv.2 ;;
  nodeId <-? getNodeId preAbnormalPrefix kv.1 ;;
  Ok (<[nodeId := amount]> res).

Definition GetPreNodeAmount (d : SnapDB) : result (gmap bytes Z) :=
  fold_result pre_amount_entry (walk_entries preAbnormalPrefix d) ∅.

(** [GetPreNodeAmount] over a store whose walk enumerates by [enum]. *)
Definition GetPreNodeAmount_in (enum : bytes -> SnapDB -> list (bytes * bytes)) (d : SnapDB)
    : result (gmap bytes Z) :=
  fold_result pre_amount_entry (enum preAbnormalPrefix d) ∅.

(** ** The policy *)

(** [uint64(amount) < xcom.ConsensusSize / xcom.ConsValidatorNum]. *)
Definition isAbnormal (cfg : Config) (amount : Z) : bool :=
  amount <? ConsensusSize cfg / ConsValidatorNum cfg.

(** The loop body's decision for one validator: [(isSlash, rate, isDelete)]. *)
Definition slashDecision (cfg : Config) (res : gmap bytes Z) (nodeId : bytes) : bool * Z * bool :=
  match res !! nodeId with
  | Some amount =>
      if isAbnormal cfg amount then
        if (amount <=? blockAmountLow) && (blockAmountHigh <? amount)
        then (true, blockAmountLowSlashing, false)
        else if amount <=? blockAmountHigh
        then (true, blockAmountHighSlashing, true)
        else (false, 0, false)
      else (false, 0, false)
  | None => (true, blockAmountHighSlashing, false)
  end.

(** The ledger call the loop makes for one validator, if any:
    [(nodeId, amount, needDelete)]. *)
Definition low_slash (cfg : Config) (res : gmap bytes Z) (v : Candidate)
    : option (bytes * Z * bool) :=
  let '(isSlash, rate, isDelete) := slashDecision cfg res (NodeId v) in
  if isSlash && (0 <? rate) then Some (NodeId v, calcSlashAmount v rate, isDelete) else None.

Definition low_slashes (cfg : Config) (res : gmap bytes Z) (vs : list Candidate)
    : list (bytes * Z * bool) :=
  omap (low_slash cfg res) vs.

Section EndBlock.
Context `{StakingLedger L}.

(** [EndBlock] on the ledger state, reading the store [d]; [Ok tt] is the
    Go result [(true, nil)], [Err e] is [(false, e)]. *)
Definition EndBlock (cfg : Config) (d : SnapDB) (blockHash : bytes) (header : Header) : SE L unit :=
  if isRankingBlock cfg (Number header) then
    res <- se_lift (GetPreNodeAmount d) ;;
    validatorList <- se_gets (GetCandidateONRound blockHash (Number header)) ;;
    fold_se (fun validator =>
      let '(isSlash, rate, isDelete) := slashDecision cfg res (NodeId validator) in
      if isSlash && (0 <? rate) then
        SlashCandidates blockHash (Number header) (NodeId validator)
          (calcSlashAmount validator rate) isDelete LowRatio
      else se_ret tt) validatorList
  else se_ret tt.

(** Performing a list of low-ratio slashes in order. *)
Definition apply_slashes (blockHash : bytes) (number : Z) (calls : list (bytes * Z * bool)) : SE L unit :=
  fold_se (fun c => SlashCandidates blockHash number c.1.1 c.1.2 c.2 LowRatio) calls.

End EndBlock.

(** ** The specification's policy *)

Inductive Tier := NoPenalty | Mild | Severe.

(** §4.3: no count is the severe tier; an abnormal count in
    [(high, low]] is mild; an abnormal count at most [high] is severe. *)
Definition spec_tier (cfg : Config) (count : option Z) : Tier :=
  match count with
  | None => Severe
  | Some c =>
      if isAbnormal cfg c then
        if (blockAmountHigh <? c) && (c <=? blockAmountLow) then Mild
        else if c <=? blockAmountHigh then Severe else NoPenalty
      else NoPenalty
  end.

(** The rate and removal flag of a tier (§4.3: mild keeps the validator,
    severe removes it). *)
Definition tier_action (t : Tier) : option (Z * bool) :=
  match t with
  | NoPenalty => None
  | Mild => Some (blockAmountLowSlashing, false)
  | Severe => Some (blockAmountHighSlashing, true)
  end.

(** ** Lemmas *)

(** The count a well-formed value encodes. *)
Definition decoded (v : bytes) : Z :=
  match rlp_decode_u16 v with Ok n => n | Err _ => 0 end.

(** The entries a walk over the previous window records. *)
Definition pre_amounts (l : list (bytes * bytes)) : list (bytes * Z) :=
  (fun kv => (drop_prefix preAbnormalPrefix kv.1, decoded kv.2)) <$> l.

Definition pre_entry_wf (kv : bytes * bytes) : Prop :=
  (exists id, kv.1 = preAbnormalPrefix ++ id /\ length id = nodeIdLen) /\
  is_ok (rlp_decode_u16 kv.2) = true.

Lemma fold_pre_amount (l : list (bytes * bytes)) (m : gmap bytes Z) :
  (forall kv, kv ∈ l -> pre_entry_wf kv) ->
  fold_result pre_amount_entry l m =
  Ok (fold_left (fun m kv => <[kv.1 := kv.2]> m) (pre_amounts l) m).
Proof.
  revert m; induction l as [|[k v] l IH]; intros m Hl; [done|]. cbn [fold_result].
  destruct (Hl (k, v)) as [(id & Hk & Hlen) Hv]; [set_solver|]. cbn [fst snd] in *. subst k.
  unfold pre_amount_entry at 1. cbn [fst snd].
  destruct (rlp_decode_u16 v) as [n|] eqn:E; [|done]. cbn [rbind].
  rewrite getNodeId_app. unfold BytesID. rewrite decide_True by done. cbn [rbind].
  rewrite IH by (intros; apply Hl; set_solver).
  unfold pre_amounts. rewrite fmap_cons. cbn [fst snd fold_left].
  replace (decoded v) with n by (unfold decoded; by rewrite E). by rewrite drop_prefix_app.
Qed.

Lemma walk_pre_wf (d : SnapDB) (kv : bytes * bytes) :
  counts_wf d -> kv ∈ walk_entries preAbnormalPrefix d -> pre_entry_wf kv.
Proof.
  intros [Hm _] Hin. destruct kv as [k v].
  apply walk_entries_spec in Hin as [Hp Hv]. apply (count_entry_wf_inv _ _ _ (proj2 (Hm _ _ Hv)) Hp).
Qed.

Lemma pre_amounts_NoDup (d : SnapDB) :
  NoDup (pre_amounts (walk_entries preAbnormalPrefix d)).*1.
Proof.
  unfold pre_amounts. rewrite <- list_fmap_compose.
  change ((fst ∘ _) <$> _) with ((drop_prefix preAbnormalPrefix ∘ fst) <$> walk_entries preAbnormalPrefix d).
  rewrite list_fmap_compose. apply NoDup_fmap_2_strong; [|apply walk_entries_NoDup].
  intros k1 k2 [Hk1 _]%walk_entries_keys [Hk2 _]%walk_entries_keys.
  apply has_prefix_spec in Hk1 as [s1 ->]. apply has_prefix_spec in Hk2 as [s2 ->].
  rewrite !drop_prefix_app. by intros ->.
Qed.

Lemma low_slash_body `{StakingLedger L} (cfg : Config) (res : gmap bytes Z) (h : bytes) (n : Z)
    (v : Candidate) (s : L) :
  (let '(isSlash, rate, isDelete) := slashDecision cfg res (NodeId v) in
   if isSlash && (0 <? rate) then
     SlashCandidates h n (NodeId v) (calcSlashAmount v rate) isDelete LowRatio
   else se_ret tt) s =
  match low_slash cfg res v with
  | Some c => SlashCandidates h n c.1.1 c.1.2 c.2 LowRatio s
  | None => (Ok tt, s)
  end.
Proof.
  unfold low_slash. destruct (slashDecision cfg res (NodeId v)) as [[isSlash rate] isDelete].
  by destruct (isSlash && (0 <? rate)).
Qed.

(** ** Theorems *)

Lemma GetPreNodeAmount_ok (d : SnapDB) :
  counts_wf d ->
  exists m, GetPreNodeAmount d = Ok m /\
    forall id, m !! id = (fun _ => count_at preAbnormalPrefix d id) <$> baseDB d !! (preAbnormalPrefix ++ id).
Proof.
  intros Hwf. unfold GetPreNodeAmount.
  rewrite fold_pre_amount by (intros; eapply walk_pre_wf; eauto).
  eexists; split; [done|]. intros id. apply option_eq. intros a.
  rewrite lookup_fold_insert by apply pre_amounts_NoDup. rewrite lookup_empty, fmap_Some.
  unfold pre_amounts. rewrite list_elem_of_fmap. split.
  - intros [([k v] & [= Hid Ha] & Hin)|[_ ?]]; [|done].
    apply walk_entries_spec in Hin as [Hp Hv]. apply has_prefix_spec in Hp as [s ->].
    rewrite drop_prefix_app in Hid. subst s a. exists v. split; [done|].
    unfold count_at. by rewrite Hv.
  - intros (v & Hv & ->). left. exists (preAbnormalPrefix ++ id, v). split.
    + unfold count_at. rewrite Hv. cbn [fst snd]. by rewrite drop_prefix_app.
    + apply walk_entries_spec. auto using has_prefix_app.
Qed.

Section EndBlockTheorems.
Context `{StakingLedger L}.

Lemma EndBlock_apply (cfg : Config) (d : SnapDB) (h : bytes) (header : Header)
    (res : gmap bytes Z) (vs : list Candidate) (s : L) :
  isRankingBlock cfg (Number header) = true ->
  GetPreNodeAmount d = Ok res ->
  GetCandidateONRound h (Number header) s = Ok vs ->
  EndBlock cfg d h header s = apply_slashes h (Number header) (low_slashes cfg res vs) s.
Proof.
  intros Hr Hres Hvs. unfold EndBlock. rewrite Hr.
  rewrite (se_bind_Ok _ _ _ res s) by (by unfold se_lift; rewrite Hres).
  rewrite (se_bind_Ok _ _ _ vs s) by (by unfold se_gets; rewrite Hvs).
  apply fold_se_omap. intros v s'. apply low_slash_body.
Qed.

(** Outside ranking blocks [EndBlock] does nothing. *)
Lemma EndBlock_skip (cfg : Config) (d : SnapDB) (h : bytes) (header : Header) (s : L) :
  isRankingBlock cfg (Number header) = false -> EndBlock cfg d h header s = (Ok tt, s).
Proof. intros Hr. unfold EndBlock. by rewrite Hr. Qed.

End EndBlockTheorems.

Lemma slashDecision_tier (cfg : Config) (res : gmap bytes Z) (id : bytes) (c : Z) :
  res !! id = Some c ->
  slashDecision cfg res id =
  match tier_action (spec_tier cfg (Some c)) with
  | Some (rate, del) => (true, rate, del)
  | None => (false, 0, false)
  end.
Proof.
  intros Hc. unfold slashDecision, spec_tier. rewrite Hc.
  destruct (isAbnormal cfg c); [|done].
  rewrite andb_comm.
  destruct ((blockAmountHigh <? c) && (c <=? blockAmountLow)); [done|].
  by destruct (c <=? blockAmountHigh).
Qed.

Lemma slashDecision_none (cfg : Config) (res : gmap bytes Z) (id : bytes) :
  res !! id = None ->
  slashDecision cfg res id = (true, blockAmountHighSlashing, false) /\
  tier_action (spec_tier cfg None) = Some (blockAmountHighSlashing, true).
Proof. intros Hn. unfold slashDecision. by rewrite Hn. Qed.

(** ** Theorems *)

(** C12: on a well-formed store, reading the previous
    round succeeds and yields, for every NodeID, its previous-round count
    if the window has an entry for it, and nothing otherwise. *)
Theorem GetPreNodeAmount_spec (d : SnapDB) :
  counts_wf d ->
  exists m, GetPreNodeAmount d = Ok m /\
    forall id, m !! id = (fun _ => count_at preAbnormalPrefix d id) <$> baseDB d !! (preAbnormalPrefix ++ id).
Proof. apply GetPreNodeAmount_ok. Qed.

(** C16: on a well-formed store the counts read
    do not depend on the order in which the walk enumerates the previous
    window (the specification forbids relying on the scan order). *)
Theorem GetPreNodeAmount_walk_order (enum : bytes -> SnapDB -> list (bytes * bytes)) (d : SnapDB) :
  enum_ok enum -> counts_wf d -> GetPreNodeAmount_in enum d = GetPreNodeAmount d.
Proof.
  intros He Hwf. pose proof (He preAbnormalPrefix d) as Hp.
  unfold GetPreNodeAmount_in, GetPreNodeAmount.
  rewrite !fold_pre_amount; [| intros kv Hin; eapply walk_pre_wf; eauto
                             | intros kv Hin; eapply walk_pre_wf; [done|by rewrite <- Hp]].
  f_equal. apply fold_insert_perm; [|unfold pre_amounts; by rewrite Hp].
  unfold pre_amounts. rewrite Hp. apply pre_amounts_NoDup.
Qed.

Section EndBlockClaims.
Context `{StakingLedger L}.

(** C4: at a ranking block, once the previous counts and the
    validator list are read, [EndBlock] performs exactly the ledger calls
    [low_slashes], one per penalised validator, in the validators' order,
    and stops at the first failing call. *)
Theorem EndBlock_calls (cfg : Config) (d : SnapDB) (h : bytes) (header : Header)
    (res : gmap bytes Z) (vs : list Candidate) (s : L) :
  isRankingBlock cfg (Number header) = true ->
  GetPreNodeAmount d = Ok res ->
  GetCandidateONRound h (Number header) s = Ok vs ->
  EndBlock cfg d h header s = apply_slashes h (Number header) (low_slashes cfg res vs) s.
Proof. apply EndBlock_apply. Qed.

(** Outside the ranking blocks [EndBlock] reads
    nothing, calls nothing and succeeds. *)
Theorem EndBlock_not_ranking (cfg : Config) (d : SnapDB) (h : bytes) (header : Header) (s : L) :
  isRankingBlock cfg (Number header) = false -> EndBlock cfg d h header s = (Ok tt, s).
Proof. apply EndBlock_skip. Qed.

(** C34: at a ranking block, a failure to read the
    previous round, or else to read the validator list, is returned and
    the ledger is left untouched. *)
Theorem EndBlock_read_errors (cfg : Config) (d : SnapDB) (h : bytes) (header : Header)
    (res : gmap bytes Z) (e : Error) (s : L) :
  isRankingBlock cfg (Number header) = true ->
  (GetPreNodeAmount d = Err e -> EndBlock cfg d h header s = (Err e, s)) /\
  (GetPreNodeAmount d = Ok res -> GetCandidateONRound h (Number header) s = Err e ->
   EndBlock cfg d h header s = (Err e, s)).
Proof.
  intros Hr. unfold EndBlock. rewrite Hr. split.
  - intros He. apply se_bind_Err. unfold se_lift. by rewrite He.
  - intros Hres He. rewrite (se_bind_Ok _ _ _ res s) by (by unfold se_lift; rewrite Hres).
    apply se_bind_Err. unfold se_gets. by rewrite He.
Qed.

(** C24: a failing ledger call aborts the loop: the error is
    returned, the calls before it stay, and the validators after it are
    not slashed. *)
Theorem EndBlock_abort (cfg : Config) (d : SnapDB) (h : bytes) (header : Header)
    (res : gmap bytes Z) (vs : list Candidate) (pre post : list (bytes * Z * bool))
    (c : bytes * Z * bool) (e : Error) (s s1 s2 : L) :
  isRankingBlock cfg (Number header) = true ->
  GetPreNodeAmount d = Ok res ->
  GetCandidateONRound h (Number header) s = Ok vs ->
  low_slashes cfg res vs = pre ++ c :: post ->
  apply_slashes h (Number header) pre s = (Ok tt, s1) ->
  SlashCandidates h (Number header) c.1.1 c.1.2 c.2 LowRatio s1 = (Err e, s2) ->
  EndBlock cfg d h header s = (Err e, s2).
Proof.
  intros Hr Hres Hvs Hl Hpre Hc. rewrite (EndBlock_apply cfg d h header res vs s) by done.
  rewrite Hl. unfold apply_slashes. rewrite fold_se_app.
  rewrite (se_bind_Ok _ _ _ tt s1) by exact Hpre. cbn [fold_se].
  by apply se_bind_Err.
Qed.

End EndBlockClaims.

(** C23: the threshold tie-breaks of the
    specification, for every configuration: with [t = ConsensusSize /
    ConsValidatorNum], a count of [t] is normal and [t - 1] abnormal; when
    abnormal, a count equal to [blockAmountHigh] is fined at the severe
    rate with removal, a count equal to [blockAmountLow] at the mild rate
    without; a count above [blockAmountLow] is never penalised. *)
Theorem slashDecision_tiebreaks (cfg : Config) (res : gmap bytes Z) (id : bytes) :
  let t := ConsensusSize cfg / ConsValidatorNum cfg in
  isAbnormal cfg t = false /\ isAbnormal cfg (t - 1) = true /\
  (res !! id = Some blockAmountHigh -> blockAmountHigh < t ->
   slashDecision cfg res id = (true, blockAmountHighSlashing, true)) /\
  (res !! id = Some blockAmountLow -> blockAmountLow < t ->
   slashDecision cfg res id = (true, blockAmountLowSlashing, false)) /\
  (forall c, res !! id = Some c -> blockAmountLow < c -> slashDecision cfg res id = (false, 0, false)).
Proof.
  intros t. unfold isAbnormal. fold t. split; [apply Z.ltb_irrefl|].
  split; [apply Z.ltb_lt; lia|].
  unfold slashDecision, isAbnormal. fold t.
  split; [|split]; [intros -> Ht.. | intros c -> Hc];
    repeat match goal with
    | |- context [?a <? ?b] => destruct (Z.ltb_spec a b)
    | |- context [?a <=? ?b] => destruct (Z.leb_spec a b)
    end; unfold blockAmountLow, blockAmountHigh in *; try lia; reflexivity.
Qed.

(** C7: for a validator with a previous-round count,
    the code's decision is the specification's tier: no penalty, the mild
    rate keeping the validator, or the severe rate removing it. *)
Theorem slashDecision_present (cfg : Config) (res : gmap bytes Z) (id : bytes) (c : Z) :
  res !! id = Some c ->
  slashDecision cfg res id =
  match tier_action (spec_tier cfg (Some c)) with
  | Some (rate, del) => (true, rate, del)
  | None => (false, 0, false)
  end.
Proof. apply slashDecision_tier. Qed.

(** C8: a validator with no previous-round count is
    fined at the severe rate but, unlike the severe tier of the
    specification, is not removed from the validator set. *)
Theorem slashDecision_absent (cfg : Config) (res : gmap bytes Z) (id : bytes) :
  res !! id = None ->
  slashDecision cfg res id = (true, blockAmountHighSlashing, false) /\
  tier_action (spec_tier cfg None) = Some (blockAmountHighSlashing, true).
Proof. apply slashDecision_none. Qed.

(** The tie-breaks of the specification with
    250-block rounds and 25 validators ([250/25 = 10]): 10 is normal, 9 is
    abnormal but above [blockAmountLow], 8 is mild, 6 is mild, 5 and 3 are
    severe. *)
Example slashDecision_thresholds :
  let res : gmap bytes Z := {[ [Byte.x0a] := 10; [Byte.x09] := 9; [Byte.x08] := 8;
                               [Byte.x06] := 6; [Byte.x05] := 5; [Byte.x03] := 3 ]} in
  isAbnormal mainnet 10 = false /\ isAbnormal mainnet 9 = true /\
  slashDecision mainnet res [Byte.x0a] = (false, 0, false) /\
  slashDecision mainnet res [Byte.x09] = (false, 0, false) /\
  slashDecision mainnet res [Byte.x08] = (true, blockAmountLowSlashing, false) /\
  slashDecision mainnet res [Byte.x06] = (true, blockAmountLowSlashing, false) /\
  slashDecision mainnet res [Byte.x05] = (true, blockAmountHighSlashing, true) /\
  slashDecision mainnet res [Byte.x03] = (true, blockAmountHighSlashing, true).
Proof. vm_compute. repeat split. Qed.

(** ** Witnesses *)

Definition id7' : bytes := repeat Byte.x07 64.
Definition id8' : bytes := repeat Byte.x08 64.

(** A previous window where [id7'] produced 3 blocks. *)
Definition db_pre : SnapDB := mkSnapDB {[preKey id7' := rlp_encode_u16 3]} ∅ ∅.

(** The election block of the third 250-block round. *)
Definition hdr480 : Header := mkHeader 480 [] [].

Definition ledger0 : TestLedger :=
  mkTestLedger [mkCandidate id7' [Byte.x01] 1000 0 0 0; mkCandidate id8' [Byte.x02] 400 0 0 0] [].

Lemma GetPreNodeAmount_spec_witness :
  exists m, GetPreNodeAmount db_pre = Ok m /\
    forall id, m !! id = (fun _ => count_at preAbnormalPrefix db_pre id) <$>
                          baseDB db_pre !! (preAbnormalPrefix ++ id).
Proof. apply GetPreNodeAmount_spec. apply (bool_decide_unpack _). vm_compute. reflexivity. Defined.

Lemma EndBlock_calls_witness :
  EndBlock mainnet db_pre [] hdr480 ledger0 =
  apply_slashes [] 480 (low_slashes mainnet {[id7' := 3]} (tl_validators ledger0)) ledger0.
Proof.
  apply EndBlock_calls;
    [vm_compute; reflexivity | apply (bool_decide_unpack _); vm_compute; reflexivity
    | vm_compute; reflexivity].
Defined.

Lemma slashDecision_present_witness :
  slashDecision mainnet {[id7' := 3]} id7' = (true, blockAmountHighSlashing, true).
Proof. rewrite (slashDecision_present _ _ _ 3); [reflexivity | apply lookup_insert_eq]. Defined.

Lemma slashDecision_absent_witness :
  slashDecision mainnet {[id7' := 3]} id8' = (true, blockAmountHighSlashing, false).
Proof. apply slashDecision_absent. vm_compute. reflexivity. Defined.

Lemma EndBlock_not_ranking_witness :
  EndBlock mainnet db_pre [] (mkHeader 479 [] []) ledger0 = (Ok tt, ledger0).
Proof. apply EndBlock_not_ranking. vm_compute. reflexivity. Defined.

(** A previous-round count that is not canonical RLP. *)
Definition db_badrlp : SnapDB := mkSnapDB {[preKey id7' := [Byte.x81; Byte.x01]]} ∅ ∅.

(** A staking ledger that cannot answer: every query fails. *)
Definition ledger_down_err : Error := ErrExt "staking unavailable".

#[local] Instance down_ledger : StakingLedger unit := {|
  GetCandidateONRound _ _ _ := Err ledger_down_err;
  GetCandidateInfo _ _ _ := Err ledger_down_err;
  SlashCandidates _ _ _ _ _ _ := se_err ledger_down_err
|}.

(** Both read errors, each at an input where it happens: a corrupt count
    in the previous window, and a ledger whose validator query fails. *)
Lemma EndBlock_read_errors_witness :
  GetPreNodeAmount db_badrlp = Err ErrRLP /\
  EndBlock mainnet db_badrlp [] hdr480 ledger0 = (Err ErrRLP, ledger0) /\
  GetPreNodeAmount db_pre = Ok {[id7' := 3]} /\
  GetCandidateONRound [] (Number hdr480) tt = Err ledger_down_err /\
  EndBlock mainnet db_pre [] hdr480 tt = (Err ledger_down_err, tt).
Proof.
  assert (Hr : isRankingBlock mainnet (Number hdr480) = true) by (vm_compute; reflexivity).
  assert (Hbad : GetPreNodeAmount db_badrlp = Err ErrRLP) by (vm_compute; reflexivity).
  assert (Hpre : GetPreNodeAmount db_pre = Ok {[id7' := 3]})
    by (apply (bool_decide_unpack _); vm_compute; reflexivity).
  split; [exact Hbad|]. split.
  { exact (proj1 (EndBlock_read_errors mainnet db_badrlp [] hdr480 ∅ ErrRLP ledger0 Hr) Hbad). }
  split; [exact Hpre|]. split; [reflexivity|].
  exact (proj2 (EndBlock_read_errors mainnet db_pre [] hdr480 {[id7' := 3]} ledger_down_err tt Hr)
           Hpre eq_refl).
Defined.

(** Two entries for the same validator: the first slash removes it, so the
    second call fails. *)
Definition ledger_dup : TestLedger :=
  mkTestLedger [mkCandidate id7' [Byte.x01] 1000 0 0 0; mkCandidate id7' [Byte.x01] 1000 0 0 0] [].

Definition ledger_dup1 : TestLedger :=
  mkTestLedger [] [(id7', 50, true, LowRatio)].

Lemma EndBlock_abort_witness :
  EndBlock mainnet db_pre [] hdr480 ledger_dup = (Err (ErrExt "candidate not found"%string), ledger_dup1).
Proof.
  apply (EndBlock_abort mainnet db_pre [] hdr480 {[id7' := 3]} (tl_validators ledger_dup)
           [(id7', 50, true)] [] (id7', 50, true) _ ledger_dup ledger_dup1 ledger_dup1);
    [vm_compute; reflexivity | apply (bool_decide_unpack _); vm_compute; reflexivity
    | vm_compute; reflexivity ..].
Defined.

Lemma slashDecision_tiebreaks_witness :
  let t := ConsensusSize mainnet / ConsValidatorNum mainnet in
  isAbnormal mainnet t = false /\ isAbnormal mainnet (t - 1) = true /\
  (({[id7' := 5]} : gmap bytes Z) !! id7' = Some blockAmountHigh -> blockAmountHigh < t ->
   slashDecision mainnet {[id7' := 5]} id7' = (true, blockAmountHighSlashing, true)) /\
  (({[id7' := 5]} : gmap bytes Z) !! id7' = Some blockAmountLow -> blockAmountLow < t ->
   slashDecision mainnet {[id7' := 5]} id7' = (true, blockAmountLowSlashing, false)) /\
  (forall c, ({[id7' := 5]} : gmap bytes Z) !! id7' = Some c -> blockAmountLow < c ->
   slashDecision mainnet {[id7' := 5]} id7' = (false, 0, false)).
Proof. apply slashDecision_tiebreaks. Defined.

(** A previous window with two validators, walked in descending key
    order. *)
Definition db_pre2 : SnapDB :=
  mkSnapDB {[preKey id7' := rlp_encode_u16 3; preKey id8' := rlp_encode_u16 9]} ∅ ∅.

Lemma GetPreNodeAmount_walk_order_witness :
  GetPreNodeAmount_in (fun p db => reverse (walk_entries p db)) db_pre2 = GetPreNodeAmount db_pre2.
Proof.
  apply GetPreNodeAmount_walk_order; [intros p db; apply reverse_Permutation|].
  apply (bool_decide_unpack _). vm_compute. reflexivity.
Defined.
