(* ===== verification/DoubleSign.v ===== *)
(** * DoubleSign: the duplicate-signing evidence protocol ([Slash],
      [CheckMutiSign], [putSlashResult], [getSlashResult], lines 244-296).

    [Slash] decodes the submitted evidences with the injected decoder and
    processes them in order: validate, reject an evidence already punished
    (a record under [mutiSignKey] in the slashing contract's storage),
    look the candidate up, slash it through the ledger with removal, and
    record the transaction hash.  The first error stops the loop; the
    effects of the evidences before it stay (the state is threaded through
    errors, as the Go code mutates [stateDB] and the ledger in place).

    The state of a transaction is [TxState]: the ledger state and the
    contract storage of [xcom.StateDB] with the current transaction hash.
    The theorems: an evidence is slashed once and rejected afterwards; a
    batch stops at its first duplicate or invalid evidence with the
    earlier slashes kept; a missing decoder panics and a decoding error
    is returned before any evidence is processed; [CheckMutiSign] reports
    exactly the records [Slash] writes. *)

From Stdlib Require Import ZArith Lia String.
From S2P Require Import Prelude Config Codec Store Chain Penalty.
Import Keys.
Local Open Scope Z_scope.

(** ** Transaction state *)

(** The storage of [xcom.StateDB] ([GetState] / [SetState]) and
    [TxHash()]. *)
Record StateDB := mkStateDB {
  storage : gmap (bytes * bytes) bytes;
  TxHash : bytes
}.

(** [vm.SlashingContractAddr], the address of the slashing system contract
    (0x1000...0004). *)
Definition SlashingContractAddr : bytes := repeat Byte.x00 19 ++ [Byte.x04].

Definition GetState (st : StateDB) (addr key : bytes) : option bytes :=
  storage st !! (addr, key).

Definition SetState (addr key value : bytes) (st : StateDB) : StateDB :=
  mkStateDB (<[(addr, key) := value]> (storage st)) (TxHash st).

Record TxState (L : Type) := mkTxState {
  ledger : L;
  stateDB : StateDB
}.
Arguments mkTxState {L}.
Arguments ledger {L}.
Arguments stateDB {L}.

(** Run a ledger operation on the transaction state. *)
Definition on_ledger {L A} (m : SE L A) : SE (TxState L) A := fun st =>
  let '(r, l') := m (ledger st) in (r, mkTxState l' (stateDB st)).

(** ** Slash records *)

(** [getSlashResult]: the stored transaction hash, [nil] when absent. *)
Definition getSlashResult (addr : bytes) (blockNumber etype : Z) (st : StateDB) : option bytes :=
  GetState st SlashingContractAddr (mutiSignKey addr blockNumber etype).

(** [putSlashResult]: store the current transaction hash. *)
Definition putSlashResult (addr : bytes) (blockNumber etype : Z) (st : StateDB) : StateDB :=
  SetState SlashingContractAddr (mutiSignKey addr blockNumber etype) (TxHash st) st.

(** [len(value) > 0], the test of [Slash]. *)
Definition slash_recorded (value : option bytes) : bool :=
  match value with Some v => bool_decide (0 < length v)%nat | None => false end.

(** [CheckMutiSign]: [(true, txHash, nil)] when a record exists ([nil !=
    value]), [(false, nil, nil)] otherwise. *)
Definition CheckMutiSign (addr : bytes) (blockNumber etype : Z) (st : StateDB) : bool * option bytes :=
  match getSlashResult addr blockNumber etype st with
  | Some v => (true, Some v)
  | None => (false, None)
  end.

(** ** Slash *)

Section Slash.
Context `{StakingLedger L}.

(** The body of the loop for one evidence. *)
Definition slash_evidence (blockHash : bytes) (blockNumber : Z) (evidence : Evidence)
    : SE (TxState L) unit :=
  let etype := int32_of (ev_Type evidence) in
  se_lift (ev_Validate evidence) ;;
  (fun st => if slash_recorded (getSlashResult (ev_Address evidence) (ev_BlockNumber evidence)
                                 etype (stateDB st))
             then (Err errSlashExist, st) else (Ok tt, st)) ;;
  candidate <- se_gets (fun st => GetCandidateInfo blockHash (ev_Address evidence) (ledger st)) ;;
  on_ledger (SlashCandidates blockHash blockNumber (NodeId candidate)
               (calcSlashAmount candidate duplicateSignLowSlashing) true DoubleSign) ;;
  (fun st => (Ok tt, mkTxState (ledger st)
                       (putSlashResult (ev_Address evidence) (ev_BlockNumber evidence) etype
                          (stateDB st)))).

(** [sp.Slash(data, blockHash, blockNumber, stateDB)]; calling the decoder
    before [SetDecodeEvidenceFun] dereferences [nil] and panics. *)
Definition Slash (sp : SlashingPlugin) (data : string) (blockHash : bytes) (blockNumber : Z)
    : SE (TxState L) unit :=
  match decodeEvidence sp with
  | None => se_err ErrPanic
  | Some decode =>
      evidences <- se_lift (decode data) ;;
      fold_se (slash_evidence blockHash blockNumber) evidences
  end.

End Slash.

(** ** Lemmas *)

(** The record test of [Slash] for an evidence in a state. *)
Definition recorded {L} (ev : Evidence) (st : TxState L) : bool :=
  slash_recorded (getSlashResult (ev_Address ev) (ev_BlockNumber ev) (int32_of (ev_Type ev)) (stateDB st)).

(** The state after a successful slash of [ev]: the ledger's new state and
    the record. *)
Definition after_slash {L} (ev : Evidence) (l' : L) (st : TxState L) : TxState L :=
  mkTxState l' (putSlashResult (ev_Address ev) (ev_BlockNumber ev) (int32_of (ev_Type ev)) (stateDB st)).

Lemma getSlashResult_put_eq (addr : bytes) (n e : Z) (st : StateDB) :
  getSlashResult addr n e (putSlashResult addr n e st) = Some (TxHash st).
Proof. unfold getSlashResult, putSlashResult, GetState, SetState. simpl. by rewrite lookup_insert_eq. Qed.

(** Records of distinct (address, block, type) triples are independent. *)
Lemma getSlashResult_put_ne (a1 a2 : bytes) (n1 n2 e1 e2 : Z) (st : StateDB) :
  mutiSignKey a1 n1 e1 <> mutiSignKey a2 n2 e2 ->
  getSlashResult a2 n2 e2 (putSlashResult a1 n1 e1 st) = getSlashResult a2 n2 e2 st.
Proof.
  intros Hne. unfold getSlashResult, putSlashResult, GetState, SetState. simpl.
  rewrite lookup_insert_ne; [done|]. by intros [= ?].
Qed.

Section Lemmas.
Context `{StakingLedger L}.

Lemma slash_evidence_invalid (h : bytes) (n : Z) (ev : Evidence) (e : Error) (st : TxState L) :
  ev_Validate ev = Err e -> slash_evidence h n ev st = (Err e, st).
Proof. intros He. unfold slash_evidence, se_bind, se_lift. by rewrite He. Qed.

Lemma slash_evidence_dup (h : bytes) (n : Z) (ev : Evidence) (st : TxState L) :
  ev_Validate ev = Ok tt -> recorded ev st = true ->
  slash_evidence h n ev st = (Err errSlashExist, st).
Proof.
  intros Hv Hr. unfold recorded in Hr. unfold slash_evidence, se_bind, se_lift.
  rewrite Hv. by rewrite Hr.
Qed.

Lemma slash_evidence_ok (h : bytes) (n : Z) (ev : Evidence) (st : TxState L) (c : Candidate) (l' : L) :
  ev_Validate ev = Ok tt -> recorded ev st = false ->
  GetCandidateInfo h (ev_Address ev) (ledger st) = Ok c ->
  SlashCandidates h n (NodeId c) (calcSlashAmount c duplicateSignLowSlashing) true DoubleSign (ledger st)
    = (Ok tt, l') ->
  slash_evidence h n ev st = (Ok tt, after_slash ev l' st).
Proof.
  intros Hv Hr Hc Hs. unfold recorded in Hr.
  unfold slash_evidence, se_bind, se_lift, se_gets, on_ledger.
  rewrite Hv, Hr, Hc, Hs. reflexivity.
Qed.

End Lemmas.

Section SlashDup.
Context `{StakingLedger L}.

Lemma Slash_dup (sp : SlashingPlugin) (dec : string -> result (list Evidence))
    (data : string) (h : bytes) (n : Z) (ev : Evidence) (evs : list Evidence) (st : TxState L) :
  decodeEvidence sp = Some dec -> dec data = Ok (ev :: evs) ->
  ev_Validate ev = Ok tt -> recorded ev st = true ->
  Slash sp data h n st = (Err errSlashExist, st).
Proof.
  intros Hsp Hd Hv Hr. unfold Slash. rewrite Hsp.
  rewrite (se_bind_Ok _ _ _ (ev :: evs) st) by (unfold se_lift; by rewrite Hd).
  cbn [fold_se]. apply se_bind_Err. by apply slash_evidence_dup.
Qed.

End SlashDup.

(** ** Theorems *)

Section Theorems.
Context `{StakingLedger L}.

(** C3: an evidence whose (address, block, type)
    has already been punished is rejected with the business error
    "Punishment has been implemented", and the call changes nothing: the
    ledger is not called and no record is written. *)
Theorem Slash_duplicate_rejected (sp : SlashingPlugin) (dec : string -> result (list Evidence))
    (data : string) (h : bytes) (n : Z) (ev : Evidence) (evs : list Evidence) (st : TxState L) :
  decodeEvidence sp = Some dec -> dec data = Ok (ev :: evs) ->
  ev_Validate ev = Ok tt -> recorded ev st = true ->
  Slash sp data h n st = (Err errSlashExist, st).
Proof. apply Slash_dup. Qed.

(** C2: submitting an evidence that has not been punished slashes
    its candidate once, through the ledger, with removal and the amount
    [calcSlashAmount c duplicateSignLowSlashing], and records the
    transaction hash; submitting it again in any later transaction is
    rejected and leaves that state unchanged. *)
Theorem Slash_once (sp : SlashingPlugin) (dec : string -> result (list Evidence))
    (data : string) (h : bytes) (n : Z) (ev : Evidence) (st : TxState L) (c : Candidate) (l' : L)
    (tx : bytes) :
  decodeEvidence sp = Some dec -> dec data = Ok [ev] ->
  ev_Validate ev = Ok tt -> recorded ev st = false ->
  GetCandidateInfo h (ev_Address ev) (ledger st) = Ok c ->
  SlashCandidates h n (NodeId c) (calcSlashAmount c duplicateSignLowSlashing) true DoubleSign (ledger st)
    = (Ok tt, l') ->
  (0 < length (TxHash (stateDB st)))%nat ->
  Slash sp data h n st = (Ok tt, after_slash ev l' st) /\
  forall h' n', let st2 := mkTxState l' (mkStateDB (storage (stateDB (after_slash ev l' st))) tx) in
    Slash sp data h' n' st2 = (Err errSlashExist, st2).
Proof.
  intros Hsp Hd Hv Hr Hc Hs Htx. split.
  - unfold Slash. rewrite Hsp.
    rewrite (se_bind_Ok _ _ _ [ev] st) by (unfold se_lift; by rewrite Hd).
    cbn [fold_se]. rewrite (se_bind_Ok _ _ _ tt (after_slash ev l' st))
      by (by eapply slash_evidence_ok). reflexivity.
  - intros h' n' st2. eapply Slash_dup; [done..|].
    unfold recorded, st2, after_slash, getSlashResult, GetState. simpl.
    unfold putSlashResult, SetState. simpl. rewrite lookup_insert_eq.
    unfold slash_recorded. by apply bool_decide_eq_true.
Qed.

(** C36: in a batch whose first evidence is slashed and
    whose second was already punished, the call returns the duplicate error
    and the first evidence's slash and record stay. *)
Theorem Slash_batch_partial (sp : SlashingPlugin) (dec : string -> result (list Evidence))
    (data : string) (h : bytes) (n : Z) (ev1 ev2 : Evidence) (evs : list Evidence)
    (st : TxState L) (c : Candidate) (l' : L) :
  decodeEvidence sp = Some dec -> dec data = Ok (ev1 :: ev2 :: evs) ->
  ev_Validate ev1 = Ok tt -> recorded ev1 st = false ->
  GetCandidateInfo h (ev_Address ev1) (ledger st) = Ok c ->
  SlashCandidates h n (NodeId c) (calcSlashAmount c duplicateSignLowSlashing) true DoubleSign (ledger st)
    = (Ok tt, l') ->
  ev_Validate ev2 = Ok tt -> recorded ev2 (after_slash ev1 l' st) = true ->
  Slash sp data h n st = (Err errSlashExist, after_slash ev1 l' st).
Proof.
  intros Hsp Hd Hv1 Hr1 Hc Hs Hv2 Hr2. unfold Slash. rewrite Hsp.
  rewrite (se_bind_Ok _ _ _ (ev1 :: ev2 :: evs) st) by (unfold se_lift; by rewrite Hd).
  cbn [fold_se]. rewrite (se_bind_Ok _ _ _ tt (after_slash ev1 l' st)) by (by eapply slash_evidence_ok).
  apply se_bind_Err. by apply slash_evidence_dup.
Qed.

(** After an evidence is slashed, [CheckMutiSign] on
    its triple reports the record with the slashing transaction's hash;
    records of other triples are unaffected. *)
Theorem CheckMutiSign_spec (ev : Evidence) (l' : L) (st : TxState L) (a : bytes) (bn e : Z) :
  CheckMutiSign (ev_Address ev) (ev_BlockNumber ev) (int32_of (ev_Type ev)) (stateDB (after_slash ev l' st))
    = (true, Some (TxHash (stateDB st))) /\
  (mutiSignKey (ev_Address ev) (ev_BlockNumber ev) (int32_of (ev_Type ev)) <> mutiSignKey a bn e ->
   CheckMutiSign a bn e (stateDB (after_slash ev l' st)) = CheckMutiSign a bn e (stateDB st)).
Proof.
  split.
  - unfold CheckMutiSign, after_slash. simpl. by rewrite getSlashResult_put_eq.
  - intros Hne. unfold CheckMutiSign, after_slash. simpl. by rewrite getSlashResult_put_ne.
Qed.

(** C35: before [SetDecodeEvidenceFun] the call panics
    on the nil decoder; after it, a payload the decoder rejects is
    returned as the decoder's error before any evidence is processed. *)
Theorem Slash_decoder_errors (sp : SlashingPlugin) (dec : string -> result (list Evidence))
    (data : string) (h : bytes) (n : Z) (e : Error) (st : TxState L) :
  (decodeEvidence sp = None -> Slash sp data h n st = (Err ErrPanic, st)) /\
  (dec data = Err e -> Slash (SetDecodeEvidenceFun sp dec) data h n st = (Err e, st)).
Proof.
  split.
  - intros Hn. unfold Slash. by rewrite Hn.
  - intros He. unfold Slash. cbn [decodeEvidence SetDecodeEvidenceFun].
    apply se_bind_Err. unfold se_lift. by rewrite He.
Qed.

(** C25: when the evidences before [ev] have been
    processed, an [ev] that fails its validation stops the batch with the
    validation error: the earlier slashes and records stay, [ev] and the
    evidences after it are not processed. *)
Theorem Slash_invalid_stops (sp : SlashingPlugin) (dec : string -> result (list Evidence))
    (data : string) (h : bytes) (n : Z) (pre post : list Evidence) (ev : Evidence) (e : Error)
    (st st1 : TxState L) :
  decodeEvidence sp = Some dec -> dec data = Ok (pre ++ ev :: post) ->
  fold_se (slash_evidence h n) pre st = (Ok tt, st1) -> ev_Validate ev = Err e ->
  Slash sp data h n st = (Err e, st1).
Proof.
  intros Hsp Hd Hpre Hv. unfold Slash. rewrite Hsp.
  rewrite (se_bind_Ok _ _ _ (pre ++ ev :: post) st) by (unfold se_lift; by rewrite Hd).
  rewrite fold_se_app, (se_bind_Ok _ _ _ tt st1) by exact Hpre. cbn [fold_se].
  apply se_bind_Err. by apply slash_evidence_invalid.
Qed.

End Theorems.

(** ** Witnesses *)

(** An evidence against the candidate staked from address [0x01], a
    decoder returning it (twice, for the batch), and a transaction state
    with no record. *)
Definition ev1 : Evidence := mkEvidence [Byte.x01] 100 1 [] (Ok tt).
Definition cand1 : Candidate := mkCandidate (repeat Byte.x07 64) [Byte.x01] 1000 0 0 0.
Definition sp1 : SlashingPlugin := mkSlashingPlugin (mkSnapDB ∅ ∅ ∅) (Some (fun _ => Ok [ev1])).
Definition sp2 : SlashingPlugin := mkSlashingPlugin (mkSnapDB ∅ ∅ ∅) (Some (fun _ => Ok [ev1; ev1])).
Definition st1 : TxState TestLedger := mkTxState (mkTestLedger [cand1] []) (mkStateDB ∅ [Byte.xaa]).
Definition ledger1 : TestLedger :=
  mkTestLedger [] [(NodeId cand1, calcSlashAmount cand1 duplicateSignLowSlashing, true, DoubleSign)].

Lemma Slash_duplicate_rejected_witness :
  Slash sp1 "" [] 7 (after_slash ev1 ledger1 st1) = (Err errSlashExist, after_slash ev1 ledger1 st1).
Proof. eapply Slash_duplicate_rejected; reflexivity. Defined.

Lemma Slash_once_witness :
  Slash sp1 "" [] 7 st1 = (Ok tt, after_slash ev1 ledger1 st1) /\
  forall h' n', let st2 := mkTxState ledger1 (mkStateDB (storage (stateDB (after_slash ev1 ledger1 st1))) [Byte.xbb]) in
    Slash sp1 "" h' n' st2 = (Err errSlashExist, st2).
Proof. eapply Slash_once; try reflexivity. simpl. lia. Defined.

Lemma Slash_batch_partial_witness :
  Slash sp2 "" [] 7 st1 = (Err errSlashExist, after_slash ev1 ledger1 st1).
Proof. eapply Slash_batch_partial; reflexivity. Defined.

Lemma CheckMutiSign_spec_witness :
  CheckMutiSign [Byte.x01] 100 1 (stateDB (after_slash ev1 ledger1 st1)) = (true, Some [Byte.xaa]) /\
  (mutiSignKey [Byte.x01] 100 1 <> mutiSignKey [Byte.x01] 101 1 ->
   CheckMutiSign [Byte.x01] 101 1 (stateDB (after_slash ev1 ledger1 st1)) =
   CheckMutiSign [Byte.x01] 101 1 (stateDB st1)).
Proof. apply (CheckMutiSign_spec ev1 ledger1 st1 [Byte.x01] 101 1). Defined.

Lemma Slash_decoder_errors_witness :
  Slash (mkSlashingPlugin (mkSnapDB ∅ ∅ ∅) None) "" [] 7 st1 = (Err ErrPanic, st1) /\
  Slash (SetDecodeEvidenceFun sp1 (fun _ => Err ErrRLP)) "" [] 7 st1 = (Err ErrRLP, st1).
Proof.
  split.
  - apply (proj1 (Slash_decoder_errors _ (fun _ => Err ErrRLP) "" [] 7 ErrRLP st1)). reflexivity.
  - apply (proj2 (Slash_decoder_errors sp1 (fun _ => Err ErrRLP) "" [] 7 ErrRLP st1)). reflexivity.
Defined.

(** A forged evidence following [ev1] in the payload. *)
Definition ev_bad : Evidence := mkEvidence [Byte.x02] 100 1 [] (Err (ErrExt "invalid signature")).
Definition sp3 : SlashingPlugin := mkSlashingPlugin (mkSnapDB ∅ ∅ ∅) (Some (fun _ => Ok [ev1; ev_bad; ev1])).

Lemma Slash_invalid_stops_witness :
  Slash sp3 "" [] 7 st1 = (Err (ErrExt "invalid signature"), after_slash ev1 ledger1 st1).
Proof.
  apply (Slash_invalid_stops sp3 (fun _ => Ok [ev1; ev_bad; ev1]) "" [] 7 [ev1] [ev1] ev_bad _ st1); reflexivity.
Defined.
