(* ===== verification/System.v ===== *)
(** * System: the plugin as a state machine over every interleaving of its
      entry points.

    The world is what the plugin's entry points read and write: the
    snapshot store [sp.db] (written by [Confirmed]), the staking ledger
    (written by [EndBlock] and [Slash]) and the contract storage of the
    current transaction (written by [Slash]).  An [Event] is one call of an
    entry point; [step] runs it, keeping the state an error leaves (the store writes are
    irrevocable and there is no rollback at this layer).  [reachable] is
    the inductive closure of the initial worlds under [step] and the start
    of new transactions, in any order and whatever the outcome of each
    call; its invariants are proved by rule induction.

    To observe the double-sign slashes the ledger is wrapped: [logged]
    turns any [StakingLedger] into one that also keeps the list of its
    successful [DoubleSign] calls, as a ghost log.  The theorems: the count
    store stays well formed ([reachable_counts_wf]); the contract's slash
    records are never removed or changed ([step_records_permanent]); and
    the number of successful double-sign slashes equals the number of
    records ([double_sign_accounting]): every such slash created a record
    of its own, so no (address, block, type) triple is ever slashed twice. *)

From Stdlib Require Import ZArith Lia String.
From S2P Require Import Prelude Config Codec Store Chain RoundCounter Epoch Penalty LowPerf DoubleSign.
Import Keys.
Local Open Scope Z_scope.

(** ** The logging ledger *)

Section Logged.
Context `{StakingLedger L}.

(** The successful double-sign calls, as (NodeID, amount). *)
Definition log_call (id : bytes) (amount : Z) (ty : SlashType) (log : list (bytes * Z))
    : list (bytes * Z) :=
  match ty with DoubleSign => log ++ [(id, amount)] | LowRatio => log end.

#[export] Instance logged : StakingLedger (L * list (bytes * Z)) := {|
  GetCandidateONRound h n s := GetCandidateONRound h n s.1;
  GetCandidateInfo h a s := GetCandidateInfo h a s.1;
  SlashCandidates h n id amount del ty := fun s =>
    match SlashCandidates h n id amount del ty s.1 with
    | (Ok tt, l') => (Ok tt, (l', log_call id amount ty s.2))
    | (Err e, l') => (Err e, (l', s.2))
    end
|}.

End Logged.

(** ** Worlds and steps *)

Section System.
Context `{SigRecover} `{StakingLedger L}.
Variable cfg : Config.
(** The decoder installed by [SetDecodeEvidenceFun]. *)
Variable decode : string -> result (list Evidence).

Notation Ledger := (L * list (bytes * Z))%type.

Record World := mkWorld {
  w_db : SnapDB;
  w_tx : TxState Ledger
}.

Inductive Event :=
  | EConfirmed (block : Block)
  | EEndBlock (blockHash : bytes) (header : Header)
  | ESlash (data : string) (blockHash : bytes) (blockNumber : Z).

Definition step (ev : Event) (w : World) : result unit * World :=
  match ev with
  | EConfirmed b =>
      let '(r, d') := Confirmed cfg b (w_db w) in (r, mkWorld d' (w_tx w))
  | EEndBlock h hd =>
      let '(r, l') := EndBlock cfg (w_db w) h hd (ledger (w_tx w)) in
      (r, mkWorld (w_db w) (mkTxState l' (stateDB (w_tx w))))
  | ESlash data h n =>
      let '(r, t') := Slash (mkSlashingPlugin (w_db w) (Some decode)) data h n (w_tx w) in
      (r, mkWorld (w_db w) t')
  end.

(** A new transaction: its 32-byte hash becomes [stateDB.TxHash()]. *)
Definition new_tx (hash : bytes) (w : World) : World :=
  mkWorld (w_db w) (mkTxState (ledger (w_tx w)) (mkStateDB (storage (stateDB (w_tx w))) hash)).

(** The start: a well-formed count store, no slash record, no logged
    slash, a transaction hash. *)
Definition initial (w : World) : Prop :=
  counts_wf (w_db w) /\ storage (stateDB (w_tx w)) = ∅ /\ (ledger (w_tx w)).2 = [] /\
  length (TxHash (stateDB (w_tx w))) = 32%nat.

Inductive reachable : World -> Prop :=
  | reach_init w : initial w -> reachable w
  | reach_step w ev r w' : reachable w -> step ev w = (r, w') -> reachable w'
  | reach_tx w hash : reachable w -> length hash = 32%nat -> reachable (new_tx hash w).

(** ** Invariants *)

(** The accounting of the double-sign records: one record per logged
    slash, every record holds a transaction hash, and the current
    transaction has one. *)
Definition acct (st : TxState Ledger) : Prop :=
  size (storage (stateDB st)) = length (ledger st).2 /\
  map_Forall (fun _ v => v <> []) (storage (stateDB st)) /\
  TxHash (stateDB st) <> [].

(** What the entry points may do to the contract storage: add records. *)
Definition grows (st st' : TxState Ledger) : Prop :=
  storage (stateDB st) ⊆ storage (stateDB st') /\ TxHash (stateDB st') = TxHash (stateDB st).

#[local] Instance grows_preorder : PreOrder grows.
Proof.
  split; [intros st; split; reflexivity|].
  intros a b c [H1 H2] [H3 H4]. split; [by etrans|congruence].
Qed.

(** A record the plugin wrote is non-empty, so an absent record is the
    only one [Slash] does not reject. *)
Lemma not_recorded_absent (ev : Evidence) (st : TxState Ledger) :
  map_Forall (fun _ v => v <> []) (storage (stateDB st)) -> recorded ev st = false ->
  storage (stateDB st) !! (SlashingContractAddr,
    mutiSignKey (ev_Address ev) (ev_BlockNumber ev) (int32_of (ev_Type ev))) = None.
Proof.
  unfold recorded, getSlashResult, GetState. intros Hne Hrec.
  destruct (storage (stateDB st) !! _) as [v|] eqn:Hk; [|done].
  exfalso. apply (Hne _ _ Hk). destruct v as [|b v]; [done|]. discriminate Hrec.
Qed.

Lemma slash_evidence_guarantee (h : bytes) (n : Z) (ev : Evidence) :
  se_guarantee acct grows (slash_evidence h n ev).
Proof.
  intros st r st' Hacc Hrun. unfold slash_evidence, se_bind, se_lift, se_gets, on_ledger in Hrun.
  destruct (ev_Validate ev) as [[]|e]; [|injection Hrun as _ <-; done].
  destruct (slash_recorded _) eqn:Hrec; [injection Hrun as _ <-; done|].
  destruct (GetCandidateInfo _ _ _) as [c|e]; [|injection Hrun as _ <-; done].
  cbn [SlashCandidates logged] in Hrun.
  destruct (SlashCandidates _ _ _ _ _ _ (ledger st).1) as [[[]|e] l1]; injection Hrun as _ <-;
    [|done].
  destruct Hacc as (Hsize & Hne & Htx).
  pose proof (not_recorded_absent ev st Hne Hrec) as Habs.
  unfold acct, grows, putSlashResult, SetState. cbn [ledger stateDB storage TxHash fst snd log_call].
  rewrite map_size_insert_None, length_app by exact Habs. cbn [length].
  split; [split; [lia|split; [by apply map_Forall_insert_2|done]]|].
  split; [by apply insert_subseteq|done].
Qed.

Lemma Slash_guarantee (d : SnapDB) (data : string) (h : bytes) (n : Z) :
  se_guarantee acct grows (Slash (mkSlashingPlugin d (Some decode)) data h n).
Proof.
  unfold Slash. cbn [decodeEvidence].
  apply (se_guarantee_bind acct grows); [apply (se_guarantee_lift acct grows)|]. intros evs.
  apply (se_guarantee_fold acct grows). intros ev _. apply slash_evidence_guarantee.
Qed.

(** The low-production policy never logs a double-sign slash. *)
Lemma EndBlock_log (d : SnapDB) (h : bytes) (hd : Header) (log : list (bytes * Z)) :
  se_preserves (fun l : Ledger => l.2 = log) (EndBlock cfg d h hd).
Proof.
  unfold EndBlock. destruct (isRankingBlock cfg (Number hd)); [|apply se_preserves_ret].
  apply se_preserves_bind; [apply se_preserves_lift|intros res].
  apply se_preserves_bind; [apply se_preserves_gets|intros vs].
  apply se_preserves_fold. intros v _.
  destruct (slashDecision cfg res (NodeId v)) as [[isSlash rate] isDelete].
  destruct (isSlash && (0 <? rate)); [|apply se_preserves_ret].
  intros s r s' Hs. cbn [SlashCandidates logged].
  destruct (SlashCandidates _ _ _ _ _ _ s.1) as [[[]|e] l1]; by intros [= _ <-].
Qed.

Lemma Confirmed_wf (b : Block) : se_preserves counts_wf (Confirmed cfg b).
Proof.
  unfold Confirmed. apply se_preserves_bind; [|intros _; apply setBlockAmount_wf].
  destruct (isSwitchBlock cfg (NumberU64 b)); [apply switchEpoch_wf|apply se_preserves_ret].
Qed.

Definition sys_inv (w : World) : Prop := counts_wf (w_db w) /\ acct (w_tx w).

Lemma step_inv (ev : Event) (w w' : World) (r : result unit) :
  sys_inv w -> step ev w = (r, w') -> sys_inv w' /\ grows (w_tx w) (w_tx w').
Proof.
  intros [Hwf Hacc]. destruct ev as [b|h hd|data h n]; cbn [step].
  - destruct (Confirmed cfg b (w_db w)) as [r1 d'] eqn:E. intros [= _ <-].
    split; [split; [by eapply Confirmed_wf|done]|reflexivity].
  - destruct (EndBlock cfg (w_db w) h hd (ledger (w_tx w))) as [r1 l'] eqn:E. intros [= _ <-].
    pose proof (EndBlock_log (w_db w) h hd _ _ _ _ eq_refl E) as Hl.
    destruct Hacc as (Hs & Hne & Htx).
    split; [split; [done|]|split; reflexivity]. cbn beta in Hl.
    destruct l' as [l1 log1]. cbn in Hl. subst log1. done.
  - destruct (Slash _ data h n (w_tx w)) as [r1 t'] eqn:E. intros [= _ <-].
    destruct (Slash_guarantee (w_db w) data h n (w_tx w) r1 t' Hacc E). done.
Qed.

Lemma reachable_inv (w : World) : reachable w -> sys_inv w.
Proof.
  induction 1 as [w (Hwf & Hst & Hlog & Htx)|w ev r w' _ IH Hs|w hash _ IH Hl].
  - split; [done|]. unfold acct. rewrite Hst, Hlog. split; [done|].
    split; [apply map_Forall_empty|]. intros E. rewrite E in Htx. discriminate.
  - by apply (step_inv ev w w' r).
  - destruct IH as (Hwf & Hs & Hne & _). split; [done|]. unfold acct, new_tx. cbn.
    split; [done|]. split; [done|]. intros ->. discriminate.
Qed.

(** ** Theorems *)

(** C14: in every world reachable through any
    interleaving of [Confirmed], [EndBlock], [Slash] and new transactions,
    whatever their outcomes, the count store is well formed. *)
Theorem reachable_counts_wf (w : World) : reachable w -> counts_wf (w_db w).
Proof. intros Hr. apply (reachable_inv w Hr). Qed.

(** C13: in every reachable world, the number of
    successful double-sign slashes the ledger has performed equals the
    number of slash records: each such slash wrote a record of its own
    under a key no other slash used, so no (address, block, type) triple is
    slashed twice. *)
Theorem double_sign_accounting (w : World) :
  reachable w -> size (storage (stateDB (w_tx w))) = length (ledger (w_tx w)).2.
Proof. intros Hr. apply (reachable_inv w Hr). Qed.

(** C32: from a reachable world, no entry point
    removes or changes a slash record, whatever its outcome. *)
Theorem step_records_permanent (w w' : World) (ev : Event) (r : result unit) :
  reachable w -> step ev w = (r, w') -> storage (stateDB (w_tx w)) ⊆ storage (stateDB (w_tx w')).
Proof. intros Hr Hs. apply (step_inv ev w w' r (reachable_inv w Hr) Hs). Qed.

End System.

(** ** Witnesses *)

(** A world with one candidate, no record, and a transaction, and the
    world after a payload with the evidence [ev1] is submitted. *)
Definition dec1 : string -> result (list Evidence) := fun _ => Ok [ev1].

Definition w0 : @World TestLedger :=
  mkWorld empty_db (mkTxState (mkTestLedger [cand1] [], []) (mkStateDB ∅ (repeat Byte.xaa 32))).

Definition ev_slash : Event := ESlash "" [] 7.

Definition w1 : @World TestLedger := (@step test_recover _ _ mainnet dec1 ev_slash w0).2.

Lemma w1_reachable : @reachable test_recover _ _ mainnet dec1 w1.
Proof.
  eapply reach_step; [apply reach_init | apply surjective_pairing].
  split; [apply (bool_decide_unpack _); vm_compute; reflexivity|].
  split; [reflexivity|]. split; reflexivity.
Qed.

Lemma reachable_counts_wf_witness : counts_wf (w_db w1).
Proof. apply (@reachable_counts_wf test_recover _ _ mainnet dec1). apply w1_reachable. Defined.

Lemma double_sign_accounting_witness :
  size (storage (stateDB (w_tx w1))) = length (ledger (w_tx w1)).2.
Proof. apply (@double_sign_accounting test_recover _ _ mainnet dec1). apply w1_reachable. Defined.

Lemma step_records_permanent_witness :
  storage (stateDB (w_tx w1)) ⊆
  storage (stateDB (w_tx (@step test_recover _ _ mainnet dec1 ev_slash w1).2)).
Proof.
  apply (@step_records_permanent test_recover _ _ mainnet dec1 _ _ ev_slash (@step test_recover _ _ mainnet dec1 ev_slash w1).1);
    [apply w1_reachable | apply surjective_pairing].
Defined.

