(* ===== verification/Lifecycle.v ===== *)
(** * Lifecycle: the plugin over a chain of confirmed blocks.

    The consensus engine confirms blocks 1, 2, ..., n in order ([Confirmed]
    for each) and runs [EndBlock] when it executes a block.  This file
    proves, by induction over the chain, the invariant the specification
    states for the round counters (§3): after the blocks [1..n] are
    confirmed, the current window holds, for every validator, the number of
    blocks it signed in the round of block [n] (modulo [2^16]), and the
    previous window the number it signed in the round before; an entry
    exists exactly for the validators that signed at least one of them.
    Consequently the policy run at an election block penalises each
    validator by its production in the previous round.  A scenario
    evaluates every tier on a concrete chain of 40-block rounds
    ([lowperf_scenario]). *)

From Stdlib Require Import ZArith Lia.
From S2P Require Import Prelude Config Codec Store Chain RoundCounter Epoch Penalty LowPerf.
Import RLP Keys.
Local Open Scope Z_scope.

Section Chain.
Context `{SigRecover}.
Variable cfg : Config.

(** Confirming the blocks of a chain, in order. *)
Definition confirm_chain (blocks : list Block) : SE SnapDB unit :=
  fold_se (Confirmed cfg) blocks.

(** The first block of the round of block [n]: rounds are
    [(k-1)R+1 .. kR]. *)
Definition round_start (n : Z) : Z :=
  ConsensusSize cfg * ((n - 1) / ConsensusSize cfg) + 1.

Variable sig : Block -> bytes.

(** The number of blocks of [blocks] signed by [id] with a number in
    [[lo, hi]]. *)
Definition produced (blocks : list Block) (id : bytes) (lo hi : Z) : nat :=
  length (filter (fun b => sig b = id /\ lo <= NumberU64 b <= hi) blocks).

Definition last_number (blocks : list Block) : Z := Z.of_nat (length blocks).

(** The current and the previous round of the last block. *)
Definition cur_window (blocks : list Block) (id : bytes) : nat :=
  produced blocks id (round_start (last_number blocks)) (last_number blocks).
Definition pre_window (blocks : list Block) (id : bytes) : nat :=
  let s := round_start (last_number blocks) in
  produced blocks id (s - ConsensusSize cfg) (s - 1).

(** Block [i] of the list has number [i + 1] and is signed by [sig]. *)
Definition chain_ok (blocks : list Block) : Prop :=
  forall i b, blocks !! i = Some b ->
  NumberU64 b = Z.of_nat i + 1 /\ parseNodeId (bHeader b) = Ok (sig b).

(** A window's count and presence agree with the production. *)
Definition window_agrees (prefix : bytes) (d : SnapDB) (id : bytes) (k : nat) : Prop :=
  count_at prefix d id = wrap 16 (Z.of_nat k) /\
  (is_Some (baseDB d !! (prefix ++ id)) <-> (0 < k)%nat).

Definition window_inv (d : SnapDB) (blocks : list Block) : Prop :=
  counts_wf d /\ counts_writable d /\
  forall id, window_agrees curAbnormalPrefix d id (cur_window blocks id) /\
             window_agrees preAbnormalPrefix d id (pre_window blocks id).

End Chain.

(** ** Round arithmetic *)

Section Arith.
Variable R : Z.
Hypothesis HR : 2 <= R.

Lemma switch_mod (n : Z) :
  0 <= n -> (n + 1) mod R = 1 -> n mod R = 0.
Proof.
  intros Hn E. pose proof (Z.div_mod (n + 1) R ltac:(lia)) as H1.
  pose proof (Z.div_mod n R ltac:(lia)) as H2.
  assert (Hq : n / R = (n + 1) / R).
  { symmetry. apply Z.div_unique with (r := 0); [lia|]. rewrite E in H1. lia. }
  rewrite Hq in H2. rewrite E in H1. lia.
Qed.

Lemma no_switch_mod (n : Z) :
  0 <= n -> (n + 1) mod R <> 1 -> n mod R <> 0.
Proof.
  intros Hn E Hz. apply E. rewrite Z.add_mod by lia. rewrite Hz.
  rewrite Z.add_0_l, (Z.mod_small 1), (Z.mod_small 1); lia.
Qed.

(** At a round's first block [n + 1], it starts the round and the
    round of block [n] started [R] blocks earlier. *)
Lemma round_start_switch (n : Z) :
  1 <= n -> n mod R = 0 ->
  R * ((n + 1 - 1) / R) + 1 = n + 1 /\ R * ((n - 1) / R) + 1 = n + 1 - R.
Proof.
  intros Hn Hz. pose proof (Z.div_mod n R ltac:(lia)).
  replace (n + 1 - 1) with n by lia. split; [lia|].
  assert ((n - 1) / R = n / R - 1) as ->; [|nia].
  symmetry. apply Z.div_unique with (r := R - 1); [lia|nia].
Qed.

(** Elsewhere block [n + 1] is in the round of block [n]. *)
Lemma round_start_same (n : Z) :
  1 <= n -> n mod R <> 0 -> (n + 1 - 1) / R = (n - 1) / R.
Proof.
  intros Hn Hz. pose proof (Z.div_mod n R ltac:(lia)). pose proof (Z.mod_pos_bound n R ltac:(lia)).
  replace (n + 1 - 1) with n by lia.
  apply Z.div_unique with (r := n mod R - 1); [lia|nia].
Qed.

Lemma round_start_le (n : Z) : 0 <= n -> R * ((n + 1 - 1) / R) + 1 <= n + 1.
Proof. intros. replace (n + 1 - 1) with n by lia. pose proof (Z.mul_div_le n R). lia. Qed.

End Arith.

(** ** Counting blocks *)

Section Counting.
Variable sig : Block -> bytes.

Lemma produced_snoc (blocks : list Block) (b : Block) (id : bytes) (lo hi : Z) :
  produced sig (blocks ++ [b]) id lo hi =
  (produced sig blocks id lo hi +
   if decide (sig b = id /\ (lo <= NumberU64 b <= hi)%Z) then 1 else 0)%nat.
Proof.
  unfold produced. rewrite filter_app, length_app. f_equal.
  rewrite filter_cons, filter_nil. by case_decide.
Qed.

Lemma produced_ext (blocks : list Block) (id : bytes) (lo hi lo' hi' : Z) :
  (forall b, b ∈ blocks -> (lo <= NumberU64 b <= hi <-> lo' <= NumberU64 b <= hi')) ->
  produced sig blocks id lo hi = produced sig blocks id lo' hi'.
Proof.
  intros Hb. unfold produced. f_equal. induction blocks as [|b bs IH]; [done|].
  rewrite !filter_cons. rewrite IH by (intros; apply Hb; set_solver).
  specialize (Hb b ltac:(set_solver)). repeat case_decide; naive_solver.
Qed.

Lemma produced_empty (blocks : list Block) (id : bytes) (lo hi : Z) :
  (forall b, b ∈ blocks -> ~ (lo <= NumberU64 b <= hi)) -> produced sig blocks id lo hi = 0%nat.
Proof.
  intros Hb. unfold produced. induction blocks as [|b bs IH]; [done|].
  rewrite filter_cons. case_decide as Hd.
  - exfalso. apply (Hb b); [set_solver|apply Hd].
  - apply IH. intros; apply Hb; set_solver.
Qed.

Lemma chain_ok_snoc `{SigRecover} (blocks : list Block) (b : Block) :
  chain_ok sig (blocks ++ [b]) ->
  chain_ok sig blocks /\ NumberU64 b = last_number blocks + 1 /\
  parseNodeId (bHeader b) = Ok (sig b).
Proof.
  intros Hc. split; [|split].
  - intros i b' Hi. apply Hc. by apply lookup_app_l_Some.
  - destruct (Hc (length blocks) b) as [Hn _]; [by rewrite lookup_app_r, Nat.sub_diag|].
    unfold last_number. lia.
  - apply (Hc (length blocks) b). by rewrite lookup_app_r, Nat.sub_diag.
Qed.

Lemma chain_numbers `{SigRecover} (blocks : list Block) (b : Block) :
  chain_ok sig blocks -> b ∈ blocks -> 1 <= NumberU64 b <= last_number blocks.
Proof.
  intros Hc Hin. apply list_elem_of_lookup in Hin as [i Hi].
  pose proof (lookup_lt_Some _ _ _ Hi). apply Hc in Hi as [-> _].
  unfold last_number. lia.
Qed.

End Counting.

(** ** Windows under the store operations *)

Lemma wrap16_succ (k : nat) : wrap 16 (wrap 16 (Z.of_nat k) + 1) = wrap 16 (Z.of_nat (S k)).
Proof. unfold wrap. rewrite Z.add_mod_idemp_l by lia. f_equal. lia. Qed.

Lemma agrees_incr_same (d : SnapDB) (s : bytes) (k : nat) :
  window_agrees curAbnormalPrefix d s k ->
  window_agrees curAbnormalPrefix (incr_count d s) s (S k).
Proof.
  intros [Hc _]. split.
  - rewrite count_at_incr_eq, Hc. apply wrap16_succ.
  - simpl. rewrite lookup_insert_eq. split; [lia|eauto].
Qed.

Lemma agrees_incr_other (d : SnapDB) (s id : bytes) (k : nat) :
  id <> s -> window_agrees curAbnormalPrefix d id k ->
  window_agrees curAbnormalPrefix (incr_count d s) id k.
Proof.
  intros Hne [Hc Hp]. assert (curAbnormalPrefix ++ id <> curKey s) by (by intros ?%app_inv_head).
  split.
  - by rewrite count_at_incr_ne.
  - simpl. rewrite lookup_insert_ne; [exact Hp|]. intros E. by apply H.
Qed.

Lemma agrees_incr_pre (d : SnapDB) (s id : bytes) (k : nat) :
  window_agrees preAbnormalPrefix d id k ->
  window_agrees preAbnormalPrefix (incr_count d s) id k.
Proof.
  intros [Hc Hp]. assert (Hne : preAbnormalPrefix ++ id <> curKey s).
  { intros E. apply app_inj_1 in E as [E _]; [discriminate|done]. }
  split.
  - by rewrite count_at_incr_ne.
  - simpl. rewrite lookup_insert_ne; [exact Hp|]. intros E. by apply Hne.
Qed.

Lemma agrees_rotated_cur (d d1 : SnapDB) (id : bytes) :
  (forall k, baseDB d1 !! k = rotated (baseDB d) k) ->
  window_agrees curAbnormalPrefix d1 id 0.
Proof.
  intros K. assert (Hn : baseDB d1 !! (curAbnormalPrefix ++ id) = None).
  { rewrite K. unfold rotated. by rewrite has_prefix_app. }
  split.
  - unfold count_at. by rewrite Hn.
  - rewrite Hn. split; [intros []; discriminate|lia].
Qed.

Lemma agrees_rotated_pre (d d1 : SnapDB) (id : bytes) (k : nat) :
  (forall k, baseDB d1 !! k = rotated (baseDB d) k) ->
  window_agrees curAbnormalPrefix d id k -> window_agrees preAbnormalPrefix d1 id k.
Proof.
  intros K [Hc Hp]. assert (E : baseDB d1 !! (preAbnormalPrefix ++ id) = baseDB d !! (curAbnormalPrefix ++ id)).
  { rewrite K. unfold rotated. pose proof (preKey_not_cur id) as Hn. unfold preKey in Hn.
    by rewrite Hn, has_prefix_app, drop_prefix_app. }
  split.
  - rewrite <- Hc. unfold count_at. by rewrite E.
  - by rewrite E.
Qed.

Lemma agrees_ext (p : bytes) (d : SnapDB) (id : bytes) (k k' : nat) :
  k = k' -> window_agrees p d id k -> window_agrees p d id k'.
Proof. by intros ->. Qed.

(** ** The window invariant along the chain *)

Section Step.
Context `{SigRecover}.
Variable cfg : Config.
Hypothesis HR : 2 <= ConsensusSize cfg.
Variable sig : Block -> bytes.

Lemma window_step (blocks : list Block) (b : Block) (d : SnapDB) :
  window_inv cfg sig d blocks -> chain_ok sig (blocks ++ [b]) ->
  exists d', Confirmed cfg b d = (Ok tt, d') /\ window_inv cfg sig d' (blocks ++ [b]).
Proof.
  intros (Hwf & Hw & Hagree) Hc.
  destruct (chain_ok_snoc sig _ _ Hc) as (Hc0 & Hn & Hs).
  assert (Hnums : forall b', b' ∈ blocks -> 1 <= NumberU64 b' <= last_number blocks)
    by (intros; eapply chain_numbers; eauto).
  set (n := last_number blocks) in *. set (R := ConsensusSize cfg) in *.
  assert (Hn0 : 0 <= n) by (unfold n, last_number; lia).
  destruct (Confirmed_ok cfg d b (sig b) Hs Hwf Hw) as (d1 & Hd1 & Hwf1 & HC).
  exists (incr_count d1 (sig b)). split; [exact HC|].
  assert (Hf : faulty d1 = faulty d) by (destruct (isSwitchBlock cfg (NumberU64 b));
                                         [apply Hd1|by subst]).
  split; [apply incr_count_wf; [done|by eapply parseNodeId_len]|].
  split; [unfold counts_writable; rewrite faulty_incr_count, Hf; exact Hw|].
  intros id. destruct (Hagree id) as [Hcur Hpre].
  unfold cur_window, pre_window, round_start in *.
  replace (last_number (blocks ++ [b])) with (n + 1)
    by (unfold n, last_number; rewrite length_app; simpl; lia).
  fold n in Hcur, Hpre. fold R in Hcur, Hpre |- *.
  rewrite !produced_snoc, Hn.
  pose proof (round_start_le R ltac:(lia) n Hn0) as Hle.
  destruct (isSwitchBlock cfg (NumberU64 b)) eqn:Hsw.
  - destruct Hd1 as (_ & _ & K).
    unfold isSwitchBlock in Hsw. rewrite Hn in Hsw. fold R in Hsw.
    apply andb_true_iff in Hsw as [Hm%Z.eqb_eq Hgt%Z.ltb_lt].
    pose proof (switch_mod R ltac:(lia) n Hn0 Hm) as Hz.
    destruct (round_start_switch R ltac:(lia) n ltac:(lia) Hz) as [E1 E0].
    rewrite E1. rewrite E0 in Hcur. split.
    + rewrite (produced_empty sig blocks) by (intros b' Hb'; specialize (Hnums b' Hb'); lia).
      destruct (decide (id = sig b)) as [->|Hne].
      * rewrite decide_True by (split; [done|lia]).
        apply agrees_incr_same. by apply (agrees_rotated_cur d).
      * rewrite decide_False by naive_solver.
        apply agrees_incr_other; [done|]. by apply (agrees_rotated_cur d).
    + rewrite decide_False by lia. rewrite Nat.add_0_r.
      apply agrees_incr_pre. apply (agrees_rotated_pre d); [done|].
      eapply agrees_ext; [|exact Hcur]. apply produced_ext.
      intros b' Hb'. specialize (Hnums b' Hb'). lia.
  - subst d1.
    assert (Hsame : forall b', b' ∈ blocks -> R * ((n + 1 - 1) / R) + 1 = R * ((n - 1) / R) + 1).
    { intros b' Hb'. specialize (Hnums b' Hb'). f_equal. f_equal.
      unfold isSwitchBlock in Hsw. rewrite Hn in Hsw. fold R in Hsw.
      apply round_start_same; [lia|lia|]. apply no_switch_mod; [lia|lia|].
      intros E. rewrite E, Z.eqb_refl in Hsw. simpl in Hsw.
      apply Z.ltb_ge in Hsw. lia. }
    split.
    + assert (Ek : produced sig blocks id (R * ((n + 1 - 1) / R) + 1) (n + 1) =
                   produced sig blocks id (R * ((n - 1) / R) + 1) n).
      { apply produced_ext. intros b' Hb'. rewrite (Hsame b' Hb'). specialize (Hnums b' Hb'). lia. }
      rewrite Ek. destruct (decide (id = sig b)) as [->|Hne].
      * rewrite decide_True by (split; [done|lia]). rewrite Nat.add_1_r. by apply agrees_incr_same.
      * rewrite decide_False by naive_solver. rewrite Nat.add_0_r. by apply agrees_incr_other.
    + rewrite decide_False by lia. rewrite Nat.add_0_r. apply agrees_incr_pre.
      eapply agrees_ext; [|exact Hpre]. apply produced_ext.
      intros b' Hb'. rewrite (Hsame b' Hb'). lia.
Qed.

End Step.

Section ChainTheorems.
Context `{SigRecover}.
Variable cfg : Config.
Variable sig : Block -> bytes.

(** A store with no count in either window. *)
Definition no_counts (d : SnapDB) : Prop :=
  forall id, baseDB d !! (curAbnormalPrefix ++ id) = None /\
             baseDB d !! (preAbnormalPrefix ++ id) = None.

Lemma window_inv_init (d : SnapDB) :
  counts_wf d -> counts_writable d -> no_counts d -> window_inv cfg sig d [].
Proof.
  intros Hwf Hw Hn. split; [done|]. split; [done|]. intros id.
  destruct (Hn id) as [Hc Hp].
  unfold cur_window, pre_window, window_agrees, count_at, produced.
  rewrite !filter_nil. cbn [length]. rewrite Hc, Hp.
  repeat split; try done; try lia; intros [? ?]; discriminate.
Qed.

Lemma chain_windows_ok (blocks : list Block) (d0 : SnapDB) :
  2 <= ConsensusSize cfg -> chain_ok sig blocks -> window_inv cfg sig d0 [] ->
  exists d, confirm_chain cfg blocks d0 = (Ok tt, d) /\ window_inv cfg sig d blocks.
Proof.
  intros HR. induction blocks as [|b blocks IH] using rev_ind; intros Hc Hinit.
  - exists d0. done.
  - destruct (chain_ok_snoc sig _ _ Hc) as (Hc0 & _ & _).
    destruct (IH Hc0 Hinit) as (d & Hr & Hinv).
    destruct (window_step cfg HR sig blocks b d Hinv Hc) as (d' & HC & Hinv').
    exists d'. split; [|done].
    unfold confirm_chain. rewrite fold_se_app.
    rewrite (se_bind_Ok _ _ _ tt d Hr). simpl.
    by rewrite (se_bind_Ok _ _ _ tt d' HC).
Qed.

(** The previous-round counts the policy reads after a chain. *)
Definition prev_counts_of (blocks : list Block) (res : gmap bytes Z) : Prop :=
  forall id, res !! id =
    if decide (0 < pre_window cfg sig blocks id)%nat
    then Some (wrap 16 (Z.of_nat (pre_window cfg sig blocks id))) else None.

Lemma GetPreNodeAmount_chain (blocks : list Block) (d : SnapDB) :
  window_inv cfg sig d blocks ->
  exists res, GetPreNodeAmount d = Ok res /\ prev_counts_of blocks res.
Proof.
  intros (Hwf & _ & Hagree). destruct (GetPreNodeAmount_ok d Hwf) as (res & Hr & Hres).
  exists res. split; [done|]. intros id. rewrite Hres.
  destruct (Hagree id) as [_ [Hc Hp]].
  destruct (baseDB d !! (preAbnormalPrefix ++ id)) eqn:E; simpl.
  - rewrite decide_True by (apply Hp; eauto). by rewrite Hc.
  - rewrite decide_False; [done|]. intros Hk%Hp. destruct Hk; discriminate.
Qed.

End ChainTheorems.

(** ** Theorems *)

Section Claims.
Context `{SigRecover}.
Variable cfg : Config.
Variable sig : Block -> bytes.

(** C5: confirming the blocks [1..n] of a chain from a store
    with no counts succeeds, and afterwards, for every validator, the
    current window holds the number of blocks it signed in the round of
    block [n] and the previous window the number it signed in the round
    before (modulo [2^16]); an entry exists exactly when that number is
    positive.  Rounds have at least two blocks. *)
Theorem chain_windows (blocks : list Block) (d0 : SnapDB) :
  2 <= ConsensusSize cfg -> chain_ok sig blocks ->
  counts_wf d0 -> counts_writable d0 -> no_counts d0 ->
  exists d, confirm_chain cfg blocks d0 = (Ok tt, d) /\
    forall id, window_agrees curAbnormalPrefix d id (cur_window cfg sig blocks id) /\
               window_agrees preAbnormalPrefix d id (pre_window cfg sig blocks id).
Proof.
  intros HR Hc Hwf Hw Hn.
  destruct (chain_windows_ok cfg sig blocks d0 HR Hc) as (d & Hr & _ & _ & Ha);
    [by apply window_inv_init|].
  eauto.
Qed.

(** C6: after the blocks [1..n] are confirmed, the
    policy run at a ranking block reads, for every validator, its number
    of blocks in the previous round (absent when zero) and performs the
    ledger calls [low_slashes] that this production determines. *)
Theorem policy_previous_round (blocks : list Block) (d0 : SnapDB) `{StakingLedger L}
    (h : bytes) (header : Header) (s : L) (vs : list Candidate) :
  2 <= ConsensusSize cfg -> chain_ok sig blocks ->
  counts_wf d0 -> counts_writable d0 -> no_counts d0 ->
  isRankingBlock cfg (Number header) = true ->
  GetCandidateONRound h (Number header) s = Ok vs ->
  exists d res, confirm_chain cfg blocks d0 = (Ok tt, d) /\ prev_counts_of cfg sig blocks res /\
    EndBlock cfg d h header s = apply_slashes h (Number header) (low_slashes cfg res vs) s.
Proof.
  intros HR Hc Hwf Hw Hn Hr Hvs.
  destruct (chain_windows_ok cfg sig blocks d0 HR Hc) as (d & Hconf & Hinv);
    [by apply window_inv_init|].
  destruct (GetPreNodeAmount_chain cfg sig blocks d Hinv) as (res & Hget & Hres).
  exists d, res. split; [done|]. split; [done|].
  by apply EndBlock_apply.
Qed.

End Claims.

(** ** Concrete chains *)

(** Block [i + 1] signed by [f i]: the header's extra data is 32 vanity
    bytes followed by the 65-byte signature, from which [test_recover]
    recovers the signer. *)
Definition test_block (f : nat -> bytes) (i : nat) : Block :=
  mkBlock (mkHeader (Z.of_nat i + 1) (repeat Byte.x00 32 ++ f i ++ [Byte.x00]) []) [].

Definition test_chain (f : nat -> bytes) (n : nat) : list Block :=
  test_block f <$> seq 0 n.

Definition test_sig (b : Block) : bytes := take 64 (drop 32 (Extra (bHeader b))).

Lemma test_chain_ok (f : nat -> bytes) (n : nat) :
  (forall i, length (f i) = 64%nat) -> @chain_ok test_recover test_sig (test_chain f n).
Proof.
  intros Hf i b Hi. unfold test_chain in Hi.
  apply list_lookup_fmap_Some_1 in Hi as (j & -> & Hj).
  apply lookup_seq in Hj as [-> _]. split; [reflexivity|].
  unfold parseNodeId, test_sig, test_block. cbn [Extra bHeader SealHash].
  rewrite decide_False by (rewrite !length_app, repeat_length, Hf; cbn [length]; lia).
  rewrite drop_app_length' by (by rewrite repeat_length).
  rewrite (take_ge (f _ ++ _)) by (rewrite length_app, Hf; cbn [length]; lia).
  cbn [SigToPubID test_recover]. unfold test_SigToPubID.
  rewrite decide_True by (rewrite length_app, Hf; reflexivity).
  reflexivity.
Qed.

(** Rounds of 40 blocks, 2 validators (normal production 20), election one
    block before the round end: blocks 39 and 79 are election blocks and
    79 is the first ranking block. *)
Definition cfg40 : Config := mkConfig 40 2 1.

Definition nodeA : bytes := repeat Byte.x0a 64.
Definition nodeB : bytes := repeat Byte.x0b 64.
Definition nodeC : bytes := repeat Byte.x0c 64.
Definition nodeW : bytes := repeat Byte.x0d 64.

(** Blocks 1-7 signed by [nodeA], 8-10 by [nodeC], the rest by [nodeB];
    [nodeW] signs none. *)
Definition signer40 (i : nat) : bytes :=
  if (i <? 7)%nat then nodeA else if (i <? 10)%nat then nodeC else nodeB.

Definition chain78 : list Block := test_chain signer40 78.

Definition hdr79 : Header := mkHeader 79 [] [].

Definition ledger4 : TestLedger :=
  mkTestLedger [mkCandidate nodeA [Byte.x01] 1000 0 0 0; mkCandidate nodeB [Byte.x02] 1000 0 0 0;
                mkCandidate nodeC [Byte.x03] 1000 0 0 0; mkCandidate nodeW [Byte.x04] 1000 0 0 0] [].

Lemma signer40_len (i : nat) : length (signer40 i) = 64%nat.
Proof. unfold signer40. by repeat case_match. Qed.

Lemma chain78_ok : @chain_ok test_recover test_sig chain78.
Proof. apply test_chain_ok, signer40_len. Qed.

(** ** Scenario *)

(** Over the 40-block rounds of [cfg40], after the
    blocks 1-78 are confirmed from an empty store, the policy at the
    ranking block 79 fines [nodeA] (7 blocks in the previous round, mild)
    at rate 10 and keeps it, fines and removes [nodeC] (3 blocks, severe),
    leaves [nodeB] (30 blocks, normal) alone, and fines [nodeW], which
    signed nothing, at the severe rate without removing it. *)
Example lowperf_scenario :
  let '(r, d) := @confirm_chain test_recover cfg40 chain78 empty_db in
  r = Ok tt /\
  tl_calls (EndBlock cfg40 d [] hdr79 ledger4).2 =
    [(nodeA, 100, false, LowRatio); (nodeC, 50, true, LowRatio); (nodeW, 50, false, LowRatio)].
Proof. vm_compute. split; reflexivity. Qed.

(** ** Witnesses *)

Lemma chain_windows_witness :
  exists d, @confirm_chain test_recover cfg40 chain78 empty_db = (Ok tt, d) /\
    forall id, window_agrees curAbnormalPrefix d id (cur_window cfg40 test_sig chain78 id) /\
               window_agrees preAbnormalPrefix d id (pre_window cfg40 test_sig chain78 id).
Proof.
  apply (@chain_windows test_recover cfg40 test_sig);
    [vm_compute; discriminate | apply chain78_ok
    | apply (bool_decide_unpack _); vm_compute; reflexivity
    | apply (bool_decide_unpack _); vm_compute; reflexivity
    | intros id; split; reflexivity].
Defined.

Lemma policy_previous_round_witness :
  exists d res, @confirm_chain test_recover cfg40 chain78 empty_db = (Ok tt, d) /\
    prev_counts_of cfg40 test_sig chain78 res /\
    EndBlock cfg40 d [] hdr79 ledger4 =
    apply_slashes [] (Number hdr79) (low_slashes cfg40 res (tl_validators ledger4)) ledger4.
Proof.
  apply (@policy_previous_round test_recover cfg40 test_sig);
    [vm_compute; discriminate | apply chain78_ok
    | apply (bool_decide_unpack _); vm_compute; reflexivity
    | apply (bool_decide_unpack _); vm_compute; reflexivity
    | intros id; split; reflexivity | vm_compute; reflexivity | vm_compute; reflexivity].
Defined.
